(** * LISA suite execution engine: a shallow embedding of [lisa/testsuite.py]

    The development follows the layout of the Python module: the status
    enumeration, the result message, the case run record ([TestResult]) with
    [set_status], [handle_exception], [check_environment] and
    [_send_result_message], the suite orchestrator ([TestSuite.start] and its
    private helpers) and the metadata registry ([_add_suite_metadata],
    [_add_case_metadata]). *)

From Stdlib Require Import ZArith Lia.
From stdpp Require Import base strings list gmap.

Open Scope Z_scope.
Open Scope string_scope.
Open Scope list_scope.

(** ** Python strings *)

(** Truth value of a [str]: the empty string is falsy. *)
Definition str_truthy (s : string) : bool :=
  match s with
  | EmptyString => false
  | String _ _ => true
  end.

(** The slice [s[0:n]]. *)
Fixpoint str_slice_to (s : string) (n : nat) {struct s} : string :=
  match s, n with
  | String c s', S n' => String c (str_slice_to s' n')
  | _, _ => EmptyString
  end.

Definition newline : string := String (Ascii.ascii_of_nat 10) EmptyString.

(** [sep.join(parts)]. *)
Fixpoint str_join (sep : string) (parts : list string) : string :=
  match parts with
  | [] => ""
  | [p] => p
  | p :: rest => p +:+ sep +:+ str_join sep rest
  end.

(** [s.startswith(prefix)]. *)
Fixpoint startswith (s prefix : string) : bool :=
  match prefix, s with
  | EmptyString, _ => true
  | String p prefix', String c s' =>
      if Ascii.eqb p c then startswith s' prefix' else false
  | String _ _, EmptyString => false
  end.

(** ** Status enumeration and classified signals *)

Inductive TestStatus : Set :=
| NOTRUN | RUNNING | FAILED | PASSED | SKIPPED | ATTEMPTED.

#[global] Instance TestStatus_eq_dec : EqDecision TestStatus.
Proof. solve_decision. Defined.

(** Exception classes the engine tests with [isinstance].  An exception
    object carries the method resolution order of its class, so that a
    subclass satisfies [isinstance] for each of its ancestors, and the text
    that [str(exception)] yields.  Only subclasses of [Exception] are
    modelled: they are what the [except Exception] clauses catch. *)
Inductive ExceptionClass : Set :=
| ExceptionC
| LisaException
| SkippedException
| NotRunException
| PassedException
| UserException (class_name : string).

#[global] Instance ExceptionClass_eq_dec : EqDecision ExceptionClass.
Proof. solve_decision. Defined.

Record PyException := mkException {
  exc_mro : list ExceptionClass;
  exc_str : string
}.

Definition isinstance (e : PyException) (c : ExceptionClass) : bool :=
  bool_decide (c ∈ exc_mro e).

(** ** Capability model (the part the engine consumes) *)

(** Modelled from the spec: [search_space.ResultReason] and its [merge]
    (lisa/search_space.py is not among the sources).  A result is the verdict
    together with the explanations gathered so far; merging conjoins the
    verdicts and appends the explanations of the sub result under the
    label. *)
Record ResultReason := mkResultReason {
  result : bool;
  reasons : list string
}.

Definition label_reason (label reason : string) : string :=
  if str_truthy label then label +:+ "/" +:+ reason else reason.

Definition merge (self sub_result : ResultReason) (label : string)
  : ResultReason :=
  {| result := result self && result sub_result;
     reasons := reasons self ++ map (label_reason label) (reasons sub_result) |}.

Record SetSpace (A : Type) := mkSetSpace {
  is_allow_set : bool;
  items : list A
}.
Arguments mkSetSpace {A}.
Arguments is_allow_set {A}.
Arguments items {A}.

(** A [SetSpace] is a Python set: it is truthy when it has an element. *)
Definition SetSpace_truthy {A} (s : SetSpace A) : bool :=
  match items s with
  | [] => false
  | _ :: _ => true
  end.

Inductive EnvironmentStatus : Set :=
| New | Prepared | Deployed | Connected | Deleted.

#[global] Instance EnvironmentStatus_eq_dec : EqDecision EnvironmentStatus.
Proof. solve_decision. Defined.

(** An operating-system class is named; a node exposes the method resolution
    order of the class of its [os], most derived class first. *)
Definition OsType := string.

Record Node := mkNode {
  node_name : string;
  os_mro : list OsType
}.

(** Modelled from the spec: the capability descriptor of an environment and
    the environment requirement with its [check] (lisa/environment.py and
    lisa/search_space.py are not among the sources).  The engine only calls
    [requirement.environment.check(environment.capability)]. *)
Record EnvCapability := mkEnvCapability {
  cap_node_count : Z;
  cap_nic_count : Z;
  cap_features : list string
}.

Record EnvironmentSpace := mkEnvironmentSpace {
  environment_check : EnvCapability -> ResultReason
}.

(** Modelled from the spec: [SetSpace.check] on operating-system classes.  An
    allow set is met when the candidate set holds every required class, a
    deny set when the candidate holds none of the excluded ones; the
    candidate is the whole ancestor chain of the node's class. *)
Definition os_type_check (requirement capability : SetSpace OsType)
  : ResultReason :=
  if is_allow_set requirement then
    if forallb (fun t => bool_decide (t ∈ items capability)) (items requirement)
    then mkResultReason true []
    else mkResultReason false ["capability cannot support some of requirement"]
  else
    if existsb (fun t => bool_decide (t ∈ items capability)) (items requirement)
    then mkResultReason false ["requirement excludes some of capability"]
    else mkResultReason true [].

Record Environment := mkEnvironment {
  is_new : bool;
  env_status : EnvironmentStatus;
  nodes : list Node;
  default_node : Node;
  capability : EnvCapability;
  (* what [get_information()] returns *)
  env_information : gmap string string
}.

(** ** Metadata *)

Record TestCaseRequirement := mkRequirement {
  req_environment : option EnvironmentSpace;
  environment_status : EnvironmentStatus;
  platform_type : option (SetSpace string);
  os_type : option (SetSpace OsType)
}.

(** [TestSuiteMetadata]: [cases] holds references to case descriptors, kept
    here as their fully-qualified names (the keys of [_all_cases]);
    [test_class] is the name of the decorated class once the decorator has
    been applied. *)
Record TestSuiteMetadata := mkSuiteMetadata {
  suite_name : string;
  cases : list string;
  tags : list string;
  area : string;
  category : string;
  suite_description : string;
  suite_requirement : TestCaseRequirement;
  test_class : option string
}.

(** [TestCaseMetadata]: [suite] is a reference to the owning suite
    descriptor, kept as its key in [_all_suites]; it is unset until the case
    is attached to a suite.  [requirement] is present only when the case
    overrides it. *)
Record TestCaseMetadata := mkCaseMetadata {
  name : string;
  full_name : string;
  priority : Z;
  description : string;
  requirement : option TestCaseRequirement;
  suite : option string
}.

(** [retry] and [times] are counts: the record holds non-negative integers. *)
Record TestCaseRuntimeData := mkRuntimeData {
  metadata : TestCaseMetadata;
  select_action : string;
  times : nat;
  retry : nat;
  use_new_environment : bool;
  ignore_failure : bool;
  environment_name : string
}.

(** [TestCaseMetadata.__getattr__] for [requirement]: the case-level value
    when set, else the attribute of the owning suite; [None] when the lookup
    raises (no suite bound). *)
Definition getattr_requirement (suites : gmap string TestSuiteMetadata)
    (m : TestCaseMetadata) : option TestCaseRequirement :=
  match requirement m with
  | Some r => Some r
  | None =>
      match suite m with
      | Some key => suite_requirement <$> suites !! key
      | None => None
      end
  end.

(** ** Result message and case run record *)

(** [elapsed] is a reading of the performance counter, in ticks. *)
Record TestResultMessage := mkMessage {
  msg_type : string;
  msg_elapsed : Z;
  msg_id_ : string;
  msg_name : string;
  msg_status : TestStatus;
  msg_message : string;
  msg_information : gmap string string
}.

(** The fields of the dataclass, and [_timer], the attribute that
    [set_status] creates on entering [RUNNING] ([None] while the attribute
    does not exist; [Some t0] holds the clock reading at its creation). *)
Record TestResult := mkTestResult {
  id_ : string;
  runtime_data : TestCaseRuntimeData;
  status : TestStatus;
  elapsed : Z;
  message : string;
  environment : option Environment;
  check_results : option ResultReason;
  information : gmap string string;
  _timer : option Z
}.

Definition can_run (self : TestResult) : bool :=
  bool_decide (status self = NOTRUN).

(** The [message] argument of [set_status]: [Union[str, List[str]]]. *)
Inductive MessageArg :=
| MsgStr (s : string)
| MsgList (l : list string).

Definition MessageArg_truthy (m : MessageArg) : bool :=
  match m with
  | MsgStr s => str_truthy s
  | MsgList [] => false
  | MsgList (_ :: _) => true
  end.

(** ** Process state and the monad the engine runs in *)

(** A hook or case body is invoked once per attempt and recorded as such. *)
Inductive HookCall :=
| CallBeforeSuite
| CallAfterSuite
| CallBeforeCase (case_name : string)
| CallAfterCase (case_name : string)
| CallCase (case_name : string).

#[global] Instance HookCall_eq_dec : EqDecision HookCall.
Proof. solve_decision. Defined.

(** Keyword arguments handed to every hook and case body. *)
Record Kwargs := mkKwargs {
  kw_environment : Environment;
  kw_node : Node;
  kw_case_name : option string
}.

(** Field updates of the case run record. *)
Definition with_status (self : TestResult) (s : TestStatus) : TestResult :=
  mkTestResult (id_ self) (runtime_data self) s (elapsed self) (message self)
    (environment self) (check_results self) (information self) (_timer self).

Definition with_elapsed (self : TestResult) (e : Z) : TestResult :=
  mkTestResult (id_ self) (runtime_data self) (status self) e (message self)
    (environment self) (check_results self) (information self) (_timer self).

Definition with_message (self : TestResult) (m : string) : TestResult :=
  mkTestResult (id_ self) (runtime_data self) (status self) (elapsed self) m
    (environment self) (check_results self) (information self) (_timer self).

Definition with_environment (self : TestResult) (e : option Environment)
  : TestResult :=
  mkTestResult (id_ self) (runtime_data self) (status self) (elapsed self)
    (message self) e (check_results self) (information self) (_timer self).

Definition with_check_results (self : TestResult) (c : option ResultReason)
  : TestResult :=
  mkTestResult (id_ self) (runtime_data self) (status self) (elapsed self)
    (message self) (environment self) c (information self) (_timer self).

Definition with_information (self : TestResult) (i : gmap string string)
  : TestResult :=
  mkTestResult (id_ self) (runtime_data self) (status self) (elapsed self)
    (message self) (environment self) (check_results self) i (_timer self).

Definition with_timer (self : TestResult) (t : option Z) : TestResult :=
  mkTestResult (id_ self) (runtime_data self) (status self) (elapsed self)
    (message self) (environment self) (check_results self) (information self) t.

(** [d.update(other)]: the entries of [other] win. *)
Definition dict_update (d other : gmap string string) : gmap string string :=
  other ∪ d.

(** Hard cap of the message text carried by a result message. *)
Definition MESSAGE_CAP : nat := 2048.

Section Engine.

(** [W] is whatever the hooks and case bodies act upon: the environment they
    drive and the attributes they keep on the suite object. *)
Context {W : Type}.

(** What one invocation of a hook or case body does: the world it leaves, the
    time it took, whether it called [self.stop()], and the exception it
    raised, if any. *)
Record HookOutcome := mkOutcome {
  hk_world : W;
  hk_ticks : Z;
  hk_stop : bool;
  hk_raised : option PyException
}.

Definition Hook := Kwargs -> W -> HookOutcome.

(** A suite object: its descriptor, the four lifecycle hooks and the test
    methods, looked up by name ([getattr(self, case_name)]; the names handed
    to [start] must be test methods of the class). *)
Record TestSuite := mkTestSuite {
  _metadata : TestSuiteMetadata;
  before_suite : Hook;
  after_suite : Hook;
  before_case : Hook;
  after_case : Hook;
  test_method : string -> Hook
}.

(** The state a run threads through: the hooks' world, the performance
    counter, the notification sink (messages in order of emission), the
    suite's [_should_stop] attribute and the log of invocations. *)
Record RunState := mkRunState {
  world : W;
  clock : Z;
  sink : list TestResultMessage;
  _should_stop : bool;
  calls : list HookCall
}.

Definition M (A : Type) : Type := RunState -> A * RunState.

Definition ret {A} (a : A) : M A := fun st => (a, st).

Definition bind {A B} (m : M A) (k : A -> M B) : M B :=
  fun st => let '(a, st') := m st in k a st'.

Notation "'let!' x ':=' m 'in' k" := (bind m (fun x => k))
  (at level 10, x pattern, m at level 100, k at level 200).

(** The state once [m] has reached the notification sink. *)
Definition emit (st : RunState) (m : TestResultMessage) : RunState :=
  mkRunState (world st) (clock st) (sink st ++ [m]) (_should_stop st)
    (calls st).

(** [notifier.notify(message)]. *)
Definition notify (m : TestResultMessage) : M unit :=
  fun st => (tt, emit st m).

(** [create_timer()]: a timer is the counter reading at its creation.  The
    counter stands for the time that hooks and case bodies take: it moves
    while they run ([call_hook]) and not in between, so the time the engine
    itself takes is not part of the model. *)
Definition create_timer : M Z := fun st => (clock st, st).

(** [timer.elapsed(False)]. *)
Definition timer_elapsed (t0 : Z) : M Z := fun st => (clock st - t0, st).

(** [TestResult._send_result_message]. *)
Definition _send_result_message (self : TestResult) : M TestResult :=
  let! self := match _timer self with
               | Some t0 => let! e := timer_elapsed t0 in ret (with_elapsed self e)
               | None => ret self
               end in
  let result_message_information : gmap string string := ∅ in
  let self := match environment self with
              | Some env =>
                  with_information self
                    (dict_update (information self) (env_information env))
              | None => self
              end in
  let result_message :=
    {| msg_type := "TestResult";
       msg_elapsed := elapsed self;
       msg_id_ := id_ self;
       msg_status := status self;
       msg_information :=
         dict_update result_message_information (information self);
       msg_message :=
         if str_truthy (message self)
         then str_slice_to (message self) MESSAGE_CAP else "";
       msg_name := full_name (metadata (runtime_data self)) |} in
  let! _ := notify result_message in
  ret self.

(** [TestResult.__post_init__]. *)
Definition __post_init__ (self : TestResult) : M TestResult :=
  _send_result_message self.

(** [TestResult(id_, runtime_data)]: the dataclass constructor with every
    other field at its default, followed by [__post_init__]. *)
Definition new_TestResult (id : string) (rd : TestCaseRuntimeData)
  : M TestResult :=
  __post_init__ (mkTestResult id rd NOTRUN 0 "" None None ∅ None).

(** [TestResult.set_status]. *)
Definition set_status (self : TestResult) (new_status : TestStatus)
    (message_arg : MessageArg) : M TestResult :=
  let self :=
    if MessageArg_truthy message_arg then
      let parts := match message_arg with
                   | MsgStr s => [s]
                   | MsgList l => l
                   end in
      let parts := if str_truthy (message self)
                   then message self :: parts else parts in
      with_message self (str_join newline parts)
    else self in
  if bool_decide (status self ≠ new_status) then
    let self := with_status self new_status in
    let! self := if bool_decide (new_status = RUNNING)
                 then let! t := create_timer in ret (with_timer self (Some t))
                 else ret self in
    _send_result_message self
  else ret self.

(** [TestResult.handle_exception] (the calls to the logger are not part of
    the model). *)
Definition handle_exception (self : TestResult) (exception : PyException)
    (phase : string) : M TestResult :=
  let phase := if str_truthy phase then phase +:+ " " else phase in
  if isinstance exception SkippedException then
    set_status self SKIPPED
      (MsgStr (phase +:+ "skipped: " +:+ exc_str exception))
  else if isinstance exception NotRunException then
    set_status self NOTRUN
      (MsgStr (phase +:+ "notrun: " +:+ exc_str exception))
  else if isinstance exception PassedException then
    set_status self PASSED
      (MsgStr (phase +:+ "warning: " +:+ exc_str exception))
  else if ignore_failure (runtime_data self) then
    set_status self ATTEMPTED (MsgStr (phase +:+ exc_str exception))
  else
    set_status self FAILED
      (MsgStr (phase +:+ "failed: " +:+ exc_str exception)).

(** [TestSuite.stop]. *)
Definition stop : M unit :=
  fun st => (tt, mkRunState (world st) (clock st) (sink st) true (calls st)).

(** One invocation of a hook or case body: the world and the counter move as
    the outcome says, the invocation is logged, and [stop] runs when the
    body called [self.stop()]. *)
Definition call_hook (c : HookCall) (h : Hook) (kw : Kwargs)
  : M (option PyException) :=
  fun st =>
    let o := h kw (world st) in
    let st := mkRunState (hk_world o) (clock st + hk_ticks o) (sink st)
                (_should_stop st) (calls st ++ [c]) in
    (let! _ := if hk_stop o then stop else ret tt in
     ret (hk_raised o)) st.

(** Modelled from the spec: [retry_call] of the [retry] package, as the
    engine uses it ([exceptions=Exception], no delay): the callable is
    invoked up to [tries] times; the first normal return ends the loop, an
    exception triggers another attempt while attempts remain, and the
    exception of the last attempt is raised to the caller.  [None] stands
    for a normal return. *)
Fixpoint retry_call (f : M (option PyException)) (tries : nat)
  : M (option PyException) :=
  match tries with
  | O => ret None
  | S tries' =>
      let! r := f in
      match r with
      | None => ret None
      | Some e =>
          match tries' with
          | O => ret (Some e)
          | S _ => retry_call f tries'
          end
      end
  end.

Variable self : TestSuite.

(** [TestSuite.__suite_method]; [method_name] is [method.__name__]. *)
Definition __suite_method (c : HookCall) (method : Hook)
    (method_name : string) (test_kwargs : Kwargs) : M (bool * string) :=
  let! raised := call_hook c method test_kwargs in
  match raised with
  | None => ret (true, "")
  | Some identifier =>
      ret (false, method_name +:+ ": " +:+ exc_str identifier)
  end.

(** [TestSuite.__before_case]: the verdict and the record as it leaves. *)
Definition __before_case (case_result : TestResult) (test_kwargs : Kwargs)
  : M (bool * TestResult) :=
  let case_name := name (metadata (runtime_data case_result)) in
  let! raised := retry_call
                   (call_hook (CallBeforeCase case_name) (before_case self)
                      test_kwargs)
                   (retry (runtime_data case_result) + 1) in
  match raised with
  | None => ret (true, case_result)
  | Some identifier =>
      let! case_result :=
        set_status case_result SKIPPED
          (MsgStr ("before_case: " +:+ exc_str identifier)) in
      ret (false, case_result)
  end.

(** [TestSuite.__after_case]: the record as it leaves. *)
Definition __after_case (case_result : TestResult) (test_kwargs : Kwargs)
  : M TestResult :=
  let case_name := name (metadata (runtime_data case_result)) in
  let! raised := retry_call
                   (call_hook (CallAfterCase case_name) (after_case self)
                      test_kwargs)
                   (retry (runtime_data case_result) + 1) in
  match raised with
  | None => ret case_result
  | Some identifier =>
      (* after case doesn't impact test case result. *)
      ret case_result
  end.

(** [TestSuite.__run_case]. *)
Definition __run_case (case_result : TestResult) (test_kwargs : Kwargs)
  : M TestResult :=
  let case_name := name (metadata (runtime_data case_result)) in
  let method := test_method self case_name in
  let! raised := retry_call
                   (call_hook (CallCase case_name) method test_kwargs)
                   (retry (runtime_data case_result) + 1) in
  match raised with
  | None => set_status case_result PASSED (MsgStr "")
  | Some identifier => handle_exception case_result identifier ""
  end.

(** The part of the loop body of [start] that decides the case: from the
    binding of the environment up to, and without, the call of
    [__after_case]. *)
Definition decide_case (environment : Environment) (test_kwargs : Kwargs)
    (is_suite_continue : bool) (suite_error_message : string)
    (case_result : TestResult) : M (TestResult * Kwargs) :=
  let case_name := name (metadata (runtime_data case_result)) in
  let case_result := with_environment case_result (Some environment) in
  let case_kwargs :=
    mkKwargs (kw_environment test_kwargs) (kw_node test_kwargs)
      (Some case_name) in
  let is_continue := is_suite_continue in
  let! case_result := set_status case_result RUNNING (MsgStr "") in
  let! (is_continue, case_result) :=
    if is_continue then __before_case case_result case_kwargs
    else
      let! case_result :=
        set_status case_result SKIPPED (MsgStr suite_error_message) in
      ret (is_continue, case_result) in
  let! case_result :=
    if is_continue then __run_case case_result case_kwargs
    else ret case_result in
  ret (case_result, case_kwargs).

(** The part of [decide_case] that comes before the case body when the
    suite setup has succeeded: the binding of the environment, the entry
    into RUNNING and [__before_case]; the verdict of [__before_case], the
    record and the arguments of the case. *)
Definition enter_case (environment : Environment) (test_kwargs : Kwargs)
    (case_result : TestResult) : M (bool * TestResult * Kwargs) :=
  let case_name := name (metadata (runtime_data case_result)) in
  let case_result := with_environment case_result (Some environment) in
  let case_kwargs :=
    mkKwargs (kw_environment test_kwargs) (kw_node test_kwargs)
      (Some case_name) in
  let! case_result := set_status case_result RUNNING (MsgStr "") in
  let! (is_continue, case_result) := __before_case case_result case_kwargs in
  ret (is_continue, case_result, case_kwargs).

(** The case body under [retry_call], as [__run_case] calls it: [None] when
    an attempt returned, the exception of the last attempt otherwise. *)
Definition retried_body (case_result : TestResult) (test_kwargs : Kwargs)
  : M (option PyException) :=
  let case_name := name (metadata (runtime_data case_result)) in
  retry_call
    (call_hook (CallCase case_name) (test_method self case_name) test_kwargs)
    (retry (runtime_data case_result) + 1).

(** One iteration of the loop of [start], up to the test of
    [_should_stop]. *)
Definition run_one_case (environment : Environment) (test_kwargs : Kwargs)
    (is_suite_continue : bool) (suite_error_message : string)
    (case_result : TestResult) : M TestResult :=
  let! (case_result, case_kwargs) :=
    decide_case environment test_kwargs is_suite_continue
      suite_error_message case_result in
  __after_case case_result case_kwargs.

(** The [for case_result in case_results] loop of [start], with its
    [break]: the records in the order given, those not reached left as they
    were. *)
Fixpoint case_loop (environment : Environment) (test_kwargs : Kwargs)
    (is_suite_continue : bool) (suite_error_message : string)
    (case_results : list TestResult) : M (list TestResult) :=
  match case_results with
  | [] => ret []
  | case_result :: rest =>
      let! case_result :=
        run_one_case environment test_kwargs is_suite_continue
          suite_error_message case_result in
      fun st =>
        if _should_stop st then (case_result :: rest, st)
        else
          let '(rest, st) :=
            case_loop environment test_kwargs is_suite_continue
              suite_error_message rest st in
          (case_result :: rest, st)
  end.

(** [environment.is_new = False]. *)
Definition mark_used (environment : Environment) : Environment :=
  mkEnvironment false (env_status environment) (nodes environment)
    (default_node environment) (capability environment)
    (env_information environment).

(** The [test_kwargs] dictionary that [start] builds. *)
Definition suite_kwargs (environment : Environment) : Kwargs :=
  mkKwargs environment (default_node environment) None.

(** [TestSuite.start]: the environment and the records as the call leaves
    them. *)
Definition start (environment : Environment)
    (case_results : list TestResult) : M (Environment * list TestResult) :=
  (* set the environment is not new, when it's used by any suite. *)
  let environment := mark_used environment in
  let test_kwargs := suite_kwargs environment in
  let! (is_suite_continue, suite_error_message) :=
    __suite_method CallBeforeSuite (before_suite self) "before_suite"
      test_kwargs in
  let! case_results :=
    case_loop environment test_kwargs is_suite_continue suite_error_message
      case_results in
  let! _ :=
    __suite_method CallAfterSuite (after_suite self) "after_suite"
      test_kwargs in
  ret (environment, case_results).

(** *** What a run lets one observe *)

(** The world in which attempt number [k] (counted from 0) of a retried
    callable starts, when every earlier attempt raised. *)
Fixpoint attempt_world (h : Hook) (kw : Kwargs) (k : nat) (w : W) : W :=
  match k with
  | O => w
  | S k' => attempt_world h kw k' (hk_world (h kw w))
  end.

(** What attempt number [k] does. *)
Definition attempt (h : Hook) (kw : Kwargs) (k : nat) (w : W) : HookOutcome :=
  h kw (attempt_world h kw k w).

End Engine.

(** The status that the branches of [handle_exception] choose for an
    exception, in their order. *)
Definition status_for (ignore_failure : bool) (e : PyException)
  : TestStatus :=
  if isinstance e SkippedException then SKIPPED
  else if isinstance e NotRunException then NOTRUN
  else if isinstance e PassedException then PASSED
  else if ignore_failure then ATTEMPTED
  else FAILED.

(** The invocations made between two states of one run. *)
Definition new_calls {W} (st st' : @RunState W) : list HookCall :=
  drop (length (calls st)) (calls st').

(** Invocations made on behalf of one case. *)
Definition is_case_call (c : HookCall) : bool :=
  match c with
  | CallBeforeCase _ | CallAfterCase _ | CallCase _ => true
  | CallBeforeSuite | CallAfterSuite => false
  end.

Definition is_after_case_call (c : HookCall) : bool :=
  match c with
  | CallAfterCase _ => true
  | _ => false
  end.

(** The result message the specification describes for a record: its id,
    status and elapsed time, its message text cut at the cap, and its
    information map. *)
Definition result_message_of (self : TestResult) : TestResultMessage :=
  {| msg_type := "TestResult";
     msg_elapsed := elapsed self;
     msg_id_ := id_ self;
     msg_name := full_name (metadata (runtime_data self));
     msg_status := status self;
     msg_message := str_slice_to (message self) MESSAGE_CAP;
     msg_information := information self |}.

(** The message log of a record after [text] has been added to it. *)
Definition message_log (old text : string) : string :=
  if str_truthy text then
    if str_truthy old then old +:+ newline +:+ text else text
  else old.

(** [after] is [before] skipped with [text] added to its message log. *)
Definition skipped_with (text : string) (before after : TestResult) : Prop :=
  id_ after = id_ before
  /\ status after = SKIPPED
  /\ message after = message_log (message before) text.

(** The information map of a record once the information of its environment
    has been merged into it. *)
Definition merged_information (self : TestResult) : gmap string string :=
  match environment self with
  | Some env => env_information env ∪ information self
  | None => information self
  end.

(** The record as the sending of a result message at time [now] leaves it:
    the elapsed time read from the timer, if there is one, and the merged
    information. *)
Definition sent (self : TestResult) (now : Z) : TestResult :=
  with_information
    (match _timer self with
     | Some t0 => with_elapsed self (now - t0)
     | None => self
     end)
    (merged_information self).

(** The record after a change of status at time [now], with [text] added to
    its message log. *)
Definition transitioned (self : TestResult) (new_status : TestStatus)
    (text : string) (now : Z) : TestResult :=
  let self :=
    with_status (with_message self (message_log (message self) text))
      new_status in
  sent (if bool_decide (new_status = RUNNING)
        then with_timer self (Some now) else self) now.

(** ** Requirement check of a record against an environment *)

(** The [for node in environment.nodes.list()] loop of [check_environment]:
    the merged result, and the nodes whose operating system was checked, in
    order. *)
Fixpoint os_type_loop (requirement_os_type : SetSpace OsType)
    (node_list : list Node) (check_result : ResultReason)
  : ResultReason * list Node :=
  match node_list with
  | [] => (check_result, [])
  | node :: rest =>
      (* use __mro__ to match any super types. *)
      let node_os_capability := mkSetSpace true (os_mro node) in
      let check_result :=
        merge check_result
          (os_type_check requirement_os_type node_os_capability) "os_type" in
      if negb (result check_result) then (check_result, [node])
      else
        let '(check_result, checked) :=
          os_type_loop requirement_os_type rest check_result in
        (check_result, node :: checked)
  end.

(** What a call of [check_environment] leaves: the value returned, the
    record, and the nodes whose operating system was checked. *)
Record CheckOutcome := mkCheckOutcome {
  chk_return : bool;
  chk_self : TestResult;
  chk_nodes : list Node
}.

(** [TestResult.check_environment]; [suites] resolves the reference of the
    case descriptor to its suite.  [None] when the lookup of the requirement
    or the assertion on [requirement.environment] raises. *)
Definition check_environment (suites : gmap string TestSuiteMetadata)
    (self : TestResult) (environment : Environment) (save_reason : bool)
  : option CheckOutcome :=
  match getattr_requirement suites (metadata (runtime_data self)) with
  | None => None
  | Some requirement =>
      match req_environment requirement with
      | None => None
      | Some requirement_environment =>
          let check_result :=
            environment_check requirement_environment
              (capability environment) in
          let '(check_result, checked) :=
            match os_type requirement with
            | Some requirement_os_type =>
                if result check_result
                   && SetSpace_truthy requirement_os_type
                   && bool_decide (env_status environment = Connected)
                then os_type_loop requirement_os_type (nodes environment)
                       check_result
                else (check_result, [])
            | None => (check_result, [])
            end in
          let self :=
            if save_reason then
              match check_results self with
              | Some previous =>
                  with_check_results self
                    (Some (merge previous check_result ""))
              | None => with_check_results self (Some check_result)
              end
            else self in
          Some (mkCheckOutcome (result check_result) self checked)
      end
  end.

(** The nodes of a list up to and including the first one whose operating
    system does not meet the requirement. *)
Fixpoint upto_first_failure (requirement_os_type : SetSpace OsType)
    (node_list : list Node) : list Node :=
  match node_list with
  | [] => []
  | node :: rest =>
      if result (os_type_check requirement_os_type
                   (mkSetSpace true (os_mro node)))
      then node :: upto_first_failure requirement_os_type rest
      else [node]
  end.

(** ** Metadata registry *)

(** The two module-level dictionaries.  [_all_cases] is iterated by
    [_add_suite_metadata], so it keeps the insertion order of a Python
    [dict]: an association list with one entry per key. *)
Record Registry := mkRegistry {
  _all_suites : gmap string TestSuiteMetadata;
  _all_cases : list (string * TestCaseMetadata)
}.

(** [d.get(key)] on the ordered dictionary. *)
Fixpoint dict_get {A} (d : list (string * A)) (key : string) : option A :=
  match d with
  | [] => None
  | (k, v) :: rest => if bool_decide (k = key) then Some v else dict_get rest key
  end.

(** [d[key] = value]: an existing key keeps its place. *)
Fixpoint dict_set {A} (d : list (string * A)) (key : string) (value : A)
  : list (string * A) :=
  match d with
  | [] => [(key, value)]
  | (k, v) :: rest =>
      if bool_decide (k = key) then (k, value) :: rest
      else (k, v) :: dict_set rest key value
  end.

(** [s.split(".")[0]]. *)
Fixpoint split_dot_head (s : string) : string :=
  match s with
  | EmptyString => EmptyString
  | String c s' =>
      if Ascii.eqb c (Ascii.ascii_of_nat 46) then EmptyString
      else String c (split_dot_head s')
  end.

(** [_add_case_to_suite]; the suite and the case are the objects stored
    under [suite_key] and [case_key]. *)
Definition _add_case_to_suite (suite_key case_key : string) (reg : Registry)
  : Registry :=
  let all_cases :=
    match dict_get (_all_cases reg) case_key with
    | Some test_case =>
        dict_set (_all_cases reg) case_key
          (mkCaseMetadata (name test_case) (full_name test_case)
             (priority test_case) (description test_case)
             (requirement test_case) (Some suite_key))
    | None => _all_cases reg
    end in
  let all_suites :=
    alter (fun test_suite =>
             mkSuiteMetadata (suite_name test_suite)
               (cases test_suite ++ [case_key]) (tags test_suite)
               (area test_suite) (category test_suite)
               (suite_description test_suite) (suite_requirement test_suite)
               (test_class test_suite))
      suite_key (_all_suites reg) in
  mkRegistry all_suites all_cases.

Definition duplicate_error (key : string) : PyException :=
  mkException [LisaException; ExceptionC]
    ("duplicate test class name: " +:+ key).

(** The key [_add_suite_metadata] registers a descriptor under: its name,
    or the name of the decorated class when the name is empty. *)
Definition suite_key (metadata : TestSuiteMetadata) : option string :=
  if str_truthy (suite_name metadata) then Some (suite_name metadata)
  else test_class metadata.

(** [_add_suite_metadata]: the registry as the call leaves it, and the
    exception raised, if any (the texts of the two descriptors that close
    the message of the duplicate error are left out). *)
Definition _add_suite_metadata (metadata : TestSuiteMetadata)
    (reg : Registry) : Registry * option PyException :=
  match suite_key metadata with
  | None =>
      (reg, Some (mkException [UserException "AttributeError"; ExceptionC]
                    "test_class"))
  | Some key =>
      match _all_suites reg !! key with
      | Some exist_metadata => (reg, Some (duplicate_error key))
      | None =>
          let reg :=
            mkRegistry (<[key := metadata]> (_all_suites reg))
              (_all_cases reg) in
          let class_prefix := key +:+ "." in
          let reg :=
            fold_left
              (fun reg entry =>
                 match dict_get (_all_cases reg) (fst entry) with
                 | Some test_case =>
                     if startswith (full_name test_case) class_prefix
                     then _add_case_to_suite key (fst entry) reg
                     else reg
                 | None => reg
                 end)
              (_all_cases reg) reg in
          (reg, None)
      end
  end.

(** [_add_case_metadata]. *)
Definition _add_case_metadata (metadata : TestCaseMetadata) (reg : Registry)
  : Registry * option PyException :=
  let full_name := full_name metadata in
  match dict_get (_all_cases reg) full_name with
  | Some _ => (reg, Some (duplicate_error full_name))
  | None =>
      let reg :=
        mkRegistry (_all_suites reg)
          (dict_set (_all_cases reg) full_name metadata) in
      let class_name := split_dot_head full_name in
      match _all_suites reg !! class_name with
      | Some test_suite => (_add_case_to_suite class_name full_name reg, None)
      | None => (reg, None)
      end
  end.

(** ** A demonstration suite

    Concrete descriptors, records, hooks and states, on which the engine is
    run in the examples that follow the general statements.  The hooks act
    on a counter of the invocations made so far. *)

Definition demo_requirement : TestCaseRequirement :=
  mkRequirement (Some (mkEnvironmentSpace (fun _ => mkResultReason true [])))
    Connected None (Some (mkSetSpace true ["Linux"])).

Definition demo_suite_metadata : TestSuiteMetadata :=
  mkSuiteMetadata "Demo" [] [] "demo" "functional" "a demonstration suite"
    demo_requirement (Some "Demo").

Definition demo_case (n : string) : TestCaseMetadata :=
  mkCaseMetadata n ("Demo." +:+ n) 2 "" None (Some "Demo").

Definition demo_record (id n : string) (retries : nat) (ignore : bool)
  : TestResult :=
  mkTestResult id (mkRuntimeData (demo_case n) "" 1 retries false ignore "")
    NOTRUN 0 "" None None ∅ None.

Definition demo_ubuntu : Node :=
  mkNode "ubuntu" ["Ubuntu"; "Linux"; "Posix"; "OperatingSystem"; "object"].

Definition demo_windows : Node :=
  mkNode "windows" ["Windows"; "OperatingSystem"; "object"].

Definition demo_freebsd : Node :=
  mkNode "freebsd" ["FreeBSD"; "Posix"; "OperatingSystem"; "object"].

Definition demo_environment (node_list : list Node) : Environment :=
  mkEnvironment true Connected node_list demo_ubuntu (mkEnvCapability 1 1 [])
    {[ "platform" := "ready" ]}.

Definition demo_state : @RunState nat := mkRunState 0%nat 0 [] false [].

Definition generic_error : PyException :=
  mkException [UserException "AssertionError"; ExceptionC] "boom".

Definition skip_signal : PyException :=
  mkException [SkippedException; LisaException; ExceptionC] "no gpu".

Definition notrun_signal : PyException :=
  mkException [NotRunException; LisaException; ExceptionC] "later".

Definition hook_ok : @Hook nat :=
  fun _ w => mkOutcome (S w) 1 false None.

Definition hook_raise (e : PyException) : @Hook nat :=
  fun _ w => mkOutcome (S w) 1 false (Some e).

(** Calls [self.stop()] and returns. *)
Definition hook_stop : @Hook nat :=
  fun _ w => mkOutcome (S w) 1 true None.

(** Raises on the first two invocations and returns from the third on. *)
Definition hook_flaky : @Hook nat :=
  fun _ w =>
    mkOutcome (S w) 1 false
      (if Nat.ltb w 2 then Some generic_error else None).

Definition demo_methods (case_name : string) : @Hook nat :=
  if bool_decide (case_name = "flaky") then hook_flaky
  else if bool_decide (case_name = "halt") then hook_stop
  else if bool_decide (case_name = "broken") then hook_raise generic_error
  else if bool_decide (case_name = "later") then hook_raise notrun_signal
  else hook_ok.

(** A suite whose hooks all return. *)
Definition demo_suite : @TestSuite nat :=
  mkTestSuite demo_suite_metadata hook_ok hook_ok hook_ok hook_ok demo_methods.

(** A suite whose [before_suite] raises. *)
Definition broken_setup_suite : @TestSuite nat :=
  mkTestSuite demo_suite_metadata (hook_raise generic_error) hook_ok hook_ok
    hook_ok demo_methods.

(** A suite whose [before_suite] raises and whose [after_case] calls
    [self.stop()]. *)
Definition broken_setup_stopping_suite : @TestSuite nat :=
  mkTestSuite demo_suite_metadata (hook_raise generic_error) hook_ok hook_ok
    hook_stop demo_methods.

(** A suite whose [before_suite] raises and whose [after_suite] calls
    [self.stop()]. *)
Definition broken_setup_late_stop_suite : @TestSuite nat :=
  mkTestSuite demo_suite_metadata (hook_raise generic_error) hook_stop hook_ok
    hook_ok demo_methods.

(** A suite whose [after_case] always raises. *)
Definition broken_cleanup_suite : @TestSuite nat :=
  mkTestSuite demo_suite_metadata hook_ok hook_ok hook_ok
    (hook_raise generic_error) demo_methods.

Definition demo_registry : Registry :=
  mkRegistry {[ "Demo" := demo_suite_metadata ]}
    [("Demo.hello", demo_case "hello")].

Definition demo_suites : gmap string TestSuiteMetadata :=
  {[ "Demo" := demo_suite_metadata ]}.

Definition two_cases : list TestResult :=
  [demo_record "1" "hello" 0 false; demo_record "2" "halt" 0 false].

Definition demo_kwargs : Kwargs :=
  suite_kwargs (mark_used (demo_environment [demo_ubuntu])).

(** A record that is already RUNNING. *)
Definition running_record : TestResult :=
  with_status (demo_record "1" "hello" 0 false) RUNNING.

(** ** Further observations on runs, checks and the registry *)

(** A result message that is about one of the records named by [ids] and
    that respects the cap on its text. *)
Definition reports_on (ids : list string) (m : TestResultMessage) : Prop :=
  In (msg_id_ m) ids
  /\ msg_type m = "TestResult"
  /\ (String.length (msg_message m) <= MESSAGE_CAP)%nat.

(** Every node of the list meets the operating-system requirement. *)
Definition all_nodes_pass (requirement_os_type : SetSpace OsType)
    (node_list : list Node) : bool :=
  forallb (fun node =>
             result (os_type_check requirement_os_type
                       (mkSetSpace true (os_mro node))))
    node_list.

(** The case descriptor [c] once it is attached to the suite stored under
    [key], and the suite descriptor [s] with [l] as its list of cases. *)
Definition attach_case (key : string) (c : TestCaseMetadata)
  : TestCaseMetadata :=
  mkCaseMetadata (name c) (full_name c) (priority c) (description c)
    (requirement c) (Some key).

Definition with_cases (s : TestSuiteMetadata) (l : list string)
  : TestSuiteMetadata :=
  mkSuiteMetadata (suite_name s) l (tags s) (area s) (category s)
    (suite_description s) (suite_requirement s) (test_class s).

(** No ["."] occurs in [s]. *)
Fixpoint dot_free (s : string) : bool :=
  match s with
  | EmptyString => true
  | String c s' =>
      if Ascii.eqb c (Ascii.ascii_of_nat 46) then false else dot_free s'
  end.

(** The registry as a pair of Python dictionaries has it: one entry per
    fully-qualified name, each case stored under its own fully-qualified
    name and each suite under its own key. *)
Definition registry_wf (reg : Registry) : Prop :=
  NoDup (map fst (_all_cases reg))
  /\ (forall fn c, In (fn, c) (_all_cases reg) -> full_name c = fn)
  /\ (forall key s, _all_suites reg !! key = Some s -> suite_key s = Some key).

(** The two collections agree: the suite a case refers to is registered and
    lists the case, and every case a suite lists is registered. *)
Definition registry_consistent (reg : Registry) : Prop :=
  (forall fn c key,
     In (fn, c) (_all_cases reg) -> suite c = Some key ->
     exists s, _all_suites reg !! key = Some s /\ In fn (cases s))
  /\ (forall key s fn,
        _all_suites reg !! key = Some s -> In fn (cases s) ->
        is_Some (dict_get (_all_cases reg) fn)).

(** [self.test_class = test_class] and, for a descriptor without a name,
    [self.name = test_class.__name__]: the two assignments that open
    [TestSuiteMetadata.__call__], for the class named [class_name]. *)
Definition decorate_suite (self : TestSuiteMetadata) (class_name : string)
  : TestSuiteMetadata :=
  let self :=
    mkSuiteMetadata (suite_name self) (cases self) (tags self) (area self)
      (category self) (suite_description self) (suite_requirement self)
      (Some class_name) in
  if negb (str_truthy (suite_name self)) then
    mkSuiteMetadata class_name (cases self) (tags self) (area self)
      (category self) (suite_description self) (suite_requirement self)
      (test_class self)
  else self.

(** [TestSuiteMetadata.__call__]: the decorator applied to the class named
    [class_name].  The descriptor is an object: [stored_under] tells
    whether [_all_suites] already holds this very object, and under which
    key; what the call assigns to the object is then seen through the
    dictionary at once, and so are the cases that [_add_suite_metadata]
    appends to it.  The result is the object as the call leaves it, the
    registry, and the exception raised, if any.  An object that the
    dictionary ends up holding under two keys shows as two equal
    entries. *)
Definition TestSuiteMetadata_call (self : TestSuiteMetadata)
    (stored_under : option string) (class_name : string) (reg : Registry)
  : TestSuiteMetadata * (Registry * option PyException) :=
  let self := decorate_suite self class_name in
  let seen (self : TestSuiteMetadata) (reg : Registry) : Registry :=
    match stored_under with
    | Some key =>
        mkRegistry (<[key := self]> (_all_suites reg)) (_all_cases reg)
    | None => reg
    end in
  let '(reg, raised) := _add_suite_metadata self (seen self reg) in
  match raised, suite_key self with
  | None, Some key =>
      let self := default self (_all_suites reg !! key) in
      (self, (seen self reg, None))
  | _, _ => (self, (reg, raised))
  end.

(** What the registration of the suite [key] does to an entry of
    [_all_cases], and the names it collects from the dictionary. *)
Definition attach_matching (key : string) (entry : string * TestCaseMetadata)
  : string * TestCaseMetadata :=
  if startswith (fst entry) (key +:+ ".")
  then (fst entry, attach_case key (snd entry))
  else entry.

Definition matching_names (key : string)
    (d : list (string * TestCaseMetadata)) : list string :=
  List.filter (fun fn => startswith fn (key +:+ ".")) (map fst d).

(** *** More of the demonstration suite *)

(** A suite whose [before_case] always raises. *)
Definition broken_before_case_suite : @TestSuite nat :=
  mkTestSuite demo_suite_metadata hook_ok hook_ok (hook_raise generic_error)
    hook_ok demo_methods.

(** A state in which [stop] has been called. *)
Definition stopped_state : @RunState nat := mkRunState 0%nat 0 [] true [].

(** A case descriptor as its constructor leaves it, bound to no suite. *)
Definition fresh_case (class_name n : string) : TestCaseMetadata :=
  mkCaseMetadata n (class_name +:+ "." +:+ n) 2 "" None None.

(** A registry that holds one case and waits for its suite. *)
Definition waiting_registry : Registry :=
  mkRegistry ∅ [("Demo.hello", fresh_case "Demo" "hello")].

(** * Variables of a runbook: [lisa/variable.py] *)

(** Runbook data as the YAML loader hands it over: strings, the other
    scalars, lists and dictionaries with string keys. *)
#[warnings="-register-all"] Inductive PyData :=
| PStr (s : string)
| PInt (z : Z)
| PBool (b : bool)
| PNone
| PList (items : list PyData)
| PDict (entries : list (string * PyData)).

Record VariableEntry := mkVariableEntry {
  data : PyData;
  is_used : bool
}.

(** [entry.is_used = True]. *)
Definition set_used (entry : VariableEntry) : VariableEntry :=
  mkVariableEntry (data entry) true.

(** The slice [s[n:]] and the slice [s[:-1]]. *)
Fixpoint str_drop (n : nat) (s : string) : string :=
  match n, s with
  | S n', String _ s' => str_drop n' s'
  | _, _ => s
  end.

Fixpoint str_drop_last (s : string) : string :=
  match s with
  | EmptyString => EmptyString
  | String c EmptyString => EmptyString
  | String c s' => String c (str_drop_last s')
  end.

(** [variable_name[2:-1]]. *)
Definition variable_name_of (matched : string) : string :=
  str_drop_last (str_drop 2 matched).

Definition char_dollar : Ascii.ascii := Ascii.ascii_of_nat 36.
Definition char_open : Ascii.ascii := Ascii.ascii_of_nat 40.
Definition char_close : Ascii.ascii := Ascii.ascii_of_nat 41.
Definition char_newline : Ascii.ascii := Ascii.ascii_of_nat 10.
Definition char_colon : Ascii.ascii := Ascii.ascii_of_nat 58.

(** The regular expression [_VARIABLE_PATTERN], [(\$\(.+?\))]: a dollar
    sign, an opening parenthesis, one character or more, none of them a
    line feed and as few as possible, and a closing parenthesis.

    [close_at s] is the number of characters of [s] before the closing
    parenthesis that ends the match, for [s] the text that follows the first
    character of the name: the lazy quantifier stops at the first closing
    parenthesis, and a line feed met before it lets the match fail. *)
Fixpoint close_at (s : string) : option nat :=
  match s with
  | EmptyString => None
  | String c s' =>
      if Ascii.eqb c char_close then Some 0%nat
      else if Ascii.eqb c char_newline then None
      else S <$> close_at s'
  end.

(** The length of the match of the pattern at the start of [s], if there is
    one. *)
Definition match_length (s : string) : option nat :=
  match s with
  | String d (String o (String first rest)) =>
      if Ascii.eqb d char_dollar && Ascii.eqb o char_open
         && negb (Ascii.eqb first char_newline)
      then (fun n => (n + 4)%nat) <$> close_at rest
      else None
  | _ => None
  end.

(** [_VARIABLE_PATTERN.findall(s)]: the matches from left to right, none
    overlapping another; [skip] counts the characters of the current match
    that are still to be passed over. *)
Fixpoint findall_from (s : string) (skip : nat) : list string :=
  match s with
  | EmptyString => []
  | String c s' =>
      match skip with
      | S skip' => findall_from s' skip'
      | O =>
          match match_length s with
          | Some n => str_slice_to s n :: findall_from s' (n - 1)
          | None => findall_from s' 0
          end
      end
  end.

Definition findall (s : string) : list string := findall_from s 0.

(** [_VARIABLE_PATTERN.sub(repl, s)] for a function [repl] of the matched
    text that may raise ([None]). *)
Fixpoint sub_from (repl : string -> option string) (s : string) (skip : nat)
  : option string :=
  match s with
  | EmptyString => Some EmptyString
  | String c s' =>
      match skip with
      | S skip' => sub_from repl s' skip'
      | O =>
          match match_length s with
          | Some n =>
              match repl (str_slice_to s n), sub_from repl s' (n - 1) with
              | Some replacement, Some rest => Some (replacement +:+ rest)
              | _, _ => None
              end
          | None => String c <$> sub_from repl s' 0
          end
      end
  end.

Definition pattern_sub (repl : string -> option string) (s : string)
  : option string :=
  sub_from repl s 0.

(** [s.split(":", 1)], as far as the unpacking into two names needs it:
    the parts before and after the first colon, when there is one. *)
Fixpoint split_colon (s : string) : option (string * string) :=
  match s with
  | EmptyString => None
  | String c s' =>
      if Ascii.eqb c char_colon then Some (EmptyString, s')
      else match split_colon s' with
           | Some (key, value) => Some (String c key, value)
           | None => None
           end
  end.

(** The key under which [replace_variables] files the variable [key]. *)
Definition wrap_name (key : string) : string := "$(" +:+ key +:+ ")".

Definition cannot_find_variable (matched : string) : PyException :=
  mkException [LisaException; ExceptionC]
    ("cannot find variable '" +:+ variable_name_of matched
       +:+ "', make sure its value filled in runbook, "
       +:+ "command line or environment variables.").

Section Variables.

(** [str.lower] and the builtin [str], and the mask patterns that the
    secret module knows by name. *)
Variable lower : string -> string.
Variable py_str : PyData -> string.
Context {SecretPattern : Type}.
Variable patterns : gmap string SecretPattern.

(** The secrets registered with [secret.add_secret], in order, each with
    its mask. *)
Definition Secrets := list (PyData * option SecretPattern).

(** [_add_variable]: the dictionary and the secrets as the call leaves
    them, and the exception raised, if any. *)
Definition _add_variable (key : string) (value : PyData)
    (current_variables : gmap string VariableEntry) (is_secret : bool)
    (mask_pattern_name : string) (secrets : Secrets)
  : gmap string VariableEntry * Secrets * option PyException :=
  let key := lower key in
  let current_variables :=
    <[key := mkVariableEntry value false]> current_variables in
  if is_secret then
    if str_truthy mask_pattern_name then
      match patterns !! mask_pattern_name with
      | None =>
          (current_variables, secrets,
           Some (mkException [LisaException; ExceptionC]
                   ("cannot find mask pattern: " +:+ mask_pattern_name)))
      | Some pattern =>
          (current_variables, secrets ++ [(value, Some pattern)], None)
      end
    else (current_variables, secrets ++ [(value, None)], None)
  else (current_variables, secrets, None).

Definition unpack_error : PyException :=
  mkException [UserException "ValueError"; ExceptionC]
    "not enough values to unpack (expected 2, got 1)".

(** [_load_from_pairs] for a list of pairs; the loop over [raw_pairs],
    started with the dictionary [results]. *)
Fixpoint load_pairs_loop (raw_pairs : list string)
    (results : gmap string VariableEntry) (secrets : Secrets)
  : gmap string VariableEntry * Secrets * option PyException :=
  match raw_pairs with
  | [] => (results, secrets, None)
  | raw_pair :: rest =>
      let is_secret := startswith (lower raw_pair) "s:" in
      let raw_pair := if is_secret then str_drop 2 raw_pair else raw_pair in
      match split_colon raw_pair with
      | None => (results, secrets, Some unpack_error)
      | Some (key, value) =>
          let '(results, secrets, raised) :=
            _add_variable key (PStr value) results is_secret "" secrets in
          match raised with
          | Some e => (results, secrets, Some e)
          | None => load_pairs_loop rest results secrets
          end
      end
  end.

(** [_load_from_pairs]. *)
Definition _load_from_pairs (raw_pairs : option (list string))
    (secrets : Secrets)
  : gmap string VariableEntry * Secrets * option PyException :=
  match raw_pairs with
  | None => (∅, secrets, None)
  | Some raw_pairs => load_pairs_loop raw_pairs ∅ secrets
  end.

(** [_load_from_env]: the loop over [os.environ], given as the list of its
    names with their values. *)
Fixpoint load_env_loop (environ : list (string * string))
    (results : gmap string VariableEntry) (secrets : Secrets)
  : gmap string VariableEntry * Secrets * option PyException :=
  match environ with
  | [] => (results, secrets, None)
  | (env_name, value) :: rest =>
      let '(is_lisa_variable, is_secret, name) :=
        if startswith env_name "LISA_" then
          (true, false, str_drop 5 env_name)
        else if startswith env_name "S_LISA_" then
          (true, true, str_drop 7 env_name)
        else (false, false, EmptyString) in
      if is_lisa_variable then
        let '(results, secrets, raised) :=
          _add_variable name (PStr value) results is_secret "" secrets in
        match raised with
        | Some e => (results, secrets, Some e)
        | None => load_env_loop rest results secrets
        end
      else load_env_loop rest results secrets
  end.

Definition _load_from_env (environ : list (string * string))
    (secrets : Secrets)
  : gmap string VariableEntry * Secrets * option PyException :=
  load_env_loop environ ∅ secrets.

(** [_get_undefined_variables]. *)
Definition _get_undefined_variables (value : string)
    (variables : gmap string VariableEntry) : list string :=
  List.filter
    (fun variable_name =>
       negb (bool_decide
               (is_Some (variables !! lower (variable_name_of variable_name)))))
    (findall value).

(** The loop of [_replace_variables] over the matches of a string: every
    variable met is marked as used; the first one that is not defined
    raises. *)
Fixpoint mark_matches (matches : list string)
    (variables : gmap string VariableEntry)
  : gmap string VariableEntry * option PyException :=
  match matches with
  | [] => (variables, None)
  | variable_name :: rest =>
      let lower_variable_name := lower variable_name in
      match variables !! lower_variable_name with
      | Some entry =>
          mark_matches rest
            (<[lower_variable_name := set_used entry]> variables)
      | None => (variables, Some (cannot_find_variable variable_name))
      end
  end.

(** The [KeyError] of a failed look-up in the dictionary of variables; its
    text is left empty. *)
Definition key_error : PyException :=
  mkException [UserException "KeyError"; ExceptionC] EmptyString.

(** [_replace_variables]: the data as the call leaves it (containers are
    updated in place, so what was replaced before an exception stays
    replaced), the dictionary of variables with its marks, and the
    exception raised, if any.  The data is a tree: no list or dictionary
    is reached twice, and none is shared with the value of a variable. *)
Fixpoint _replace_variables (input : PyData)
    (variables : gmap string VariableEntry) {struct input}
  : PyData * gmap string VariableEntry * option PyException :=
  match input with
  | PDict entries =>
      let fix over_items (entries : list (string * PyData))
            (variables : gmap string VariableEntry) :=
        match entries with
        | [] => ([], variables, None)
        | (key, value) :: rest =>
            let '(value, variables, raised) :=
              _replace_variables value variables in
            match raised with
            | Some e => ((key, value) :: rest, variables, Some e)
            | None =>
                let '(rest, variables, raised) := over_items rest variables in
                ((key, value) :: rest, variables, raised)
            end
        end in
      let '(entries, variables, raised) := over_items entries variables in
      (PDict entries, variables, raised)
  | PList items =>
      let fix over_list (items : list PyData)
            (variables : gmap string VariableEntry) :=
        match items with
        | [] => ([], variables, None)
        | item :: rest =>
            let '(item, variables, raised) :=
              _replace_variables item variables in
            match raised with
            | Some e => (item :: rest, variables, Some e)
            | None =>
                let '(rest, variables, raised) := over_list rest variables in
                (item :: rest, variables, raised)
            end
        end in
      let '(items, variables, raised) := over_list items variables in
      (PList items, variables, raised)
  | PStr s =>
      let lower_name := lower s in
      match variables !! lower_name with
      | Some entry =>
          (data entry, <[lower_name := set_used entry]> variables, None)
      | None =>
          match findall s with
          | [] => (PStr s, variables, None)
          | matches =>
              let '(variables, raised) := mark_matches matches variables in
              match raised with
              | Some e => (PStr s, variables, Some e)
              | None =>
                  match pattern_sub
                          (fun matched =>
                             (fun entry => py_str (data entry))
                               <$> variables !! lower matched)
                          s with
                  | Some replaced => (PStr replaced, variables, None)
                  | None => (PStr s, variables, Some key_error)
                  end
              end
          end
      end
  | other => (other, variables, None)
  end.

(** [replace_variables]: the variables are filed under their wrapped names
    for the call of [_replace_variables]; the entries are shared with the
    dictionary of the caller, which sees their marks afterwards. *)
Definition replace_variables (input : PyData)
    (variables : gmap string VariableEntry)
  : PyData * gmap string VariableEntry * option PyException :=
  let new_variables : gmap string VariableEntry :=
    kmap wrap_name variables in
  let '(output, new_variables, raised) :=
    _replace_variables input new_variables in
  (output,
   map_imap (fun key _ => new_variables !! wrap_name key) variables,
   raised).

End Variables.

(** * The Azure agent tool: [lisa/sut_orchestrator/azure/tools.py] *)

Record ExecutableResult := mkExecutableResult {
  stdout : string;
  exit_code : Z
}.

Section Waagent.

(** [Tool.run] on the node of the tool: the command of the tool and its
    parameters give a result and leave the node in a new state.
    [version_matches] stands for the matches that [find_patterns_in_lines]
    finds for the version pattern. *)
Context {Machine : Type}.
Variable run : string -> string -> Machine -> ExecutableResult * Machine.
Variable version_matches : string -> list string.

(** [Waagent.get_version], from the command [_command] the tool has: the
    version, the command the tool has afterwards, the command lines that
    were run, and the node. *)
Definition get_version (_command : string) (node : Machine)
  : string * string * list string * Machine :=
  let '(result, node) := run _command "-version" node in
  let ran := [_command] in
  let '(result, _command, ran, node) :=
    if negb (Z.eqb (exit_code result) 0) then
      let _command := "/usr/sbin/waagent" in
      let '(result, node) := run _command "-version" node in
      (result, _command, ran ++ [_command], node)
    else (result, _command, ran, node) in
  let '(result, _command, ran, node) :=
    if negb (Z.eqb (exit_code result) 0) then
      let _command := "python3 /usr/sbin/waagent" in
      let '(result, node) := run _command "-version" node in
      (result, _command, ran ++ [_command], node)
    else (result, _command, ran, node) in
  let found_version := version_matches (stdout result) in
  (match found_version with
   | version :: _ => version
   | [] => EmptyString
   end, _command, ran, node).

End Waagent.

(** ** What the loaders of variables let one observe *)

(** A definition of a variable as a loader reads it: whether it is a
    secret, its name as written, and its value. *)
Definition VariableDef : Type := bool * string * string.

(** What [_load_from_pairs] reads from one pair, if the pair has its
    colon. *)
Definition parse_pair (lower : string -> string) (raw_pair : string)
  : option VariableDef :=
  let is_secret := startswith (lower raw_pair) "s:" in
  match split_colon (if is_secret then str_drop 2 raw_pair else raw_pair) with
  | Some (key, value) => Some (is_secret, key, value)
  | None => None
  end.

(** What [_load_from_env] reads from one variable of the environment, if
    its name has one of the two prefixes. *)
Definition env_variable (item : string * string) : option VariableDef :=
  if startswith item.1 "LISA_" then Some (false, str_drop 5 item.1, item.2)
  else if startswith item.1 "S_LISA_" then Some (true, str_drop 7 item.1, item.2)
  else None.

(** The dictionary after the definitions [defs] were added in order. *)
Definition add_all (lower : string -> string) (defs : list VariableDef)
    (results : gmap string VariableEntry) : gmap string VariableEntry :=
  foldl (fun results def =>
           <[lower def.1.2 := mkVariableEntry (PStr def.2) false]> results)
        results defs.

(** The secrets among the definitions, as [secret.add_secret] receives
    them from a loader that names no mask. *)
Definition secrets_of {SecretPattern : Type} (defs : list VariableDef)
  : list (PyData * option SecretPattern) :=
  map (fun def : VariableDef => (PStr def.2, None))
      (List.filter (fun def : VariableDef => def.1.1) defs).

(** The names a string refers to, in lower case. *)
Definition references (lower : string -> string) (s : string) : list string :=
  map (fun matched => lower (variable_name_of matched)) (findall s).

(** An entry, marked as used under a condition. *)
Definition mark_if (condition : bool) (entry : VariableEntry) : VariableEntry :=
  if condition then set_used entry else entry.

(** Lower case for the letters of ASCII, the other characters unchanged:
    [str.lower] on the strings of the examples. *)
Definition ascii_lower (c : Ascii.ascii) : Ascii.ascii :=
  let n := Ascii.nat_of_ascii c in
  if (65 <=? n)%nat && (n <=? 90)%nat then Ascii.ascii_of_nat (n + 32) else c.

Fixpoint lower_ascii (s : string) : string :=
  match s with
  | EmptyString => EmptyString
  | String c s' => String (ascii_lower c) (lower_ascii s')
  end.

(** The candidates of [Waagent.get_version], from the command the tool
    has. *)
Definition waagent_candidates (_command : string) : list string :=
  [_command; "/usr/sbin/waagent"; "python3 /usr/sbin/waagent"].

(** The loops of [_replace_variables] over the items of a list and over the
    values of a dictionary, by name. *)
Section ReplaceLoops.

Variable lower : string -> string.
Variable py_str : PyData -> string.

Fixpoint replace_in_list
    (items : list PyData) (variables : gmap string VariableEntry)
  : list PyData * gmap string VariableEntry * option PyException :=
  match items with
  | [] => ([], variables, None)
  | item :: rest =>
      let '(item, variables, raised) :=
        _replace_variables lower py_str item variables in
      match raised with
      | Some e => (item :: rest, variables, Some e)
      | None =>
          let '(rest, variables, raised) :=
            replace_in_list rest variables in
          (item :: rest, variables, raised)
      end
  end.

Fixpoint replace_in_dict
    (entries : list (string * PyData)) (variables : gmap string VariableEntry)
  : list (string * PyData) * gmap string VariableEntry * option PyException :=
  match entries with
  | [] => ([], variables, None)
  | (key, value) :: rest =>
      let '(value, variables, raised) :=
        _replace_variables lower py_str value variables in
      match raised with
      | Some e => ((key, value) :: rest, variables, Some e)
      | None =>
          let '(rest, variables, raised) :=
            replace_in_dict rest variables in
          ((key, value) :: rest, variables, raised)
      end
  end.

End ReplaceLoops.

(** The dictionary [after] has the keys of [before] and, under each, the
    same value; a mark that was set is still set. *)
Definition only_marks (before after : gmap string VariableEntry) : Prop :=
  forall key,
    match before !! key, after !! key with
    | Some entry, Some entry' =>
        data entry' = data entry /\ (is_used entry = true -> is_used entry' = true)
    | None, None => True
    | _, _ => False
    end.

(** ** Variables and a node for the examples *)

(** [str] on the values of the examples, whose variables all hold
    strings. *)
Definition demo_str (value : PyData) : string :=
  match value with
  | PStr s => s
  | _ => EmptyString
  end.

Definition demo_variables : gmap string VariableEntry :=
  {[ "location" := mkVariableEntry (PStr "westus2") false ]}.

Definition no_patterns : gmap string unit := ∅.

(** A node on which only the agent under [/usr/sbin] answers; its state
    counts the commands it has run. *)
Definition demo_run (command parameters : string) (node : nat)
  : ExecutableResult * nat :=
  (if String.eqb command "/usr/sbin/waagent"
   then mkExecutableResult "WALinuxAgent-2.2.45" 0
   else mkExecutableResult "command not found" 127,
   S node).

Definition demo_version_matches (text : string) : list string :=
  if String.eqb text "WALinuxAgent-2.2.45" then ["2.2.45"] else [].

(** * Properties *)

(** ** Strings *)

Lemma str_slice_to_length (s : string) (n : nat) :
  (String.length (str_slice_to s n) <= n)%nat.
Proof.
  revert n; induction s as [|c s IH]; intros [|n]; simpl; try lia.
  specialize (IH n); lia.
Qed.

(** ** The record and the sink *)

Section RecordProperties.

Context {W : Type}.

Implicit Types (st : @RunState W) (self : TestResult).

Lemma send_result_message_eq self st :
  _send_result_message self st =
    (sent self (clock st),
     emit st (result_message_of (sent self (clock st)))).
Proof.
  unfold _send_result_message, sent, merged_information, result_message_of,
    bind, ret, notify, emit, timer_elapsed, dict_update.
  destruct self as [i rd s e m env cr info t]; simpl.
  destruct t as [t0|], env as [env|]; simpl;
    rewrite ?(right_id_L ∅ (∪)); destruct m; reflexivity.
Qed.

Lemma sent_status self now : status (sent self now) = status self.
Proof. by destruct self as [? ? ? ? ? ? ? ? [?|]]. Qed.

Lemma sent_message self now : message (sent self now) = message self.
Proof. by destruct self as [? ? ? ? ? ? ? ? [?|]]. Qed.

Lemma sent_id self now : id_ (sent self now) = id_ self.
Proof. by destruct self as [? ? ? ? ? ? ? ? [?|]]. Qed.

Lemma sent_runtime_data self now :
  runtime_data (sent self now) = runtime_data self.
Proof. by destruct self as [? ? ? ? ? ? ? ? [?|]]. Qed.

Lemma sent_timer self now : _timer (sent self now) = _timer self.
Proof. by destruct self as [? ? ? ? ? ? ? ? [?|]]. Qed.

Lemma sent_information self now :
  information (sent self now) = merged_information self.
Proof. by destruct self as [? ? ? ? ? ? ? ? [?|]]. Qed.

Lemma sent_elapsed self now :
  elapsed (sent self now) =
    match _timer self with Some t0 => now - t0 | None => elapsed self end.
Proof. by destruct self as [? ? ? ? ? ? ? ? [?|]]. Qed.

Lemma transitioned_status self s text now :
  status (transitioned self s text now) = s.
Proof.
  unfold transitioned. rewrite sent_status. case_bool_decide; reflexivity.
Qed.

Lemma transitioned_message self s text now :
  message (transitioned self s text now) = message_log (message self) text.
Proof.
  unfold transitioned. rewrite sent_message. case_bool_decide; reflexivity.
Qed.

Lemma transitioned_id self s text now :
  id_ (transitioned self s text now) = id_ self.
Proof.
  unfold transitioned. rewrite sent_id. case_bool_decide; reflexivity.
Qed.

Lemma transitioned_runtime_data self s text now :
  runtime_data (transitioned self s text now) = runtime_data self.
Proof.
  unfold transitioned. rewrite sent_runtime_data.
  case_bool_decide; reflexivity.
Qed.

(** [set_status] with a [str] argument, in closed form. *)
Lemma set_status_str self s text st :
  set_status self s (MsgStr text) st =
    if bool_decide (status self = s)
    then (with_message self (message_log (message self) text), st)
    else (transitioned self s text (clock st),
          emit st (result_message_of (transitioned self s text (clock st)))).
Proof.
  unfold set_status, transitioned, bind, ret, create_timer.
  cbn [MessageArg_truthy]. unfold message_log.
  destruct self as [i rd s0 e m env cr info t].
  destruct (str_truthy text) eqn:Ht; cbn [message status with_message].
  - replace (str_join newline (if str_truthy m then m :: [text] else [text]))
      with (if str_truthy m then m +:+ newline +:+ text else text)
      by (destruct (str_truthy m); reflexivity).
    repeat case_bool_decide; subst; try congruence;
      rewrite ?send_result_message_eq; reflexivity.
  - repeat case_bool_decide; subst; try congruence;
      rewrite ?send_result_message_eq; reflexivity.
Qed.

Lemma set_status_message self s text st :
  message (set_status self s (MsgStr text) st).1
  = message_log (message self) text.
Proof.
  rewrite set_status_str. case_bool_decide; cbn [fst].
  - reflexivity.
  - apply transitioned_message.
Qed.

Lemma set_status_status self s arg st :
  status (set_status self s arg st).1 = s.
Proof.
  unfold set_status, bind, ret, create_timer.
  set (self1 := if MessageArg_truthy arg then _ else self).
  case_bool_decide as Hs.
  - case_bool_decide; rewrite send_result_message_eq; cbn [fst];
      rewrite sent_status; reflexivity.
  - cbn [fst]. destruct (decide (status self1 = s)); [done | contradiction].
Qed.

(** C4 (amended): a call of set_status emits a result message exactly when
    the new status differs from the current one; a call that leaves the
    status as it is emits nothing.  The message emitted carries the record's
    id, status and elapsed time (read from the timer when there is one), the
    message text cut at 2048 characters, and the information map into which
    the information of the environment has been merged. *)
Theorem set_status_emits_on_transition self new_status arg st :
  let r := set_status self new_status arg st in
  status r.1 = new_status
  /\ (status self = new_status -> sink r.2 = sink st)
  /\ (status self <> new_status ->
      sink r.2 = sink st ++ [result_message_of r.1]
      /\ msg_id_ (result_message_of r.1) = id_ self
      /\ msg_status (result_message_of r.1) = new_status
      /\ msg_elapsed (result_message_of r.1)
         = match _timer r.1 with
           | Some t0 => clock st - t0
           | None => elapsed self
           end
      /\ msg_message (result_message_of r.1)
         = str_slice_to (message r.1) 2048
      /\ (String.length (msg_message (result_message_of r.1)) <= 2048)%nat
      /\ msg_information (result_message_of r.1) = merged_information self).
Proof.
  intros r. split; [apply set_status_status|].
  subst r. unfold set_status, bind, ret, create_timer.
  set (self1 := if MessageArg_truthy arg then _ else self).
  assert (Hst : status self1 = status self)
    by (subst self1; destruct (MessageArg_truthy arg); reflexivity).
  assert (Hid : id_ self1 = id_ self)
    by (subst self1; destruct (MessageArg_truthy arg); reflexivity).
  assert (Hel : elapsed self1 = elapsed self)
    by (subst self1; destruct (MessageArg_truthy arg); reflexivity).
  assert (Hinf : merged_information self1 = merged_information self)
    by (subst self1; destruct (MessageArg_truthy arg); reflexivity).
  assert (Htm : _timer self1 = _timer self)
    by (subst self1; destruct (MessageArg_truthy arg); reflexivity).
  clearbody self1. split.
  - intros Heq. rewrite bool_decide_eq_false_2 by (rewrite Hst; auto).
    reflexivity.
  - intros Hne. rewrite bool_decide_eq_true_2 by (rewrite Hst; auto).
    case_bool_decide as Hrun; rewrite send_result_message_eq; cbn [fst snd];
      (split; [reflexivity|]);
      unfold result_message_of at 1 2 3 4 5 6;
      cbn [msg_id_ msg_status msg_elapsed msg_message msg_information];
      rewrite sent_id, sent_status, sent_elapsed, sent_timer,
        sent_information, sent_message.
    all: unfold merged_information in *;
      cbn [id_ status _timer elapsed message environment information
           with_timer with_status];
      repeat split;
      first [ exact Hid | exact Hinf | apply str_slice_to_length
            | rewrite Htm; destruct (_timer self); [reflexivity | exact Hel]
            | reflexivity ].
Qed.

(** C10: creating a case run record sends exactly one result message, and
    that message carries the initial status NOTRUN (with the id of the
    record, no elapsed time and an empty text); nothing else of the state
    moves. *)
Theorem new_TestResult_emits_notrun (id : string) (rd : TestCaseRuntimeData)
    st :
  let r := new_TestResult id rd st in
  status r.1 = NOTRUN
  /\ r.2 = emit st (result_message_of r.1)
  /\ sink r.2 = sink st ++ [result_message_of r.1]
  /\ msg_status (result_message_of r.1) = NOTRUN
  /\ msg_id_ (result_message_of r.1) = id
  /\ msg_elapsed (result_message_of r.1) = 0
  /\ msg_message (result_message_of r.1) = "".
Proof.
  intros r; subst r. unfold new_TestResult, __post_init__.
  rewrite send_result_message_eq. cbn [fst snd]. repeat split.
Qed.

(** C1: handle_exception classifies by fixed precedence.  A skip signal
    gives SKIPPED and adds the text (phase, a space, when a phase is given)
    skipped: detail to the message log; otherwise a keep-not-run signal
    gives NOTRUN; otherwise a pass-with-warning signal gives PASSED and adds
    the warning text; any other exception gives ATTEMPTED when the record
    has ignore_failure set, hence not FAILED, and FAILED when it has not. *)
Theorem handle_exception_classifies self (e : PyException) (phase : string)
    st :
  let r := (handle_exception self e phase st).1 in
  let prefix := if str_truthy phase then phase +:+ " " else "" in
  (isinstance e SkippedException = true ->
     status r = SKIPPED
     /\ message r
        = message_log (message self) (prefix +:+ "skipped: " +:+ exc_str e))
  /\ (isinstance e SkippedException = false ->
      isinstance e NotRunException = true ->
      status r = NOTRUN)
  /\ (isinstance e SkippedException = false ->
      isinstance e NotRunException = false ->
      isinstance e PassedException = true ->
      status r = PASSED
      /\ message r
         = message_log (message self) (prefix +:+ "warning: " +:+ exc_str e))
  /\ (isinstance e SkippedException = false ->
      isinstance e NotRunException = false ->
      isinstance e PassedException = false ->
      (ignore_failure (runtime_data self) = true ->
         status r = ATTEMPTED /\ status r <> FAILED)
      /\ (ignore_failure (runtime_data self) = false -> status r = FAILED)).
Proof.
  intros r prefix. subst r. unfold handle_exception.
  assert (Hp : (if str_truthy phase then phase +:+ " " else phase) = prefix)
    by (subst prefix; destruct phase; reflexivity).
  rewrite Hp. clearbody prefix.
  repeat split; intros; repeat match goal with
    | H : isinstance _ _ = _ |- _ => rewrite H
    | H : ignore_failure _ = _ |- _ => rewrite H
    end; rewrite ?set_status_status, ?set_status_message; try done.
Qed.

End RecordProperties.

(** ** Hooks and bounded retry *)

Section OrchestratorProperties.

Context {W : Type}.

Implicit Types (st : @RunState W) (h : @Hook W) (kw : Kwargs)
  (c : HookCall) (case_result : TestResult).

Lemma call_hook_eq c h kw st :
  call_hook c h kw st =
    (hk_raised (h kw (world st)),
     mkRunState (hk_world (h kw (world st)))
       (clock st + hk_ticks (h kw (world st))) (sink st)
       (_should_stop st || hk_stop (h kw (world st))) (calls st ++ [c])).
Proof.
  unfold call_hook, bind, ret, stop.
  destruct (hk_stop (h kw (world st))); cbn;
    rewrite ?orb_true_r, ?orb_false_r; reflexivity.
Qed.

Lemma retry_call_S (f : @M W (option PyException)) (tries : nat) st :
  retry_call f (S tries) st =
    let '(r, st1) := f st in
    match r with
    | None => (None, st1)
    | Some e =>
        match tries with
        | O => (Some e, st1)
        | S _ => retry_call f tries st1
        end
    end.
Proof.
  cbn [retry_call]. unfold bind, ret.
  destruct (f st) as [[e|] st1]; [destruct tries|]; reflexivity.
Qed.

(** A retried hook does not write to the sink, never clears the stop flag,
    and is invoked at least once and at most [tries] times. *)
Lemma retry_call_frame c h kw (tries : nat) :
  forall st res st',
    retry_call (call_hook c h kw) tries st = (res, st') ->
    sink st' = sink st
    /\ (_should_stop st = true -> _should_stop st' = true)
    /\ exists n, (n <= tries)%nat /\ ((0 < tries)%nat -> (0 < n)%nat)
         /\ calls st' = calls st ++ repeat c n.
Proof.
  induction tries as [|tries IH]; intros st res st'.
  - cbn. intros [= <- <-]. repeat split; auto.
    exists 0%nat. rewrite app_nil_r. repeat split; lia.
  - rewrite retry_call_S, call_hook_eq.
    set (o := h kw (world st)).
    destruct (hk_raised o) as [e|].
    + destruct tries as [|tries'].
      * cbn. intros [= <- <-]. cbn. repeat split; auto.
        -- intros Hstop; rewrite Hstop; reflexivity.
        -- exists 1%nat. repeat split; lia.
      * intros Hrun. apply IH in Hrun.
        destruct Hrun as (Hs & Hf & n & Hn & Hpos & Hc). cbn in *.
        repeat split; auto.
        -- intros Hstop. apply Hf. rewrite Hstop; reflexivity.
        -- exists (S n). repeat split; try lia.
           rewrite Hc. rewrite <- app_assoc. reflexivity.
    + cbn. intros [= <- <-]. cbn. repeat split; auto.
      * intros Hstop; rewrite Hstop; reflexivity.
      * exists 1%nat. repeat split; lia.
Qed.

(** Attempt [k] is the first to return: [k + 1] invocations, no more. *)
Lemma retry_call_success c h kw (k : nat) :
  forall (tries : nat) st res st',
    retry_call (call_hook c h kw) tries st = (res, st') ->
    (k < tries)%nat ->
    (forall j, (j < k)%nat -> hk_raised (attempt h kw j (world st)) <> None) ->
    hk_raised (attempt h kw k (world st)) = None ->
    res = None /\ calls st' = calls st ++ repeat c (S k).
Proof.
  induction k as [|k IH]; intros tries st res st' Hrun Hlt Hfail Hok.
  - destruct tries as [|tries]; [lia|].
    rewrite retry_call_S, call_hook_eq in Hrun.
    unfold attempt in Hok; cbn in Hok. rewrite Hok in Hrun.
    cbn in Hrun. injection Hrun as <- <-. auto.
  - destruct tries as [|[|tries]]; [lia | lia |].
    rewrite retry_call_S, call_hook_eq in Hrun.
    pose proof (Hfail 0%nat ltac:(lia)) as H0.
    unfold attempt in H0; cbn in H0.
    destruct (hk_raised (h kw (world st))) as [e|]; [|congruence].
    eapply IH in Hrun as [Hr Hc].
    + split; [exact Hr|]. rewrite Hc. cbn.
      rewrite <- app_assoc. reflexivity.
    + lia.
    + intros j Hj. apply (Hfail (S j)). lia.
    + exact Hok.
Qed.

(** Every attempt raises: [tries] invocations, and the exception of the
    last one reaches the caller. *)
Lemma retry_call_exhausted c h kw (tries : nat) :
  forall st res st',
    retry_call (call_hook c h kw) (S tries) st = (res, st') ->
    (forall j, (j <= tries)%nat ->
               hk_raised (attempt h kw j (world st)) <> None) ->
    res = hk_raised (attempt h kw tries (world st))
    /\ calls st' = calls st ++ repeat c (S tries).
Proof.
  induction tries as [|tries IH]; intros st res st' Hrun Hfail.
  - rewrite retry_call_S, call_hook_eq in Hrun.
    pose proof (Hfail 0%nat ltac:(lia)) as H0.
    unfold attempt in *; cbn in *.
    destruct (hk_raised (h kw (world st))) as [e|]; [|congruence].
    cbn in Hrun. injection Hrun as <- <-. auto.
  - rewrite retry_call_S, call_hook_eq in Hrun.
    pose proof (Hfail 0%nat ltac:(lia)) as H0.
    unfold attempt in H0; cbn in H0.
    destruct (hk_raised (h kw (world st))) as [e|]; [|congruence].
    apply IH in Hrun as [Hr Hc].
    + split; [exact Hr|]. rewrite Hc. cbn.
      rewrite <- app_assoc. reflexivity.
    + intros j Hj. apply (Hfail (S j)). lia.
Qed.

(** *** Frame of the record operations *)

Lemma set_status_frame case_result (s : TestStatus) (arg : MessageArg) st :
  world (set_status case_result s arg st).2 = world st
  /\ clock (set_status case_result s arg st).2 = clock st
  /\ _should_stop (set_status case_result s arg st).2 = _should_stop st
  /\ calls (set_status case_result s arg st).2 = calls st.
Proof.
  unfold set_status, bind, ret, create_timer.
  repeat case_bool_decide; rewrite ?send_result_message_eq; cbn; auto.
Qed.

Lemma set_status_runtime_data case_result (s : TestStatus) (arg : MessageArg)
    st :
  runtime_data (set_status case_result s arg st).1 = runtime_data case_result
  /\ id_ (set_status case_result s arg st).1 = id_ case_result.
Proof.
  unfold set_status, bind, ret, create_timer.
  repeat case_bool_decide; rewrite ?send_result_message_eq; cbn [fst];
    rewrite ?sent_runtime_data, ?sent_id;
    destruct (MessageArg_truthy arg); auto.
Qed.

(** [handle_exception] is one call of [set_status], to a status other than
    RUNNING. *)
Lemma handle_exception_is_set_status case_result (e : PyException)
    (phase : string) st :
  exists s text,
    s <> RUNNING
    /\ handle_exception case_result e phase st
       = set_status case_result s (MsgStr text) st.
Proof.
  unfold handle_exception.
  destruct (isinstance e SkippedException); [eexists _, _; split; [|reflexivity]; done|].
  destruct (isinstance e NotRunException); [eexists _, _; split; [|reflexivity]; done|].
  destruct (isinstance e PassedException); [eexists _, _; split; [|reflexivity]; done|].
  destruct (ignore_failure _); eexists _, _; (split; [|reflexivity]); done.
Qed.

(** A change of status: one message, that of the record as it leaves. *)
Lemma set_status_changes case_result (s : TestStatus) (text : string) st r st' :
  status case_result <> s ->
  set_status case_result s (MsgStr text) st = (r, st') ->
  r = transitioned case_result s text (clock st)
  /\ st' = emit st (result_message_of r).
Proof.
  intros Hne. rewrite set_status_str.
  rewrite bool_decide_eq_false_2 by exact Hne.
  intros [= <- <-]. auto.
Qed.

End OrchestratorProperties.

(** ** The orchestrator *)

Section SuiteProperties.

Context {W : Type}.

Variable self : @TestSuite W.

Implicit Types (st : @RunState W) (kw : Kwargs) (case_result : TestResult).

Lemma handle_exception_frame case_result (e : PyException) (phase : string)
    st :
  _should_stop (handle_exception case_result e phase st).2 = _should_stop st
  /\ calls (handle_exception case_result e phase st).2 = calls st
  /\ runtime_data (handle_exception case_result e phase st).1
     = runtime_data case_result.
Proof.
  destruct (handle_exception_is_set_status case_result e phase st)
    as (s & text & _ & ->).
  pose proof (set_status_frame case_result s (MsgStr text) st).
  pose proof (set_status_runtime_data case_result s (MsgStr text) st).
  tauto.
Qed.

(** C2: with retry = r the case body is invoked at most r + 1 times.  When
    attempt k (counted from 0, k <= r) is the first to return normally, the
    body has been invoked exactly k + 1 times and the status is PASSED; when
    all r + 1 attempts raise, the body has been invoked r + 1 times and the
    exception of the last attempt is the one handed to handle_exception. *)
Theorem run_case_bounded_retry case_result kw st :
  let case_name := name (metadata (runtime_data case_result)) in
  let body := test_method self case_name in
  let r := retry (runtime_data case_result) in
  let out := __run_case self case_result kw st in
  (exists n, (n <= r + 1)%nat
             /\ calls out.2 = calls st ++ repeat (CallCase case_name) n)
  /\ (forall k, (k <= r)%nat ->
        (forall j, (j < k)%nat ->
                   hk_raised (attempt body kw j (world st)) <> None) ->
        hk_raised (attempt body kw k (world st)) = None ->
        status out.1 = PASSED
        /\ calls out.2 = calls st ++ repeat (CallCase case_name) (k + 1))
  /\ ((forall j, (j <= r)%nat ->
                 hk_raised (attempt body kw j (world st)) <> None) ->
      calls out.2 = calls st ++ repeat (CallCase case_name) (r + 1)
      /\ exists e st1,
           hk_raised (attempt body kw r (world st)) = Some e
           /\ out = handle_exception case_result e "" st1).
Proof.
  intros case_name body r out. subst out. unfold __run_case, bind.
  fold case_name. fold body. fold r.
  destruct (retry_call (call_hook (CallCase case_name) body kw) (r + 1) st)
    as [res st1] eqn:E.
  assert (Hcalls : calls (match res with
                          | Some identifier =>
                              handle_exception case_result identifier ""
                          | None => set_status case_result PASSED (MsgStr "")
                          end st1).2 = calls st1).
  { destruct res as [e|].
    - apply handle_exception_frame.
    - apply set_status_frame. }
  rewrite Hcalls. split; [|split].
  - destruct (retry_call_frame _ _ _ _ _ _ _ E) as (_ & _ & n & Hn & _ & Hc).
    exists n. auto.
  - intros k Hk Hfail Hok.
    destruct (retry_call_success _ _ _ k _ _ _ _ E) as [-> Hc];
      [lia | assumption | assumption |].
    split; [apply set_status_status|].
    rewrite Hc, Nat.add_1_r. reflexivity.
  - intros Hall. rewrite Nat.add_1_r in E |- *.
    destruct (retry_call_exhausted _ _ _ _ _ _ _ E Hall) as [Hres Hc].
    split; [exact Hc|].
    destruct (hk_raised (attempt body kw r (world st))) as [e|] eqn:He.
    + exists e, st1. subst res. auto.
    + exfalso. apply (Hall r); [lia | exact He].
Qed.

(** *** The three per-case helpers *)

Lemma after_case_spec case_result kw st r' st' :
  __after_case self case_result kw st = (r', st') ->
  r' = case_result
  /\ sink st' = sink st
  /\ (_should_stop st = true -> _should_stop st' = true)
  /\ exists n, (1 <= n <= retry (runtime_data case_result) + 1)%nat
       /\ calls st' = calls st
            ++ repeat (CallAfterCase (name (metadata (runtime_data case_result)))) n.
Proof.
  unfold __after_case, bind, ret.
  destruct (retry_call _ _ st) as [res st1] eqn:E.
  destruct (retry_call_frame _ _ _ _ _ _ _ E) as (Hs & Hf & n & Hn & Hpos & Hc).
  destruct res; intros [= <- <-]; repeat split; auto;
    exists n; (split; [lia | exact Hc]).
Qed.

Lemma before_case_spec case_result kw st (b : bool) r' st' :
  __before_case self case_result kw st = ((b, r'), st') ->
  (runtime_data r' = runtime_data case_result /\ id_ r' = id_ case_result)
  /\ (_should_stop st = true -> _should_stop st' = true)
  /\ (exists n,
        calls st' = calls st
          ++ repeat (CallBeforeCase (name (metadata (runtime_data case_result)))) n)
  /\ (b = true -> r' = case_result /\ sink st' = sink st)
  /\ (b = false ->
      status r' = SKIPPED
      /\ (status case_result <> SKIPPED ->
          sink st' = sink st ++ [result_message_of r'])).
Proof.
  unfold __before_case, bind, ret.
  destruct (retry_call _ _ st) as [res st1] eqn:E.
  destruct (retry_call_frame _ _ _ _ _ _ _ E) as (Hs & Hf & n & Hn & Hpos & Hc).
  destruct res as [e|].
  - destruct (set_status case_result SKIPPED _ st1) as [r2 st2] eqn:E2.
    intros [= <- <- <-].
    pose proof (set_status_frame case_result SKIPPED
                  (MsgStr ("before_case: " +:+ exc_str e)) st1) as (_ & _ & Hf2 & Hc2).
    pose proof (set_status_runtime_data case_result SKIPPED
                  (MsgStr ("before_case: " +:+ exc_str e)) st1) as [Hrd Hid].
    pose proof (set_status_status case_result SKIPPED
                  (MsgStr ("before_case: " +:+ exc_str e)) st1) as Hst.
    rewrite E2 in *. cbn [fst snd] in *.
    repeat split; try done.
    + intros Hstop. rewrite Hf2. auto.
    + exists n. rewrite Hc2. exact Hc.
    + intros Hne. apply (set_status_changes _ _ _ _ _ _ Hne) in E2 as [_ ->].
      cbn. rewrite Hs. reflexivity.
  - intros [= <- <- <-]. repeat split; try done. exists n. exact Hc.
Qed.

Lemma run_case_spec case_result kw st r' st' :
  __run_case self case_result kw st = (r', st') ->
  (runtime_data r' = runtime_data case_result /\ id_ r' = id_ case_result)
  /\ (_should_stop st = true -> _should_stop st' = true)
  /\ (exists n,
        calls st' = calls st
          ++ repeat (CallCase (name (metadata (runtime_data case_result)))) n)
  /\ (status case_result = RUNNING ->
      sink st' = sink st ++ [result_message_of r'] /\ status r' <> RUNNING).
Proof.
  unfold __run_case, bind.
  destruct (retry_call _ _ st) as [res st1] eqn:E.
  destruct (retry_call_frame _ _ _ _ _ _ _ E) as (Hs & Hf & n & Hn & Hpos & Hc).
  assert (Hset : exists s text,
             s <> RUNNING
             /\ match res with
                | Some identifier =>
                    handle_exception case_result identifier ""
                | None => set_status case_result PASSED (MsgStr "")
                end st1 = set_status case_result s (MsgStr text) st1).
  { destruct res as [e|].
    - apply handle_exception_is_set_status.
    - exists PASSED, "". split; [done | reflexivity]. }
  destruct Hset as (s & text & Hrun & ->). intros E2.
  pose proof (set_status_frame case_result s (MsgStr text) st1) as (_ & _ & Hf2 & Hc2).
  pose proof (set_status_runtime_data case_result s (MsgStr text) st1) as [Hrd Hid].
  pose proof (set_status_status case_result s (MsgStr text) st1) as Hst.
  rewrite E2 in *. cbn [fst snd] in *.
  repeat split; try done.
  - intros Hstop. rewrite Hf2. auto.
  - exists n. rewrite Hc2. exact Hc.
  - assert (Hne : status case_result <> s) by congruence.
    apply (set_status_changes _ _ _ _ _ _ Hne) in E2 as [_ ->].
    cbn. rewrite Hs. reflexivity.
  - congruence.
Qed.

Lemma Forall_repeat_case_call (c : HookCall) (n : nat) :
  is_case_call c = true -> Forall (fun c => is_case_call c = true) (repeat c n).
Proof. intros Hc. induction n; cbn; constructor; auto. Qed.

(** *** One iteration of the loop *)

Lemma decide_case_spec (environment : Environment) kw (is_suite_continue : bool)
    (suite_error_message : string) case_result st r1 kw1 st1 :
  decide_case self environment kw is_suite_continue suite_error_message
    case_result st = ((r1, kw1), st1) ->
  (runtime_data r1 = runtime_data case_result /\ id_ r1 = id_ case_result)
  /\ (_should_stop st = true -> _should_stop st1 = true)
  /\ (exists l, calls st1 = calls st ++ l
                /\ Forall (fun c => is_case_call c = true) l
                /\ (is_suite_continue = false -> l = []))
  /\ (status case_result = NOTRUN ->
      exists m1, sink st1 = sink st ++ [m1; result_message_of r1]
                 /\ msg_status m1 = RUNNING
                 /\ msg_id_ m1 = id_ case_result
                 /\ status r1 <> RUNNING)
  /\ (is_suite_continue = false ->
      status r1 = SKIPPED
      /\ message r1 = message_log (message case_result) suite_error_message).
Proof.
  unfold decide_case, bind, ret.
  set (r0 := with_environment case_result (Some environment)).
  set (ckw := mkKwargs _ _ _).
  assert (Hr0 : runtime_data r0 = runtime_data case_result) by reflexivity.
  assert (Hi0 : id_ r0 = id_ case_result) by reflexivity.
  assert (Hm0 : message r0 = message case_result) by reflexivity.
  assert (Hs0 : status r0 = status case_result) by reflexivity.
  clearbody r0.
  destruct (set_status r0 RUNNING (MsgStr "") st) as [ra sta] eqn:E1.
  pose proof (set_status_frame r0 RUNNING (MsgStr "") st) as (_ & _ & Hfa & Hca).
  pose proof (set_status_runtime_data r0 RUNNING (MsgStr "") st) as [Hrda Hida].
  pose proof (set_status_status r0 RUNNING (MsgStr "") st) as Hsta.
  pose proof (set_status_message r0 RUNNING "" st) as Hma.
  rewrite E1 in *. cbn [fst snd] in *.
  assert (Hsink : status case_result = NOTRUN ->
                  sta = emit st (result_message_of ra)).
  { intros Hnr. assert (Hne : status r0 <> RUNNING) by congruence.
    apply (set_status_changes _ _ _ _ _ _ Hne) in E1 as [_ ->]. reflexivity. }
  destruct is_suite_continue.
  - destruct (__before_case self ra ckw sta) as [[b rb] stb] eqn:E2.
    destruct (before_case_spec _ _ _ _ _ _ E2)
      as ((Hrdb & Hidb) & Hfb & (nb & Hcb) & Hbt & Hbf).
    destruct b.
    + destruct (Hbt eq_refl) as [-> Hsb].
      destruct (__run_case self ra ckw stb) as [rc stc] eqn:E3.
      destruct (run_case_spec _ _ _ _ _ E3)
        as ((Hrdc & Hidc) & Hfc & (nc & Hcc) & Hrun).
      intros [= <- <- <-]. repeat split; try done.
      * congruence.
      * congruence.
      * intros Hs. apply Hfc, Hfb. rewrite Hfa. exact Hs.
      * eexists. rewrite Hcc, Hcb, Hca, <- app_assoc. split; [reflexivity|].
        split; [|done].
        apply Forall_app; split; apply Forall_repeat_case_call; reflexivity.
      * intros Hnr. destruct (Hrun Hsta) as [Hsc Hne].
        exists (result_message_of ra). rewrite Hsc, Hsb, (Hsink Hnr). cbn.
        rewrite <- app_assoc. repeat split; try done; congruence.
    + destruct (Hbf eq_refl) as [Hskip Hsb].
      intros [= <- <- <-]. repeat split; try done.
      * congruence.
      * congruence.
      * intros Hs. apply Hfb. rewrite Hfa. exact Hs.
      * eexists. rewrite Hcb, Hca. split; [reflexivity|].
        split; [|done]. apply Forall_repeat_case_call; reflexivity.
      * intros Hnr. exists (result_message_of ra).
        rewrite Hsb by congruence. rewrite (Hsink Hnr). cbn.
        rewrite <- app_assoc. repeat split; try done; congruence.
  - destruct (set_status ra SKIPPED (MsgStr suite_error_message) sta)
      as [rb stb] eqn:E2.
    pose proof (set_status_frame ra SKIPPED (MsgStr suite_error_message) sta)
      as (_ & _ & Hfb & Hcb).
    pose proof (set_status_runtime_data ra SKIPPED (MsgStr suite_error_message) sta)
      as [Hrdb Hidb].
    pose proof (set_status_status ra SKIPPED (MsgStr suite_error_message) sta) as Hstb.
    pose proof (set_status_message ra SKIPPED suite_error_message sta) as Hmb.
    rewrite E2 in *. cbn [fst snd] in *.
    intros [= <- <- <-]. repeat split; try done.
    + congruence.
    + congruence.
    + intros Hs. rewrite Hfb, Hfa. exact Hs.
    + exists []. rewrite app_nil_r, Hcb, Hca. auto.
    + intros Hnr. exists (result_message_of ra).
      assert (Hne : status ra <> SKIPPED) by congruence.
      apply (set_status_changes _ _ _ _ _ _ Hne) in E2 as [_ ->].
      rewrite (Hsink Hnr). cbn. rewrite <- app_assoc.
      repeat split; try done; congruence.
    + rewrite Hmb, Hma, Hm0. reflexivity.
Qed.

Lemma repeat_snoc {A} (x : A) (n : nat) :
  (1 <= n)%nat -> repeat x n = repeat x (n - 1) ++ [x].
Proof.
  intros Hn. destruct n as [|n]; [lia|].
  cbn [Nat.sub]. rewrite Nat.sub_0_r. clear Hn.
  induction n as [|n IH]; [reflexivity|].
  cbn [repeat app] in *. rewrite <- IH. reflexivity.
Qed.

Lemma run_one_case_spec (environment : Environment) kw (is_suite_continue : bool)
    (suite_error_message : string) case_result st r' st' :
  run_one_case self environment kw is_suite_continue suite_error_message
    case_result st = (r', st') ->
  (runtime_data r' = runtime_data case_result /\ id_ r' = id_ case_result)
  /\ (_should_stop st = true -> _should_stop st' = true)
  /\ (exists l,
        calls st' = calls st ++ l
          ++ [CallAfterCase (name (metadata (runtime_data case_result)))]
        /\ Forall (fun c => is_case_call c = true) l
        /\ (is_suite_continue = false ->
            Forall (fun c => is_after_case_call c = true) l))
  /\ (is_suite_continue = false ->
      skipped_with suite_error_message case_result r').
Proof.
  unfold run_one_case, bind.
  destruct (decide_case _ _ _ _ _ _ st) as [[r1 kw1] st1] eqn:E1.
  destruct (decide_case_spec _ _ _ _ _ _ _ _ _ E1)
    as ((Hrd & Hid) & Hf & (l & Hc & Hl & Hnil) & _ & Hskip).
  intros E2.
  destruct (after_case_spec _ _ _ _ _ E2) as (-> & _ & Hf2 & n & Hn & Hc2).
  split; [auto|]. split; [auto|]. split.
  - exists (l ++ repeat (CallAfterCase (name (metadata (runtime_data case_result))))
                 (n - 1)).
    repeat split.
    + rewrite Hc2, Hc, Hrd, (repeat_snoc _ n) by lia.
      rewrite <- !app_assoc. reflexivity.
    + apply Forall_app; split; [exact Hl|].
      apply Forall_repeat_case_call; reflexivity.
    + intros Hcont. rewrite (Hnil Hcont). cbn [app].
      clear. induction (n - 1)%nat; cbn; constructor; auto.
  - intros Hcont. destruct (Hskip Hcont). split; auto.
Qed.

(** C5: after_case is invoked once the case is decided, whatever decided it
    (the case body, a failed before_case, or a failed suite setup), at least
    once and at most retry + 1 times; the record that leaves the iteration
    is the record as it was decided, status and message included, and no
    result message is sent meanwhile.  This holds for every after_case, so
    also when each of its retry + 1 attempts raises. *)
Theorem after_case_keeps_decided_result (environment : Environment) kw
    (is_suite_continue : bool) (suite_error_message : string) case_result st :
  let decided :=
    decide_case self environment kw is_suite_continue suite_error_message
      case_result st in
  let out :=
    run_one_case self environment kw is_suite_continue suite_error_message
      case_result st in
  let cleanup :=
    CallAfterCase (name (metadata (runtime_data case_result))) in
  let r := retry (runtime_data case_result) in
  out.1 = decided.1.1
  /\ status out.1 = status decided.1.1
  /\ message out.1 = message decided.1.1
  /\ sink out.2 = sink decided.2
  /\ (exists n, (1 <= n <= r + 1)%nat
                /\ calls out.2 = calls decided.2 ++ repeat cleanup n)
  /\ ((forall j, (j <= r)%nat ->
         hk_raised (attempt (after_case self) decided.1.2 j (world decided.2))
         <> None) ->
      calls out.2 = calls decided.2 ++ repeat cleanup (r + 1)).
Proof.
  intros decided out cleanup r. subst decided out cleanup r.
  unfold run_one_case, bind.
  destruct (decide_case _ _ _ _ _ _ st) as [[r1 kw1] st1] eqn:E1.
  destruct (decide_case_spec _ _ _ _ _ _ _ _ _ E1) as ((Hrd & _) & _).
  destruct (__after_case self r1 kw1 st1) as [r2 st2] eqn:E2.
  destruct (after_case_spec _ _ _ _ _ E2) as (-> & Hs & _ & n & Hn & Hc).
  cbn [fst snd]. rewrite <- Hrd. repeat split; auto.
  - exists n. auto.
  - intros Hall. unfold __after_case, bind in E2.
    destruct (retry_call _ _ st1) as [res st3] eqn:E3.
    rewrite Nat.add_1_r in E3 |- *.
    destruct (retry_call_exhausted _ _ _ _ _ _ _ E3 Hall) as [_ Hc3].
    destruct res; injection E2 as <-; exact Hc3.
Qed.

Lemma handle_exception_status case_result (e : PyException)
    (phase : string) st :
  status (handle_exception case_result e phase st).1
  = status_for (ignore_failure (runtime_data case_result)) e.
Proof.
  unfold handle_exception, status_for.
  destruct (isinstance e SkippedException); [apply set_status_status|].
  destruct (isinstance e NotRunException); [apply set_status_status|].
  destruct (isinstance e PassedException); [apply set_status_status|].
  destruct (ignore_failure _); apply set_status_status.
Qed.

(** What closes [__run_case]: PASSED when an attempt of the body returned,
    the status chosen for the last exception otherwise. *)
Lemma run_case_status case_result kw st :
  status (__run_case self case_result kw st).1
  = match (retried_body self case_result kw st).1 with
    | None => PASSED
    | Some e => status_for (ignore_failure (runtime_data case_result)) e
    end.
Proof.
  unfold __run_case, retried_body, bind.
  destruct (retry_call _ _ st) as [[e|] st1]; cbn [fst].
  - apply handle_exception_status.
  - apply set_status_status.
Qed.

Lemma decide_case_enter (environment : Environment) kw
    (suite_error_message : string) case_result st :
  decide_case self environment kw true suite_error_message case_result st =
    let entered := enter_case self environment kw case_result st in
    if entered.1.1.1
    then ((__run_case self entered.1.1.2 entered.1.2 entered.2).1,
          entered.1.2,
          (__run_case self entered.1.1.2 entered.1.2 entered.2).2)
    else (entered.1.1.2, entered.1.2, entered.2).
Proof.
  unfold decide_case, enter_case, bind, ret. cbn zeta.
  destruct (set_status _ RUNNING (MsgStr "") st) as [ra sta].
  destruct (__before_case self ra _ sta) as [[b rb] stb].
  cbn [fst snd]. destruct b; [|reflexivity].
  destruct (__run_case self rb _ stb) as [rc stc]. reflexivity.
Qed.

Lemma enter_case_spec (environment : Environment) kw case_result st :
  let entered := enter_case self environment kw case_result st in
  runtime_data entered.1.1.2 = runtime_data case_result
  /\ (entered.1.1.1 = false -> status entered.1.1.2 = SKIPPED).
Proof.
  unfold enter_case, bind, ret. cbn zeta.
  pose proof (set_status_runtime_data
                (with_environment case_result (Some environment)) RUNNING
                (MsgStr "") st) as [Hrd _].
  destruct (set_status _ RUNNING (MsgStr "") st) as [ra sta].
  cbn [fst runtime_data with_environment] in Hrd.
  destruct (__before_case self ra _ sta) as [[b rb] stb] eqn:E.
  destruct (before_case_spec _ _ _ _ _ _ E) as ((Hrdb & _) & _ & _ & _ & Hf).
  cbn [fst snd]. split; [congruence|].
  intros ->. apply Hf. reflexivity.
Qed.

(** The status a record has when its iteration ends. *)
Lemma run_one_case_status (environment : Environment) kw
    (is_suite_continue : bool) (suite_error_message : string) case_result st :
  status (run_one_case self environment kw is_suite_continue
            suite_error_message case_result st).1
  = if is_suite_continue then
      let entered := enter_case self environment kw case_result st in
      if entered.1.1.1 then
        match (retried_body self entered.1.1.2 entered.1.2 entered.2).1 with
        | None => PASSED
        | Some e => status_for (ignore_failure (runtime_data case_result)) e
        end
      else SKIPPED
    else SKIPPED.
Proof.
  unfold run_one_case, bind.
  destruct (decide_case _ _ _ _ _ _ st) as [[r1 kw1] st1] eqn:E1.
  destruct (__after_case self r1 kw1 st1) as [r2 st2] eqn:E2.
  destruct (after_case_spec _ _ _ _ _ E2) as (-> & _).
  cbn [fst]. destruct is_suite_continue.
  - rewrite decide_case_enter in E1. cbn zeta in *.
    destruct (enter_case_spec environment kw case_result st) as [Hrd Hskip].
    cbn zeta in Hrd, Hskip.
    destruct (enter_case self environment kw case_result st)
      as [[[ok rb] ckw] stb].
    cbn [fst snd] in *. destruct ok.
    + injection E1 as <- _ _. rewrite run_case_status, Hrd. reflexivity.
    + injection E1 as <- _ _. auto.
  - destruct (decide_case_spec _ _ _ _ _ _ _ _ _ E1) as (_ & _ & _ & _ & Hs).
    apply Hs. reflexivity.
Qed.

(** C6 (amended): a record is created NOTRUN, and a record that is NOTRUN
    when its iteration starts changes status exactly twice in that
    iteration: first to RUNNING, then to the status that is final for the
    run.  Each change sends one result message, and nothing else does.  The
    final status is SKIPPED when the suite setup or before_case failed,
    PASSED when an attempt of the case body returned, and otherwise the
    status that handle_exception chooses for the exception of the last
    attempt: it is PASSED, FAILED, SKIPPED or ATTEMPTED, or NOTRUN again,
    and it is NOTRUN exactly when the retried case body ends by raising the
    keep-not-run signal (an exception that is not also a skip signal). *)
Theorem case_status_history (environment : Environment) kw
    (is_suite_continue : bool) (suite_error_message : string) case_result st :
  (forall (id : string) (rd : TestCaseRuntimeData),
     status (new_TestResult id rd st).1 = NOTRUN)
  /\ (status case_result = NOTRUN ->
      let out :=
        run_one_case self environment kw is_suite_continue
          suite_error_message case_result st in
      let entered := enter_case self environment kw case_result st in
      let raised :=
        (retried_body self entered.1.1.2 entered.1.2 entered.2).1 in
      exists m1 m2,
        sink out.2 = sink st ++ [m1; m2]
        /\ msg_id_ m1 = id_ case_result /\ msg_status m1 = RUNNING
        /\ msg_id_ m2 = id_ case_result /\ msg_status m2 = status out.1
        /\ In (status out.1) [PASSED; FAILED; SKIPPED; ATTEMPTED; NOTRUN]
        /\ status out.1
           = (if is_suite_continue && entered.1.1.1 then
                match raised with
                | None => PASSED
                | Some e =>
                    status_for (ignore_failure (runtime_data case_result)) e
                end
              else SKIPPED)
        /\ (status out.1 = NOTRUN <->
            is_suite_continue = true
            /\ entered.1.1.1 = true
            /\ exists e, raised = Some e
                         /\ isinstance e SkippedException = false
                         /\ isinstance e NotRunException = true)).
Proof.
  split.
  { intros id rd. unfold new_TestResult, __post_init__.
    rewrite send_result_message_eq. reflexivity. }
  intros Hnr out entered raised.
  assert (Hfinal : status out.1
                   = (if is_suite_continue && entered.1.1.1 then
                        match raised with
                        | None => PASSED
                        | Some e =>
                            status_for
                              (ignore_failure (runtime_data case_result)) e
                        end
                      else SKIPPED)).
  { subst out. rewrite run_one_case_status. cbn zeta.
    fold entered. fold raised.
    destruct is_suite_continue; [|reflexivity].
    destruct entered.1.1.1; reflexivity. }
  assert (Hnotrun : status out.1 = NOTRUN <->
                    is_suite_continue = true
                    /\ entered.1.1.1 = true
                    /\ exists e, raised = Some e
                                 /\ isinstance e SkippedException = false
                                 /\ isinstance e NotRunException = true).
  { rewrite Hfinal. clear Hfinal. split.
    - destruct is_suite_continue; [|discriminate].
      destruct entered.1.1.1; [|discriminate]. cbn [andb].
      destruct raised as [e|]; [|discriminate].
      unfold status_for. intros Hs. split; [reflexivity|].
      split; [reflexivity|]. exists e. split; [reflexivity|].
      destruct (isinstance e SkippedException); [discriminate|].
      destruct (isinstance e NotRunException); [auto|].
      destruct (isinstance e PassedException); [discriminate|].
      destruct (ignore_failure _); discriminate.
    - intros (-> & -> & e & -> & Hskip & Hkeep). cbn [andb].
      unfold status_for. rewrite Hskip, Hkeep. reflexivity. }
  clearbody entered raised.
  revert Hfinal Hnotrun. subst out. unfold run_one_case, bind.
  destruct (decide_case _ _ _ _ _ _ st) as [[r1 kw1] st1] eqn:E1.
  destruct (decide_case_spec _ _ _ _ _ _ _ _ _ E1)
    as ((_ & Hid) & _ & _ & Hsink & _).
  destruct (Hsink Hnr) as (m1 & Hs & Hm1 & Hid1 & Hne).
  destruct (__after_case self r1 kw1 st1) as [r2 st2] eqn:E2.
  destruct (after_case_spec _ _ _ _ _ E2) as (-> & Hs2 & _).
  cbn [fst snd]. intros Hfinal Hnotrun.
  exists m1, (result_message_of r1).
  rewrite Hs2, Hs.
  split; [reflexivity|]. split; [exact Hid1|]. split; [exact Hm1|].
  split; [exact Hid|]. split; [reflexivity|].
  split; [|split; [exact Hfinal | exact Hnotrun]].
  cbn. destruct (status r1); tauto.
Qed.

(** *** The loop over the records *)

Lemma case_loop_cons (environment : Environment) kw (is_suite_continue : bool)
    (suite_error_message : string) case_result (rest : list TestResult) st :
  case_loop self environment kw is_suite_continue suite_error_message
    (case_result :: rest) st =
    let '(r', st1) :=
      run_one_case self environment kw is_suite_continue suite_error_message
        case_result st in
    if _should_stop st1 then (r' :: rest, st1)
    else
      let '(rest', st2) :=
        case_loop self environment kw is_suite_continue suite_error_message
          rest st1 in
      (r' :: rest', st2).
Proof. reflexivity. Qed.

Lemma case_loop_spec (environment : Environment) kw (is_suite_continue : bool)
    (suite_error_message : string) (case_results : list TestResult) :
  forall st rs' st',
    case_loop self environment kw is_suite_continue suite_error_message
      case_results st = (rs', st') ->
    (_should_stop st = true -> _should_stop st' = true)
    /\ (exists l,
          calls st' = calls st ++ l
          /\ Forall (fun c => is_case_call c = true) l
          /\ (is_suite_continue = false ->
              Forall (fun c => is_after_case_call c = true) l))
    /\ (is_suite_continue = false -> _should_stop st' = false ->
        Forall2 (skipped_with suite_error_message) case_results rs').
Proof.
  induction case_results as [|r rest IH]; intros st rs' st'.
  - cbn. intros [= <- <-]. repeat split; auto.
    exists []. rewrite app_nil_r. auto.
  - rewrite case_loop_cons.
    destruct (run_one_case _ _ _ _ _ r st) as [r1 st1] eqn:E1.
    destruct (run_one_case_spec _ _ _ _ _ _ _ _ E1)
      as (_ & Hf & (l & Hc & Hl & Hla) & Hskip).
    assert (Hl1 : Forall (fun c => is_case_call c = true)
                    (l ++ [CallAfterCase (name (metadata (runtime_data r)))])).
    { apply Forall_app; split; [exact Hl | repeat constructor]. }
    assert (Hl2 : is_suite_continue = false ->
                  Forall (fun c => is_after_case_call c = true)
                    (l ++ [CallAfterCase (name (metadata (runtime_data r)))])).
    { intros Hcont. apply Forall_app; split; [auto | repeat constructor]. }
    destruct (_should_stop st1) eqn:Hstop.
    + intros [= <- <-]. split; [auto|]. split.
      * eexists; split; [exact Hc|]. auto.
      * intros _ Hno. congruence.
    + destruct (case_loop _ _ _ _ _ rest st1) as [rest' st2] eqn:E2.
      destruct (IH _ _ _ E2) as (Hf2 & (l2 & Hc2 & Hl3 & Hl4) & Hrest).
      intros [= <- <-]. split; [|split].
      * intros Hs. apply Hf in Hs. congruence.
      * exists ((l ++ [CallAfterCase (name (metadata (runtime_data r)))]) ++ l2).
        rewrite Hc2, Hc, <- !app_assoc. split; [reflexivity|].
        rewrite !app_assoc.
        split; [|intros Hcont]; apply Forall_app; split; auto.
      * intros Hcont Hno. constructor; auto.
Qed.


(** *** The whole run *)

Lemma suite_method_eq (c : HookCall) (method : Hook) (method_name : string)
    kw st :
  __suite_method c method method_name kw st =
    (match hk_raised (method kw (world st)) with
     | None => (true, "")
     | Some identifier => (false, method_name +:+ ": " +:+ exc_str identifier)
     end,
     (call_hook c method kw st).2).
Proof.
  unfold __suite_method, bind, ret. rewrite call_hook_eq.
  destruct (hk_raised _); reflexivity.
Qed.

Lemma start_eq (environment : Environment) (case_results : list TestResult) st :
  start self environment case_results st =
    let kw := suite_kwargs (mark_used environment) in
    let setup :=
      __suite_method CallBeforeSuite (before_suite self) "before_suite" kw st in
    let looped :=
      case_loop self (mark_used environment) kw setup.1.1 setup.1.2
        case_results setup.2 in
    ((mark_used environment, looped.1),
     (call_hook CallAfterSuite (after_suite self) kw looped.2).2).
Proof.
  unfold start, bind, ret. cbn zeta.
  destruct (__suite_method CallBeforeSuite _ _ _ st) as [[b m] st0].
  cbn [fst snd].
  destruct (case_loop _ _ _ _ _ _ st0) as [rs' st1]. cbn [fst snd].
  rewrite suite_method_eq. reflexivity.
Qed.

Lemma new_calls_app st st' (l : list HookCall) :
  calls st' = calls st ++ l -> new_calls st st' = l.
Proof. unfold new_calls. intros ->. apply drop_app_length. Qed.

Lemma count_after_suite (l : list HookCall) :
  Forall (fun c => is_case_call c = true) l ->
  count_occ HookCall_eq_dec (CallBeforeSuite :: l ++ [CallAfterSuite])
    CallAfterSuite = 1%nat.
Proof.
  intros Hl. cbn [count_occ].
  destruct (HookCall_eq_dec CallBeforeSuite CallAfterSuite); [discriminate|].
  rewrite count_occ_app. cbn [count_occ].
  destruct (HookCall_eq_dec CallAfterSuite CallAfterSuite); [|congruence].
  rewrite (proj1 (count_occ_not_In HookCall_eq_dec l CallAfterSuite));
    [reflexivity|].
  intros Hin. rewrite Forall_forall in Hl.
  apply list_elem_of_In, Hl in Hin. discriminate.
Qed.

(** The run made by [start], from the first to the last invocation. *)
Lemma start_calls (environment : Environment) (case_results : list TestResult)
    st :
  exists l,
    calls (start self environment case_results st).2
    = calls st ++ CallBeforeSuite :: l ++ [CallAfterSuite]
    /\ Forall (fun c => is_case_call c = true) l
    /\ (hk_raised (before_suite self (suite_kwargs (mark_used environment))
                     (world st)) <> None ->
        Forall (fun c => is_after_case_call c = true) l).
Proof.
  rewrite start_eq. cbn zeta. rewrite suite_method_eq. cbn [fst snd].
  set (kw := suite_kwargs (mark_used environment)).
  set (verdict := match hk_raised (before_suite self kw (world st)) with
                  | Some identifier => _
                  | None => _
                  end).
  destruct (case_loop self (mark_used environment) kw verdict.1 verdict.2
              case_results (call_hook CallBeforeSuite (before_suite self) kw st).2)
    as [rs' st1] eqn:E.
  destruct (case_loop_spec _ _ _ _ _ _ _ _ E) as (_ & (l & Hc & Hl & Hla) & _).
  exists l. rewrite !call_hook_eq in *. cbn [fst snd calls] in *.
  rewrite Hc, <- !app_assoc. repeat split; auto.
  intros Hraise. apply Hla. subst verdict.
  destruct (hk_raised (before_suite self kw (world st))); [reflexivity|done].
Qed.

(** With the suite setup failed, the loop skips the records it reaches: a
    first part of the list, which has the first record in it and is the
    whole list unless the stop flag is set when the loop ends; the records
    after that part are returned as they were. *)
Lemma case_loop_skips (environment : Environment) kw
    (suite_error_message : string) (case_results : list TestResult) :
  forall st rs' st',
    case_loop self environment kw false suite_error_message case_results st
    = (rs', st') ->
    exists n : nat,
      (n <= length case_results)%nat
      /\ (case_results <> [] -> (1 <= n)%nat)
      /\ Forall2 (skipped_with suite_error_message)
           (take n case_results) (take n rs')
      /\ drop n rs' = drop n case_results
      /\ ((n < length case_results)%nat -> _should_stop st' = true).
Proof.
  induction case_results as [|r rest IH]; intros st rs' st'.
  - cbn. intros [= <- <-]. exists 0%nat.
    split; [lia|]. split; [congruence|]. split; [constructor|].
    split; [reflexivity|]. cbn. lia.
  - rewrite case_loop_cons.
    destruct (run_one_case _ _ _ _ _ r st) as [r1 st1] eqn:E1.
    destruct (run_one_case_spec _ _ _ _ _ _ _ _ E1) as (_ & _ & _ & Hskip).
    specialize (Hskip eq_refl).
    destruct (_should_stop st1) eqn:Hstop.
    + intros [= <- <-]. exists 1%nat. cbn [length take drop].
      split; [lia|]. split; [lia|].
      split; [constructor; [exact Hskip | constructor]|].
      split; [reflexivity|]. intros _. exact Hstop.
    + destruct (case_loop _ _ _ _ _ rest st1) as [rest' st2] eqn:E2.
      destruct (IH _ _ _ E2) as (n & Hn & _ & Hall & Hdrop & Hflag).
      intros [= <- <-]. exists (S n). cbn [length take drop].
      split; [lia|]. split; [lia|].
      split; [constructor; assumption|].
      split; [exact Hdrop|]. intros Hlt. apply Hflag. lia.
Qed.

(** C3 (amended): when before_suite raises, start returns; no before_case
    hook and no case body is invoked, and after_suite is invoked exactly
    once.  The loop over the records still runs, with its test of the stop
    flag after each iteration: the records it reaches are SKIPPED with the
    suite-level error text added to their message log, and they are a
    first part of the list that always has the first record in it; the
    records after that part are returned as they were.  The part is the
    whole list unless the stop flag is set when the loop ends, so it is the
    whole list whenever the flag is unset at that point, whatever
    after_suite does afterwards. *)
Theorem broken_setup_skips_cases (environment : Environment)
    (case_results : list TestResult) st (e : PyException) :
  hk_raised (before_suite self (suite_kwargs (mark_used environment))
               (world st)) = Some e ->
  let out := start self environment case_results st in
  let run := new_calls st out.2 in
  let kw := suite_kwargs (mark_used environment) in
  let text := "before_suite: " +:+ exc_str e in
  let looped :=
    case_loop self (mark_used environment) kw false text case_results
      (call_hook CallBeforeSuite (before_suite self) kw st).2 in
  (forall n, ~ In (CallBeforeCase n) run /\ ~ In (CallCase n) run)
  /\ count_occ HookCall_eq_dec run CallAfterSuite = 1%nat
  /\ (exists n : nat,
        (n <= length case_results)%nat
        /\ (case_results <> [] -> (1 <= n)%nat)
        /\ Forall2 (skipped_with text) (take n case_results) (take n out.1.2)
        /\ drop n out.1.2 = drop n case_results
        /\ ((n < length case_results)%nat -> _should_stop looped.2 = true))
  /\ (_should_stop looped.2 = false ->
      Forall2 (skipped_with text) case_results out.1.2)
  /\ (_should_stop out.2 = false ->
      Forall2 (skipped_with text) case_results out.1.2)
  /\ (out.1.2 = looped.1
      /\ calls out.2 = calls looped.2 ++ [CallAfterSuite]
      /\ _should_stop out.2
         = _should_stop looped.2
           || hk_stop (after_suite self kw (world looped.2))).
Proof.
  intros Hraise out run kw text looped.
  destruct (start_calls environment case_results st) as (l & Hc & Hl & Hla).
  assert (Hrun : run = CallBeforeSuite :: l ++ [CallAfterSuite])
    by (apply new_calls_app; exact Hc).
  specialize (Hla ltac:(congruence)).
  assert (Hout : out.1.2 = looped.1
                 /\ calls out.2 = calls looped.2 ++ [CallAfterSuite]
                 /\ _should_stop out.2
                    = _should_stop looped.2
                      || hk_stop (after_suite self kw (world looped.2))).
  { subst out looped. rewrite start_eq. cbn zeta.
    rewrite suite_method_eq, Hraise. cbn [fst snd]. fold kw.
    change ("before_suite" +:+ ": " +:+ exc_str e) with text.
    split; [reflexivity|].
    rewrite (call_hook_eq CallAfterSuite). split; reflexivity. }
  destruct Hout as (Hrecords & Hcalls & Hflag). rewrite Hrecords.
  destruct looped as [rs' st1] eqn:E. cbn [fst snd] in *.
  split; [|split; [|split; [|split; [|split; [|auto]]]]].
  - intros n. rewrite Hrun. rewrite Forall_forall in Hla.
    split; intros [Hin | Hin]; try discriminate;
      apply in_app_or in Hin as [Hin | [Hin | []]]; try discriminate;
      apply list_elem_of_In, Hla in Hin; discriminate.
  - rewrite Hrun. apply count_after_suite. exact Hl.
  - exact (case_loop_skips _ _ _ _ _ _ _ E).
  - destruct (case_loop_spec _ _ _ _ _ _ _ _ E) as (_ & _ & Hskip).
    intros Hno. exact (Hskip eq_refl Hno).
  - destruct (case_loop_spec _ _ _ _ _ _ _ _ E) as (_ & _ & Hskip).
    intros Hno. rewrite Hflag in Hno.
    apply orb_false_elim in Hno as [Hno _].
    exact (Hskip eq_refl Hno).
Qed.


End SuiteProperties.

(** ** Requirement check *)

Lemma os_type_loop_nodes (requirement_os_type : SetSpace OsType)
    (node_list : list Node) :
  forall check_result,
    result check_result = true ->
    (os_type_loop requirement_os_type node_list check_result).2
    = upto_first_failure requirement_os_type node_list.
Proof.
  induction node_list as [|node rest IH]; intros check_result Hok;
    [reflexivity|].
  cbn [os_type_loop upto_first_failure]. unfold merge at 1 2. cbn [result].
  rewrite Hok. cbn [andb].
  destruct (result (os_type_check _ _)) eqn:Hnode; cbn [negb]; [|reflexivity].
  specialize (IH (merge check_result
                    (os_type_check requirement_os_type
                       (mkSetSpace true (os_mro node))) "os_type")).
  destruct (os_type_loop _ rest _) as [cr checked]. cbn [snd] in *.
  rewrite IH; [reflexivity|]. cbn. rewrite Hok, Hnode. reflexivity.
Qed.

(** C7 (amended): the per-node check of check_environment stops at the first
    node whose operating system fails the requirement whether or not the
    caller asks for the reason to be saved: the nodes checked, and the value
    returned, are the same for both values of save_reason, and the nodes
    checked are those up to and including the first failing one (none when
    the loop is not entered).  save_reason only decides whether the result
    is kept on the record, merged into the result kept before when there is
    one. *)
Theorem check_environment_stops_at_first_failure
    (suites : gmap string TestSuiteMetadata) (self : TestResult)
    (environment : Environment) (save_reason : bool) (out : CheckOutcome) :
  check_environment suites self environment save_reason = Some out ->
  (exists out',
     check_environment suites self environment (negb save_reason) = Some out'
     /\ chk_nodes out' = chk_nodes out
     /\ chk_return out' = chk_return out)
  /\ (chk_nodes out = []
      \/ exists requirement requirement_os_type,
           getattr_requirement suites (metadata (runtime_data self))
           = Some requirement
           /\ os_type requirement = Some requirement_os_type
           /\ chk_nodes out
              = upto_first_failure requirement_os_type (nodes environment))
  /\ (save_reason = false -> chk_self out = self)
  /\ (save_reason = true ->
      exists check_result,
        result check_result = chk_return out
        /\ check_results (chk_self out)
           = Some (match check_results self with
                   | Some previous => merge previous check_result ""
                   | None => check_result
                   end)).
Proof.
  unfold check_environment.
  destruct (getattr_requirement suites _) as [requirement|]; [|discriminate].
  destruct (req_environment requirement) as [requirement_environment|];
    [|discriminate].
  set (first_result := environment_check requirement_environment
                         (capability environment)).
  destruct (os_type requirement) as [requirement_os_type|] eqn:Hos.
  - destruct (result first_result && SetSpace_truthy requirement_os_type
              && bool_decide (env_status environment = Connected)) eqn:Hgo.
    + pose proof (os_type_loop_nodes requirement_os_type (nodes environment)
                    first_result) as Hnodes.
      destruct (os_type_loop _ _ first_result) as [cr checked].
      cbn [snd] in Hnodes.
      apply andb_prop in Hgo as [Hgo _]. apply andb_prop in Hgo as [Hgo _].
      intros [= <-]. cbn [chk_nodes chk_return chk_self].
      repeat split.
      * eexists; repeat split.
      * right. exists requirement, requirement_os_type. auto.
      * intros ->. reflexivity.
      * intros ->. eexists; split; [reflexivity|].
        destruct (check_results self); reflexivity.
    + intros [= <-]. cbn [chk_nodes chk_return chk_self]. repeat split.
      * eexists; repeat split.
      * left; reflexivity.
      * intros ->. reflexivity.
      * intros ->. eexists; split; [reflexivity|].
        destruct (check_results self); reflexivity.
  - intros [= <-]. cbn [chk_nodes chk_return chk_self]. repeat split.
    + eexists; repeat split.
    + left; reflexivity.
    + intros ->. reflexivity.
    + intros ->. eexists; split; [reflexivity|].
      destruct (check_results self); reflexivity.
Qed.

(** ** Registry *)

(** C9: registering a suite under a key that is taken, or a case under a
    fully-qualified name that is taken, raises the duplicate error (a
    LisaException) and leaves both dictionaries as they were; a registration
    under a free key raises nothing. *)
Theorem duplicate_registration_leaves_registry (reg : Registry) :
  (forall metadata key,
     suite_key metadata = Some key ->
     (is_Some (_all_suites reg !! key) ->
      _add_suite_metadata metadata reg = (reg, Some (duplicate_error key))
      /\ isinstance (duplicate_error key) LisaException = true)
     /\ (_all_suites reg !! key = None ->
         (_add_suite_metadata metadata reg).2 = None))
  /\ (forall metadata,
        (is_Some (dict_get (_all_cases reg) (full_name metadata)) ->
         _add_case_metadata metadata reg
         = (reg, Some (duplicate_error (full_name metadata)))
         /\ isinstance (duplicate_error (full_name metadata)) LisaException
            = true)
        /\ (dict_get (_all_cases reg) (full_name metadata) = None ->
            (_add_case_metadata metadata reg).2 = None)).
Proof.
  split.
  - intros metadata key Hkey. unfold _add_suite_metadata. rewrite Hkey. split.
    + intros [exist_metadata ->]. split; reflexivity.
    + intros ->. reflexivity.
  - intros metadata. unfold _add_case_metadata. split.
    + intros [exist_metadata ->]. split; reflexivity.
    + intros ->. cbn [_all_suites]. destruct (_all_suites reg !! _); reflexivity.
Qed.

(** * The statements at work on the demonstration suite *)

(** A generic error on a record with ignore_failure set: ATTEMPTED. *)
Lemma handle_exception_classifies_witness :
  isinstance generic_error SkippedException = false
  /\ isinstance generic_error NotRunException = false
  /\ isinstance generic_error PassedException = false
  /\ ignore_failure (runtime_data (demo_record "1" "broken" 0 true)) = true
  /\ status (handle_exception (demo_record "1" "broken" 0 true) generic_error
              "" demo_state).1 = ATTEMPTED
  /\ status (handle_exception (demo_record "1" "broken" 0 true) generic_error
              "" demo_state).1 <> FAILED.
Proof.
  do 4 (split; [reflexivity|]).
  pose proof (handle_exception_classifies (demo_record "1" "broken" 0 true)
                generic_error "" demo_state) as H.
  cbn zeta in H. destruct H as (_ & _ & _ & H).
  destruct (H eq_refl eq_refl eq_refl) as [Hignored _].
  exact (Hignored eq_refl).
Defined.

(** A skip signal raised in a phase: the text the message log receives. *)
Example handle_exception_skip_message :
  let r := (handle_exception (demo_record "1" "hello" 0 false) skip_signal
              "before_case" demo_state).1 in
  status r = SKIPPED /\ message r = "before_case skipped: no gpu".
Proof. split; reflexivity. Qed.

(** Two failures, then a return, with retry = 2: PASSED after exactly three
    invocations. *)
Lemma run_case_bounded_retry_witness :
  let kw := suite_kwargs (mark_used (demo_environment [demo_ubuntu])) in
  let out := __run_case demo_suite (demo_record "2" "flaky" 2 false) kw
               demo_state in
  status out.1 = PASSED
  /\ calls out.2 = [CallCase "flaky"; CallCase "flaky"; CallCase "flaky"].
Proof.
  intros kw out.
  destruct (run_case_bounded_retry demo_suite (demo_record "2" "flaky" 2 false)
              kw demo_state) as (_ & H & _).
  apply (H 2%nat).
  - cbn. lia.
  - intros [|[|j]] Hj; [discriminate | discriminate | lia].
  - reflexivity.
Defined.

(** before_suite raises and after_suite calls stop: the flag is set when the
    run ends, and both records are SKIPPED all the same. *)
Lemma broken_setup_skips_cases_witness :
  let out := start broken_setup_late_stop_suite
               (demo_environment [demo_ubuntu]) two_cases demo_state in
  _should_stop out.2 = true
  /\ map status out.1.2 = [SKIPPED; SKIPPED]
  /\ map message out.1.2 = ["before_suite: boom"; "before_suite: boom"]
  /\ count_occ HookCall_eq_dec (new_calls demo_state out.2) CallAfterSuite
     = 1%nat
  /\ Forall2 (skipped_with "before_suite: boom") two_cases out.1.2.
Proof.
  intros out. repeat (split; [reflexivity|]).
  destruct (broken_setup_skips_cases broken_setup_late_stop_suite
              (demo_environment [demo_ubuntu]) two_cases demo_state
              generic_error eq_refl) as (_ & _ & _ & H & _).
  exact (H eq_refl).
Defined.

(** C3 as stated fails: before_suite raises and after_case calls stop; the
    loop ends after the first record, and the second one is never SKIPPED. *)
Lemma broken_setup_with_stop_leaves_notrun :
  let out := start broken_setup_stopping_suite (demo_environment [demo_ubuntu])
               two_cases demo_state in
  hk_raised (before_suite broken_setup_stopping_suite
               (suite_kwargs (mark_used (demo_environment [demo_ubuntu])))
               (world demo_state)) = Some generic_error
  /\ map status out.1.2 = [SKIPPED; NOTRUN]
  /\ ~ Forall (fun r => status r = SKIPPED) out.1.2.
Proof.
  intros out. split; [reflexivity|]. split; [reflexivity|].
  intros H. apply Forall_cons_1 in H as [_ H].
  apply Forall_cons_1 in H as [H _]. discriminate H.
Qed.

(** NOTRUN to RUNNING: one message, with the status and the id. *)
Lemma set_status_emits_on_transition_witness :
  let out := set_status (demo_record "1" "hello" 0 false) RUNNING (MsgStr "")
               demo_state in
  status (demo_record "1" "hello" 0 false) <> RUNNING
  /\ sink out.2 = sink demo_state ++ [result_message_of out.1]
  /\ msg_status (result_message_of out.1) = RUNNING
  /\ msg_id_ (result_message_of out.1) = "1".
Proof.
  intros out. split; [discriminate|].
  destruct (set_status_emits_on_transition (demo_record "1" "hello" 0 false)
              RUNNING (MsgStr "") demo_state) as (_ & _ & H).
  destruct (H ltac:(discriminate)) as (Hsink & Hid & Hst & _).
  auto.
Defined.

(** C4 as stated fails: a call that leaves the status as it is sends no
    message, although it adds its text to the message log. *)
Lemma set_status_same_status_is_silent :
  let out := set_status running_record RUNNING (MsgStr "again") demo_state in
  status running_record = RUNNING
  /\ message out.1 = "again"
  /\ sink out.2 = sink demo_state
  /\ ~ exists m, sink out.2 = sink demo_state ++ [m].
Proof.
  intros out. do 3 (split; [reflexivity|]).
  intros [m Hm]. vm_compute in Hm. discriminate Hm.
Qed.

(** A passing case whose after_case raises on every attempt stays PASSED. *)
Lemma after_case_keeps_decided_result_witness :
  let out := run_one_case broken_cleanup_suite (demo_environment [demo_ubuntu])
               demo_kwargs true "" (demo_record "1" "hello" 1 false)
               demo_state in
  status out.1 = PASSED
  /\ message out.1 = ""
  /\ calls out.2
     = [CallBeforeCase "hello"; CallCase "hello";
        CallAfterCase "hello"; CallAfterCase "hello"].
Proof.
  intros out.
  destruct (after_case_keeps_decided_result broken_cleanup_suite
              (demo_environment [demo_ubuntu]) demo_kwargs true ""
              (demo_record "1" "hello" 1 false) demo_state)
    as (_ & Hst & Hmsg & _ & _ & Hcalls).
  split; [exact Hst|]. split; [exact Hmsg|].
  apply Hcalls. intros j _. discriminate.
Defined.

(** A case body that raises the keep-not-run signal: RUNNING, then NOTRUN
    again; and a passing case: RUNNING, then PASSED. *)
Lemma case_status_history_witness :
  let out := run_one_case demo_suite (demo_environment [demo_ubuntu])
               demo_kwargs true "" (demo_record "7" "later" 0 false)
               demo_state in
  let passed := run_one_case demo_suite (demo_environment [demo_ubuntu])
                  demo_kwargs true "" (demo_record "1" "hello" 0 false)
                  demo_state in
  status (demo_record "7" "later" 0 false) = NOTRUN
  /\ map msg_status (sink out.2) = [RUNNING; NOTRUN]
  /\ map msg_status (sink passed.2) = [RUNNING; PASSED]
  /\ (exists m1 m2,
        sink out.2 = sink demo_state ++ [m1; m2]
        /\ msg_id_ m1 = "7" /\ msg_status m1 = RUNNING
        /\ msg_id_ m2 = "7" /\ msg_status m2 = status out.1)
  /\ (status passed.1 = NOTRUN <-> False).
Proof.
  intros out passed. split; [reflexivity|]. split; [reflexivity|].
  split; [reflexivity|]. split.
  - destruct (proj2 (case_status_history demo_suite
                       (demo_environment [demo_ubuntu]) demo_kwargs true ""
                       (demo_record "7" "later" 0 false) demo_state) eq_refl)
      as (m1 & m2 & Hs & Hi1 & Hs1 & Hi2 & Hs2 & _).
    exists m1, m2. auto.
  - destruct (proj2 (case_status_history demo_suite
                       (demo_environment [demo_ubuntu]) demo_kwargs true ""
                       (demo_record "1" "hello" 0 false) demo_state) eq_refl)
      as (m1 & m2 & _ & _ & _ & _ & _ & _ & _ & Hiff).
    split; [|intros []]. intros Hs. apply Hiff in Hs as (_ & _ & e & He & _).
    discriminate He.
Defined.

(** C6 as stated fails: a case body that raises the keep-not-run signal
    takes the record from RUNNING back to NOTRUN. *)
Lemma running_returns_to_notrun :
  let out := start demo_suite (demo_environment [demo_ubuntu])
               [demo_record "7" "later" 0 false] demo_state in
  map msg_status (sink out.2) = [RUNNING; NOTRUN]
  /\ map status out.1.2 = [NOTRUN]
  /\ ~ In (status (hd running_record out.1.2))
         [PASSED; FAILED; SKIPPED; ATTEMPTED].
Proof.
  intros out. split; [reflexivity|]. split; [reflexivity|].
  vm_compute. intuition discriminate.
Qed.

(** The windows node fails a Linux requirement: it is the only node checked,
    with and without save_reason. *)
Lemma check_environment_stops_at_first_failure_witness :
  exists out out',
    check_environment demo_suites (demo_record "1" "hello" 0 false)
      (demo_environment [demo_ubuntu; demo_windows; demo_freebsd]) false
    = Some out
    /\ check_environment demo_suites (demo_record "1" "hello" 0 false)
         (demo_environment [demo_ubuntu; demo_windows; demo_freebsd]) true
       = Some out'
    /\ chk_nodes out = [demo_ubuntu; demo_windows]
    /\ chk_nodes out' = chk_nodes out
    /\ chk_return out' = chk_return out.
Proof.
  eexists.
  destruct (check_environment_stops_at_first_failure demo_suites
              (demo_record "1" "hello" 0 false)
              (demo_environment [demo_ubuntu; demo_windows; demo_freebsd])
              false _ eq_refl) as ((out' & Hout' & Hn & Hr) & _).
  exists out'. split; [reflexivity|]. split; [exact Hout'|].
  split; [reflexivity|]. split; [exact Hn | exact Hr].
Defined.

(** C7 as stated fails: with save_reason set and two failing nodes, only the
    first one is checked and explained. *)
Lemma save_reason_does_not_check_every_node :
  exists out,
    check_environment demo_suites (demo_record "1" "hello" 0 false)
      (demo_environment [demo_windows; demo_freebsd]) true = Some out
    /\ chk_nodes out = [demo_windows]
    /\ chk_nodes out <> [demo_windows; demo_freebsd]
    /\ (reasons <$> check_results (chk_self out))
       = Some ["os_type/capability cannot support some of requirement"].
Proof.
  eexists. split; [reflexivity|]. split; [reflexivity|].
  split; [discriminate | reflexivity].
Qed.


(** The stop signal leaves a third record untouched. *)
Example stop_leaves_later_cases_notrun :
  let out := start demo_suite (demo_environment [demo_ubuntu])
               (two_cases ++ [demo_record "3" "hello" 0 false]) demo_state in
  map status out.1.2 = [PASSED; PASSED; NOTRUN]
  /\ map msg_id_ (sink out.2) = ["1"; "1"; "2"; "2"].
Proof. split; reflexivity. Qed.

(** A requirement for Linux accepts an Ubuntu node through its ancestor
    chain; a requirement for Windows does not. *)
Example os_type_check_ancestors :
  result (os_type_check (mkSetSpace true ["Linux"])
            (mkSetSpace true (os_mro demo_ubuntu))) = true
  /\ result (os_type_check (mkSetSpace true ["Windows"])
               (mkSetSpace true (os_mro demo_ubuntu))) = false.
Proof. split; reflexivity. Qed.

(** A case registered after its suite is attached to it at once; a suite
    registered after its cases collects them, in their order of
    registration. *)
Example registration_attaches_cases :
  let late_case := (_add_case_metadata (demo_case "bye") demo_registry).1 in
  let orphans :=
    mkRegistry ∅ [("Demo.hello", mkCaseMetadata "hello" "Demo.hello" 2 "" None None);
                  ("Other.x", mkCaseMetadata "x" "Other.x" 2 "" None None);
                  ("Demo.bye", mkCaseMetadata "bye" "Demo.bye" 2 "" None None)] in
  let late_suite := (_add_suite_metadata demo_suite_metadata orphans).1 in
  (cases <$> _all_suites late_case !! "Demo") = Some ["Demo.bye"]
  /\ (cases <$> _all_suites late_suite !! "Demo")
     = Some ["Demo.hello"; "Demo.bye"]
  /\ map (fun entry => suite entry.2) (_all_cases late_suite)
     = [Some "Demo"; None; Some "Demo"].
Proof. repeat split; reflexivity. Qed.

(** Registering Demo, or Demo.hello, a second time. *)
Lemma duplicate_registration_leaves_registry_witness :
  _add_suite_metadata demo_suite_metadata demo_registry
  = (demo_registry, Some (duplicate_error "Demo"))
  /\ _add_case_metadata (demo_case "hello") demo_registry
     = (demo_registry, Some (duplicate_error "Demo.hello")).
Proof.
  destruct (duplicate_registration_leaves_registry demo_registry) as [Hs Hc].
  split.
  - destruct (Hs demo_suite_metadata "Demo" eq_refl) as [H _].
    apply H. eexists; reflexivity.
  - destruct (Hc (demo_case "hello")) as [H _].
    apply H. eexists; reflexivity.
Defined.

(** A fresh record announces itself as NOTRUN. *)
Lemma new_TestResult_emits_notrun_witness :
  map msg_status
    (sink (new_TestResult "1" (runtime_data (demo_record "1" "hello" 0 false))
             demo_state).2) = [NOTRUN].
Proof.
  destruct (new_TestResult_emits_notrun "1"
              (runtime_data (demo_record "1" "hello" 0 false)) demo_state)
    as (_ & _ & Hsink & Hst & _).
  rewrite Hsink. cbn [sink demo_state app map]. rewrite Hst. reflexivity.
Defined.

(** * Further properties *)

(** ** The message log and repeated transitions *)

Lemma append_empty_r (s : string) : s +:+ "" = s.
Proof.
  induction s as [|c s IH]; [reflexivity|].
  change (String c (s +:+ "") = String c s). f_equal. exact IH.
Qed.

Lemma append_assoc (a b c : string) : (a +:+ b) +:+ c = a +:+ (b +:+ c).
Proof.
  induction a as [|x a IH]; [reflexivity|].
  change (String x ((a +:+ b) +:+ c) = String x (a +:+ (b +:+ c))).
  f_equal. exact IH.
Qed.

Lemma message_log_extends (old text : string) :
  exists suffix, message_log old text = old +:+ suffix.
Proof.
  unfold message_log. destruct (str_truthy text).
  - destruct old as [|c old]; cbn [str_truthy].
    + exists text. reflexivity.
    + exists (newline +:+ text). reflexivity.
  - exists "". symmetry. apply append_empty_r.
Qed.

Section LogProperties.

Context {W : Type}.

Implicit Types (st : @RunState W) (self : TestResult).

Lemma with_message_same self : with_message self (message self) = self.
Proof. destruct self; reflexivity. Qed.

(** X1: repeating a transition with an empty message changes nothing:
    after any call of set_status, a second call with the same status and an
    empty message (an empty string or an empty list) returns the record and
    the state as the first call left them; no message is sent, the message
    log does not grow and the timer is not started again. *)
Theorem set_status_repeat_is_noop self (s : TestStatus) (arg : MessageArg) st :
  let out := set_status self s arg st in
  set_status out.1 s (MsgStr "") out.2 = out
  /\ set_status out.1 s (MsgList []) out.2 = out.
Proof.
  intros out. pose proof (set_status_status self s arg st) as Hs.
  fold out in Hs. destruct out as [r st1]. cbn [fst snd] in *.
  split.
  - rewrite set_status_str, bool_decide_eq_true_2 by exact Hs.
    unfold message_log. cbn [str_truthy]. rewrite with_message_same.
    reflexivity.
  - unfold set_status. cbn [MessageArg_truthy].
    rewrite bool_decide_eq_false_2 by (intros Hne; exact (Hne Hs)).
    reflexivity.
Qed.

(** X2: set_status and handle_exception never drop what the message log
    holds: the log after the call is the log before it followed by what the
    call added, whether the message is a string or a list of strings. *)
Theorem set_status_keeps_history self (s : TestStatus) (arg : MessageArg)
    (e : PyException) (phase : string) st :
  (exists suffix,
     message (set_status self s arg st).1 = message self +:+ suffix)
  /\ (exists suffix,
        message (handle_exception self e phase st).1
        = message self +:+ suffix).
Proof.
  assert (Hset : forall s' arg',
             exists suffix,
               message (set_status self s' arg' st).1 = message self +:+ suffix).
  { intros s' arg'. unfold set_status, bind, ret, create_timer.
    set (self1 := if MessageArg_truthy arg' then _ else self).
    assert (Hlog : exists suffix, message self1 = message self +:+ suffix).
    { subst self1. destruct (MessageArg_truthy arg') eqn:Harg.
      - cbn [message with_message]. destruct arg' as [text | parts].
        + cbn in Harg.
          destruct (message_log_extends (message self) text) as [suffix Hsuf].
          exists suffix. rewrite <- Hsuf. unfold message_log. rewrite Harg.
          destruct (str_truthy (message self)); reflexivity.
        + destruct parts as [|p parts]; [discriminate|].
          destruct (message self) as [|c old] eqn:Hold; cbn [str_truthy].
          * eexists. reflexivity.
          * exists (newline +:+ str_join newline (p :: parts)). reflexivity.
      - exists "". symmetry. apply append_empty_r. }
    destruct Hlog as [suffix Hsuf]. exists suffix. rewrite <- Hsuf.
    repeat case_bool_decide; rewrite ?send_result_message_eq; cbn [fst];
      rewrite ?sent_message; reflexivity. }
  split; [apply Hset|].
  destruct (handle_exception_is_set_status self e phase st)
    as (s' & text & _ & ->).
  apply Hset.
Qed.

End LogProperties.

(** ** More on one iteration of the loop *)

Section IterationProperties.

Context {W : Type}.

Variable self : @TestSuite W.

Implicit Types (st : @RunState W) (kw : Kwargs) (case_result : TestResult).

Lemma transitioned_environment case_result (s : TestStatus) (text : string)
    (now : Z) :
  environment (transitioned case_result s text now) = environment case_result.
Proof.
  unfold transitioned, sent.
  destruct case_result as [? ? ? ? ? ? ? ? [t|]];
    case_bool_decide; reflexivity.
Qed.

Lemma transitioned_information case_result (s : TestStatus) (text : string)
    (now : Z) :
  information (transitioned case_result s text now)
  = merged_information case_result.
Proof.
  unfold transitioned. rewrite sent_information.
  case_bool_decide; reflexivity.
Qed.

Lemma transitioned_timer case_result (s : TestStatus) (text : string)
    (now : Z) :
  _timer (transitioned case_result s text now)
  = if bool_decide (s = RUNNING) then Some now else _timer case_result.
Proof.
  unfold transitioned. rewrite sent_timer. case_bool_decide; reflexivity.
Qed.

Lemma transitioned_elapsed case_result (s : TestStatus) (text : string)
    (now : Z) :
  elapsed (transitioned case_result s text now)
  = match _timer (transitioned case_result s text now) with
    | Some t0 => now - t0
    | None => elapsed case_result
    end.
Proof.
  rewrite transitioned_timer. unfold transitioned. rewrite sent_elapsed.
  case_bool_decide; cbn [_timer with_timer with_status with_message elapsed];
    reflexivity.
Qed.

(** What the entry into RUNNING leaves. *)
Lemma running_step case_result st ra sta :
  set_status case_result RUNNING (MsgStr "") st = (ra, sta) ->
  status ra = RUNNING
  /\ id_ ra = id_ case_result
  /\ runtime_data ra = runtime_data case_result
  /\ environment ra = environment case_result
  /\ message ra = message case_result
  /\ (if bool_decide (status case_result = RUNNING)
      then ra = case_result /\ sta = st
      else information ra = merged_information case_result
           /\ _timer ra = Some (clock st)
           /\ elapsed ra = 0
           /\ sta = emit st (result_message_of ra)).
Proof.
  rewrite set_status_str. case_bool_decide as Hs.
  - intros [= <- <-]. unfold message_log. cbn [str_truthy].
    rewrite with_message_same. repeat split; auto.
  - intros [= <- <-].
    rewrite transitioned_status, transitioned_id, transitioned_runtime_data,
      transitioned_environment, transitioned_message,
      transitioned_information, transitioned_elapsed, transitioned_timer.
    rewrite bool_decide_eq_true_2 by reflexivity.
    repeat split; auto. apply Z.sub_diag.
Qed.

Lemma before_case_cases case_result kw st (b : bool) r' st' :
  __before_case self case_result kw st = ((b, r'), st') ->
  exists res st1,
    retry_call
      (call_hook (CallBeforeCase (name (metadata (runtime_data case_result))))
         (before_case self) kw)
      (retry (runtime_data case_result) + 1) st = (res, st1)
    /\ match res with
       | None => b = true /\ r' = case_result /\ st' = st1
       | Some e =>
           b = false
           /\ set_status case_result SKIPPED
                (MsgStr ("before_case: " +:+ exc_str e)) st1 = (r', st')
       end.
Proof.
  unfold __before_case, bind, ret.
  destruct (retry_call _ _ st) as [[e|] st1] eqn:E.
  - destruct (set_status case_result SKIPPED _ st1) as [r2 st2] eqn:E2.
    intros [= <- <- <-]. exists (Some e), st1. auto.
  - intros [= <- <- <-]. exists None, st1. auto.
Qed.

Lemma run_case_cases case_result kw st r' st' :
  __run_case self case_result kw st = (r', st') ->
  exists res st1 s text,
    retry_call
      (call_hook (CallCase (name (metadata (runtime_data case_result))))
         (test_method self (name (metadata (runtime_data case_result)))) kw)
      (retry (runtime_data case_result) + 1) st = (res, st1)
    /\ s <> RUNNING
    /\ set_status case_result s (MsgStr text) st1 = (r', st')
    /\ (res = None -> s = PASSED /\ text = "").
Proof.
  unfold __run_case, bind.
  destruct (retry_call _ _ st) as [[e|] st1] eqn:E.
  - destruct (handle_exception_is_set_status case_result e "" st1)
      as (s & text & Hs & ->).
    intros E2. exists (Some e), st1, s, text. repeat split; auto; discriminate.
  - intros E2. exists None, st1, PASSED, "". repeat split; auto; discriminate.
Qed.

(** The shape of every decision: the record enters RUNNING, the hooks run
    without touching the sink, and one change of status, away from RUNNING,
    closes the decision. *)
Lemma decide_case_final (environment : Environment) kw
    (is_suite_continue : bool) (suite_error_message : string) case_result st
    r1 kw1 st1 :
  decide_case self environment kw is_suite_continue suite_error_message
    case_result st = ((r1, kw1), st1) ->
  let case_name := name (metadata (runtime_data case_result)) in
  let tries := (retry (runtime_data case_result) + 1)%nat in
  exists ra sta stb s text (a b : nat),
    set_status (with_environment case_result (Some environment)) RUNNING
      (MsgStr "") st = (ra, sta)
    /\ s <> RUNNING
    /\ r1 = transitioned ra s text (clock stb)
    /\ st1 = emit stb (result_message_of r1)
    /\ sink stb = sink sta
    /\ calls stb = calls sta ++ repeat (CallBeforeCase case_name) a
                     ++ repeat (CallCase case_name) b
    /\ (a <= tries)%nat /\ (b <= tries)%nat
    /\ (if is_suite_continue then (1 <= a)%nat
        else a = 0%nat /\ b = 0%nat /\ s = SKIPPED
             /\ text = suite_error_message)
    /\ (_should_stop sta = true -> _should_stop stb = true).
Proof.
  unfold decide_case, bind, ret. cbn zeta.
  set (r0 := with_environment case_result (Some environment)).
  set (ckw := mkKwargs _ _ _).
  destruct (set_status r0 RUNNING (MsgStr "") st) as [ra sta] eqn:E1.
  destruct (running_step _ _ _ _ E1) as (Hsta & _ & Hrd & _).
  assert (Hrd0 : runtime_data ra = runtime_data case_result)
    by (rewrite Hrd; reflexivity).
  destruct is_suite_continue.
  - destruct (__before_case self ra ckw sta) as [[b rb] stb] eqn:E2.
    destruct (before_case_cases _ _ _ _ _ _ E2) as (res & st2 & Er & Hres).
    rewrite Hrd0 in Er.
    destruct (retry_call_frame _ _ _ _ _ _ _ Er)
      as (Hs2 & Hf2 & na & Hna & Hpa & Hca).
    destruct res as [e|].
    + destruct Hres as (-> & E3). intros [= <- <- <-].
      assert (Hne : status ra <> SKIPPED) by congruence.
      destruct (set_status_changes _ _ _ _ _ _ Hne E3) as [-> ->].
      exists ra, sta, st2, SKIPPED, ("before_case: " +:+ exc_str e), na, 0%nat.
      cbn [repeat]. rewrite app_nil_r.
      repeat split; auto; try lia; try discriminate.
    + destruct Hres as (-> & -> & ->).
      destruct (__run_case self ra ckw st2) as [rc stc] eqn:E3.
      destruct (run_case_cases _ _ _ _ _ E3) as (res & st3 & s & text & Er3 & Hs & E4 & _).
      rewrite Hrd0 in Er3.
      destruct (retry_call_frame _ _ _ _ _ _ _ Er3)
        as (Hs3 & Hf3 & nb & Hnb & Hpb & Hcb).
      intros [= <- <- <-].
      assert (Hne : status ra <> s) by congruence.
      destruct (set_status_changes _ _ _ _ _ _ Hne E4) as [-> ->].
      exists ra, sta, st3, s, text, na, nb.
      repeat split; auto; try lia.
      * congruence.
      * rewrite Hcb, Hca, <- app_assoc. reflexivity.
  - destruct (set_status ra SKIPPED (MsgStr suite_error_message) sta)
      as [rb stb] eqn:E2.
    intros [= <- <- <-].
    assert (Hne : status ra <> SKIPPED) by congruence.
    destruct (set_status_changes _ _ _ _ _ _ Hne E2) as [-> ->].
    exists ra, sta, sta, SKIPPED, suite_error_message, 0%nat, 0%nat.
    cbn [repeat]. rewrite !app_nil_r.
    repeat split; auto; try lia; try discriminate.
Qed.

Lemma reports_on_result_message (ids : list string) case_result :
  In (id_ case_result) ids -> reports_on ids (result_message_of case_result).
Proof.
  intros Hin. unfold reports_on, result_message_of.
  cbn [msg_id_ msg_type msg_message].
  repeat split; auto. apply str_slice_to_length.
Qed.

Lemma reports_on_mono (ids ids' : list string) (m : TestResultMessage) :
  (forall i, In i ids -> In i ids') -> reports_on ids m -> reports_on ids' m.
Proof. intros Hsub (Hin & Ht & Hl). repeat split; auto. Qed.

(** One iteration, whatever the status of the record before it. *)
Lemma run_one_case_more (environment : Environment) kw
    (is_suite_continue : bool) (suite_error_message : string) case_result st
    r' st' :
  run_one_case self environment kw is_suite_continue suite_error_message
    case_result st = (r', st') ->
  status r' <> RUNNING
  /\ id_ r' = id_ case_result
  /\ exists l, sink st' = sink st ++ l
               /\ Forall (reports_on [id_ case_result]) l
               /\ (length l <= 2)%nat.
Proof.
  unfold run_one_case, bind.
  destruct (decide_case _ _ _ _ _ _ st) as [[r1 kw1] st1] eqn:E1.
  destruct (decide_case_final _ _ _ _ _ _ _ _ _ E1)
    as (ra & sta & stb & s & text & a & b & Era & Hs & -> & -> & Hsb & _).
  destruct (running_step _ _ _ _ Era) as (_ & Hid & _ & _ & _ & Hrun).
  cbn [id_ with_environment status] in Hid, Hrun.
  intros E2. destruct (after_case_spec _ _ _ _ _ _ E2) as (-> & Hs2 & _).
  rewrite transitioned_status, transitioned_id, Hid.
  split; [exact Hs|]. split; [reflexivity|].
  rewrite Hs2. cbn [emit sink]. rewrite Hsb.
  assert (Hlast : reports_on [id_ case_result]
                    (result_message_of
                       (transitioned ra s text (clock stb)))).
  { apply reports_on_result_message. rewrite transitioned_id, Hid. left; reflexivity. }
  case_bool_decide.
  - destruct Hrun as [_ ->].
    exists [result_message_of (transitioned ra s text (clock stb))].
    split; [reflexivity|].
    split; [constructor; [exact Hlast | constructor] | cbn; lia].
  - destruct Hrun as (_ & _ & _ & ->). cbn [emit sink].
    rewrite <- app_assoc.
    exists [result_message_of ra;
            result_message_of (transitioned ra s text (clock stb))].
    split; [reflexivity|].
    split; [|cbn; lia].
    constructor; [|constructor; [exact Hlast | constructor]].
    apply reports_on_result_message. rewrite Hid. left; reflexivity.
Qed.

(** X3: every record that start processes is bound to the environment of
    the run, and leaves its iteration with the information of that
    environment merged into its own: on a key both maps have, the value of
    the environment wins; the other entries of the record are kept. *)
Theorem run_one_case_binds_environment (env : Environment) kw
    (is_suite_continue : bool) (suite_error_message : string) case_result st :
  let out :=
    run_one_case self env kw is_suite_continue suite_error_message
      case_result st in
  environment out.1 = Some env
  /\ information out.1
     = env_information env ∪ information case_result
  /\ (forall key value,
        env_information env !! key = Some value ->
        information out.1 !! key = Some value)
  /\ (forall key,
        env_information env !! key = None ->
        information out.1 !! key = information case_result !! key).
Proof.
  intros out.
  assert (Hout : environment out.1 = Some env
                 /\ information out.1
                    = env_information env ∪ information case_result).
  { subst out. unfold run_one_case, bind.
    destruct (decide_case _ _ _ _ _ _ st) as [[r1 kw1] st1] eqn:E1.
    destruct (decide_case_final _ _ _ _ _ _ _ _ _ E1)
      as (ra & sta & stb & s & text & a & b & Era & Hs & -> & -> & _).
    destruct (running_step _ _ _ _ Era) as (_ & _ & _ & Henv & _ & Hrun).
    cbn [environment with_environment status] in Henv, Hrun.
    destruct (__after_case self _ kw1 _) as [r2 st2] eqn:E2.
    destruct (after_case_spec _ _ _ _ _ _ E2) as (-> & _).
    cbn [fst]. rewrite transitioned_environment, transitioned_information.
    split; [exact Henv|].
    unfold merged_information. rewrite Henv.
    case_bool_decide.
    - destruct Hrun as [-> _]. reflexivity.
    - destruct Hrun as (-> & _). unfold merged_information.
      cbn [environment with_environment information].
      rewrite (assoc (∪)), (idemp (∪) (env_information env)).
      reflexivity. }
  destruct Hout as [Henv Hinfo]. split; [exact Henv|]. split; [exact Hinfo|].
  rewrite Hinfo. split.
  - intros key value Hk. apply lookup_union_Some_l. exact Hk.
  - intros key Hk. apply lookup_union_r. exact Hk.
Qed.

(** X4: what the notifier last heard about a record is what the record
    says when its iteration ends: the last message in the sink is the
    message of the record that the iteration returns, with its status, its
    elapsed time, its text and its information.  The elapsed time of the
    record is the one read when the case was decided: after_case runs
    afterwards, and it neither changes the record nor sends a message. *)
Theorem last_message_describes_record (env : Environment) kw
    (is_suite_continue : bool) (suite_error_message : string) case_result st :
  let decided :=
    decide_case self env kw is_suite_continue suite_error_message
      case_result st in
  let out :=
    run_one_case self env kw is_suite_continue suite_error_message
      case_result st in
  last (sink out.2) = Some (result_message_of out.1)
  /\ last (sink decided.2) = Some (result_message_of out.1)
  /\ elapsed out.1 = elapsed decided.1.1
  /\ msg_elapsed (result_message_of out.1) = elapsed decided.1.1.
Proof.
  intros decided out. subst decided out. unfold run_one_case, bind.
  destruct (decide_case _ _ _ _ _ _ st) as [[r1 kw1] st1] eqn:E1.
  destruct (decide_case_final _ _ _ _ _ _ _ _ _ E1)
    as (ra & sta & stb & s & text & a & b & _ & _ & Hr1 & -> & _).
  destruct (__after_case self r1 kw1 _) as [r2 st2] eqn:E2.
  destruct (after_case_spec _ _ _ _ _ _ E2) as (-> & Hs2 & _).
  cbn [fst snd]. rewrite Hs2. cbn [emit sink].
  rewrite last_snoc. auto.
Qed.

(** X5: the invocations of one iteration come in a fixed order and number:
    first before_case, then the case body, then after_case, each at most
    retry + 1 times; after_case is invoked at least once in every
    iteration, before_case at least once when the suite setup succeeded,
    and neither before_case nor the body when it failed. *)
Theorem iteration_call_order (env : Environment) kw
    (is_suite_continue : bool) (suite_error_message : string) case_result st :
  let out :=
    run_one_case self env kw is_suite_continue suite_error_message
      case_result st in
  let case_name := name (metadata (runtime_data case_result)) in
  let tries := (retry (runtime_data case_result) + 1)%nat in
  exists a b c : nat,
    calls out.2
    = calls st ++ repeat (CallBeforeCase case_name) a
        ++ repeat (CallCase case_name) b
        ++ repeat (CallAfterCase case_name) c
    /\ (a <= tries)%nat /\ (b <= tries)%nat /\ (1 <= c <= tries)%nat
    /\ (if is_suite_continue then (1 <= a)%nat
        else a = 0%nat /\ b = 0%nat).
Proof.
  intros out case_name tries. subst out. unfold run_one_case, bind.
  destruct (decide_case _ _ _ _ _ _ st) as [[r1 kw1] st1] eqn:E1.
  destruct (decide_case_final _ _ _ _ _ _ _ _ _ E1)
    as (ra & sta & stb & s & text & a & b & Era & Hs & -> & ->
        & _ & Hc & Ha & Hb & Hcont & _).
  pose proof (set_status_frame (with_environment case_result (Some env))
                RUNNING (MsgStr "") st) as (_ & _ & _ & Hca).
  destruct (running_step _ _ _ _ Era) as (_ & _ & Hrd & _).
  rewrite Era in Hca. cbn [snd] in Hca.
  destruct (__after_case self _ kw1 _) as [r2 st2] eqn:E2.
  destruct (after_case_spec _ _ _ _ _ _ E2) as (_ & _ & _ & c & Hcn & Hc2).
  rewrite transitioned_runtime_data, Hrd in Hc2, Hcn.
  cbn [runtime_data with_environment] in Hc2, Hcn.
  exists a, b, c. cbn [snd]. rewrite Hc2. cbn [emit calls].
  rewrite Hc, Hca, <- !app_assoc. fold case_name.
  repeat split; auto; try lia.
  destruct is_suite_continue; tauto.
Qed.

(** X6: when before_case raises on each of its retry + 1 attempts, the case
    is SKIPPED with the text before_case: followed by the last error added
    to its message log, the case body is not invoked, and after_case still
    runs. *)
Theorem before_case_exhausted_skips_case (env : Environment) kw
    (suite_error_message : string) case_result st :
  let case_name := name (metadata (runtime_data case_result)) in
  let case_kwargs :=
    mkKwargs (kw_environment kw) (kw_node kw) (Some case_name) in
  let r := retry (runtime_data case_result) in
  (forall j, (j <= r)%nat ->
     hk_raised (attempt (before_case self) case_kwargs j (world st)) <> None) ->
  let out :=
    run_one_case self env kw true suite_error_message case_result st in
  exists (e : PyException) (c : nat),
    hk_raised (attempt (before_case self) case_kwargs r (world st)) = Some e
    /\ status out.1 = SKIPPED
    /\ message out.1
       = message_log (message case_result) ("before_case: " +:+ exc_str e)
    /\ (1 <= c <= r + 1)%nat
    /\ calls out.2
       = calls st ++ repeat (CallBeforeCase case_name) (r + 1)
           ++ repeat (CallAfterCase case_name) c.
Proof.
  intros case_name case_kwargs r Hall out. subst out.
  unfold run_one_case, decide_case, bind, ret. cbn zeta.
  fold case_name. fold case_kwargs.
  set (r0 := with_environment case_result (Some env)).
  destruct (set_status r0 RUNNING (MsgStr "") st) as [ra sta] eqn:E1.
  pose proof (set_status_frame r0 RUNNING (MsgStr "") st) as (Hw & _ & _ & Hca).
  rewrite E1 in Hw, Hca. cbn [snd] in Hw, Hca.
  destruct (running_step _ _ _ _ E1) as (Hsta & _ & Hrd & _ & Hmsg & _).
  cbn [runtime_data message with_environment r0] in Hrd, Hmsg.
  destruct (__before_case self ra case_kwargs sta) as [[b rb] stb] eqn:E2.
  destruct (before_case_cases _ _ _ _ _ _ E2) as (res & st2 & Er & Hres).
  rewrite Hrd in Er. fold case_name in Er. fold r in Er.
  rewrite Nat.add_1_r in Er.
  rewrite <- Hw in Hall.
  destruct (retry_call_exhausted _ _ _ _ _ _ _ Er Hall) as [Hlast Hcalls].
  destruct (hk_raised (attempt (before_case self) case_kwargs r (world sta)))
    as [e|] eqn:He; [|exfalso; apply (Hall r); [lia | exact He]].
  subst res. destruct Hres as [-> E3].
  pose proof (set_status_status ra SKIPPED
                (MsgStr ("before_case: " +:+ exc_str e)) st2) as Hst.
  pose proof (set_status_message ra SKIPPED
                ("before_case: " +:+ exc_str e) st2) as Hm.
  pose proof (set_status_frame ra SKIPPED
                (MsgStr ("before_case: " +:+ exc_str e)) st2) as (_ & _ & _ & Hcb).
  pose proof (set_status_runtime_data ra SKIPPED
                (MsgStr ("before_case: " +:+ exc_str e)) st2) as [Hrdb _].
  rewrite E3 in Hst, Hm, Hcb, Hrdb. cbn [fst snd] in Hst, Hm, Hcb, Hrdb.
  destruct (__after_case self rb case_kwargs stb) as [r2 st3] eqn:E4.
  destruct (after_case_spec _ _ _ _ _ _ E4) as (-> & _ & _ & c & Hcn & Hc2).
  rewrite Hrdb, Hrd in Hc2, Hcn. fold case_name in Hc2. fold r in Hcn.
  exists e, c. cbn [fst snd]. rewrite <- Hw.
  repeat split; auto; try lia.
  - rewrite Hm, Hmsg. reflexivity.
  - rewrite Hc2, Hcb, Hcalls, Hca, Nat.add_1_r, <- app_assoc. reflexivity.
Qed.

End IterationProperties.

(** ** More on the whole run *)

Section RunProperties.

Context {W : Type}.

Variable self : @TestSuite W.

Implicit Types (st : @RunState W) (kw : Kwargs) (case_result : TestResult).

Lemma case_loop_more (env : Environment) kw (is_suite_continue : bool)
    (suite_error_message : string) (case_results : list TestResult) :
  forall st rs' st',
    case_loop self env kw is_suite_continue suite_error_message case_results
      st = (rs', st') ->
    map id_ rs' = map id_ case_results
    /\ (Forall (fun r => status r <> RUNNING) case_results ->
        Forall (fun r => status r <> RUNNING) rs')
    /\ exists l, sink st' = sink st ++ l
                 /\ Forall (reports_on (map id_ case_results)) l
                 /\ (length l <= 2 * length case_results)%nat.
Proof.
  induction case_results as [|r rest IH]; intros st rs' st'.
  - cbn. intros [= <- <-]. repeat split; auto.
    exists []. rewrite app_nil_r. repeat split; auto.
  - rewrite case_loop_cons.
    destruct (run_one_case _ _ _ _ _ r st) as [r1 st1] eqn:E1.
    destruct (run_one_case_more _ _ _ _ _ _ _ _ _ E1)
      as (Hst & Hid & l1 & Hs1 & Hl1 & Hn1).
    assert (Hl1' : Forall (reports_on (map id_ (r :: rest))) l1).
    { eapply Forall_impl; [exact Hl1|]. intros m. apply reports_on_mono.
      intros i [<- | []]. left; reflexivity. }
    destruct (_should_stop st1).
    + intros [= <- <-]. cbn [map]. rewrite Hid. repeat split; auto.
      * intros Hall. apply Forall_cons_1 in Hall as [_ Hall].
        constructor; auto.
      * exists l1. repeat split; auto. cbn [length]. lia.
    + destruct (case_loop _ _ _ _ _ rest st1) as [rest' st2] eqn:E2.
      destruct (IH _ _ _ E2) as (Hids & Hrun & l2 & Hs2 & Hl2 & Hn2).
      intros [= <- <-]. cbn [map]. rewrite Hid, Hids. repeat split; auto.
      * intros Hall. apply Forall_cons_1 in Hall as [_ Hall].
        constructor; auto.
      * exists (l1 ++ l2). rewrite Hs2, Hs1, <- app_assoc.
        split; [reflexivity|]. split.
        -- apply Forall_app; split; [exact Hl1'|].
           eapply Forall_impl; [exact Hl2|]. intros m. apply reports_on_mono.
           intros i Hi. right; exact Hi.
        -- rewrite length_app. cbn [length]. lia.
Qed.

Lemma concat_empty_groups {A B} (l : list B) :
  concat (map (fun _ => @nil A) l) = [].
Proof. induction l; cbn; auto. Qed.

(** The messages of the loop, record by record. *)
Lemma case_loop_groups (env : Environment) kw (is_suite_continue : bool)
    (suite_error_message : string) (case_results : list TestResult) :
  forall st rs' st',
    case_loop self env kw is_suite_continue suite_error_message case_results
      st = (rs', st') ->
    exists groups : list (list TestResultMessage),
      sink st' = sink st ++ concat groups
      /\ Forall2 (fun r group =>
                    (length group <= 2)%nat
                    /\ Forall (reports_on [id_ r]) group)
           case_results groups.
Proof.
  induction case_results as [|r rest IH]; intros st rs' st'.
  - cbn. intros [= <- <-]. exists []. cbn. rewrite app_nil_r.
    split; [reflexivity | constructor].
  - rewrite case_loop_cons.
    destruct (run_one_case _ _ _ _ _ r st) as [r1 st1] eqn:E1.
    destruct (run_one_case_more _ _ _ _ _ _ _ _ _ E1)
      as (_ & _ & l1 & Hs1 & Hl1 & Hn1).
    destruct (_should_stop st1).
    + intros [= <- <-].
      exists (l1 :: map (fun _ => []) rest). cbn [concat].
      rewrite concat_empty_groups, app_nil_r.
      split; [exact Hs1|]. constructor; [auto|].
      clear. induction rest; cbn; constructor; auto.
    + destruct (case_loop _ _ _ _ _ rest st1) as [rest' st2] eqn:E2.
      destruct (IH _ _ _ E2) as (groups & Hs2 & Hg).
      intros [= <- <-]. exists (l1 :: groups). cbn [concat].
      rewrite Hs2, Hs1, <- app_assoc. split; [reflexivity|].
      constructor; auto.
Qed.

(** X7: start only reports on the records it is given, and at most twice
    on each: the messages it adds to the sink come in groups, one group for
    each record of the list and in the order of the list; a group has at
    most two messages, and each of them is a test-result message that
    carries the id of the record of the group and a text of at most 2048
    characters. *)
Theorem start_reports_on_given_records (env : Environment)
    (case_results : list TestResult) st :
  let out := start self env case_results st in
  exists groups : list (list TestResultMessage),
    sink out.2 = sink st ++ concat groups
    /\ Forall2 (fun r group =>
                  (length group <= 2)%nat
                  /\ forall m, In m group ->
                       msg_id_ m = id_ r
                       /\ msg_type m = "TestResult"
                       /\ (String.length (msg_message m) <= 2048)%nat)
         case_results groups.
Proof.
  intros out. subst out. rewrite start_eq. cbn zeta.
  rewrite suite_method_eq. cbn [fst snd].
  set (kw := suite_kwargs (mark_used env)).
  set (verdict := match hk_raised (before_suite self kw (world st)) with
                  | Some identifier => _
                  | None => _
                  end).
  destruct (case_loop self (mark_used env) kw verdict.1 verdict.2
              case_results (call_hook CallBeforeSuite (before_suite self) kw st).2)
    as [rs' st1] eqn:E.
  destruct (case_loop_groups _ _ _ _ _ _ _ _ E) as (groups & Hs & Hg).
  exists groups. rewrite !call_hook_eq in *. cbn [fst snd sink] in *.
  split; [exact Hs|].
  eapply Forall2_impl; [exact Hg|].
  intros r group [Hn Hall]. split; [exact Hn|].
  intros m Hm. rewrite Forall_forall in Hall.
  apply list_elem_of_In, Hall in Hm. destruct Hm as ([Hid | []] & Ht & Hl).
  auto.
Qed.

(** X8: start never leaves a record RUNNING: if no record of the list is
    RUNNING when start is called, none is when it returns, whatever the
    hooks and case bodies do. *)
Theorem start_leaves_no_record_running (env : Environment)
    (case_results : list TestResult) st :
  Forall (fun r => status r <> RUNNING) case_results ->
  let out := start self env case_results st in
  Forall (fun r => status r <> RUNNING) out.1.2
  /\ map id_ out.1.2 = map id_ case_results.
Proof.
  intros Hall out. subst out. rewrite start_eq. cbn zeta. cbn [fst snd].
  match goal with
  | |- context [case_loop ?a ?b ?c ?d ?e ?f ?g] =>
      destruct (case_loop a b c d e f g) as [rs' st1] eqn:E
  end.
  destruct (case_loop_more _ _ _ _ _ _ _ _ E) as (Hids & Hrun & _).
  cbn [fst]. split; [apply Hrun; exact Hall | exact Hids].
Qed.

(** X9: start never clears the stop flag.  If the flag is already set when
    start is called, the loop runs the first record and stops: every later
    record is returned untouched, and the flag is still set at the end. *)
Theorem start_with_stop_set_runs_one_case (env : Environment)
    (case_result : TestResult) (rest : list TestResult) st :
  _should_stop st = true ->
  let out := start self env (case_result :: rest) st in
  _should_stop out.2 = true
  /\ tail out.1.2 = rest
  /\ length out.1.2 = S (length rest).
Proof.
  intros Hstop out. subst out. rewrite start_eq. cbn zeta.
  rewrite suite_method_eq. cbn [fst snd].
  set (kw := suite_kwargs (mark_used env)).
  set (verdict := match hk_raised (before_suite self kw (world st)) with
                  | Some identifier => _
                  | None => _
                  end).
  set (st0 := (call_hook CallBeforeSuite (before_suite self) kw st).2).
  assert (Hst0 : _should_stop st0 = true).
  { subst st0. rewrite call_hook_eq. cbn. rewrite Hstop. reflexivity. }
  rewrite case_loop_cons.
  destruct (run_one_case self (mark_used env) kw verdict.1 verdict.2
              case_result st0) as [r1 st1] eqn:E1.
  destruct (run_one_case_spec _ _ _ _ _ _ _ _ _ E1) as (_ & Hf & _).
  rewrite (Hf Hst0). cbn [fst snd]. rewrite call_hook_eq.
  cbn [snd _should_stop tail length]. rewrite (Hf Hst0). auto.
Qed.

End RunProperties.

(** ** More on the registry *)

Lemma dict_get_app {A} (l1 l2 : list (string * A)) (key : string) :
  dict_get (l1 ++ l2) key
  = match dict_get l1 key with
    | Some v => Some v
    | None => dict_get l2 key
    end.
Proof.
  induction l1 as [|[k v] l1 IH]; [reflexivity|].
  cbn [app dict_get]. case_bool_decide; [reflexivity | exact IH].
Qed.

Lemma dict_get_None {A} (d : list (string * A)) (key : string) :
  dict_get d key = None <-> ~ In key (map fst d).
Proof.
  induction d as [|[k v] d IH]; cbn [dict_get map fst In]; [tauto|].
  case_bool_decide; split.
  - discriminate.
  - intros Hn. exfalso. apply Hn. left. assumption.
  - intros Hd [Hk | Hin]; [contradiction | tauto].
  - intros Hn. apply IH. tauto.
Qed.

Lemma dict_get_In {A} (d : list (string * A)) (key : string) (v : A) :
  dict_get d key = Some v -> In (key, v) d.
Proof.
  induction d as [|[k w] d IH]; cbn [dict_get In]; [discriminate|].
  case_bool_decide; [intros [= <-]; subst; auto | auto].
Qed.

Lemma dict_get_keys {A B} (d : list (string * A)) (d' : list (string * B))
    (key : string) :
  map fst d = map fst d' ->
  is_Some (dict_get d key) -> is_Some (dict_get d' key).
Proof.
  intros Hk Hs. destruct (dict_get d' key) eqn:E; [eauto|].
  apply dict_get_None in E. rewrite <- Hk in E.
  apply dict_get_None in E. rewrite E in Hs. destruct Hs; discriminate.
Qed.

Lemma dict_set_fresh {A} (d : list (string * A)) (key : string) (v : A) :
  dict_get d key = None -> dict_set d key v = d ++ [(key, v)].
Proof.
  induction d as [|[k w] d IH]; cbn [dict_get dict_set app]; [reflexivity|].
  case_bool_decide; [discriminate|]. intros Hd. rewrite IH by exact Hd.
  reflexivity.
Qed.

Lemma dict_set_app_r {A} (l1 l2 : list (string * A)) (key : string) (v : A) :
  dict_get l1 key = None ->
  dict_set (l1 ++ l2) key v = l1 ++ dict_set l2 key v.
Proof.
  induction l1 as [|[k w] l1 IH]; cbn [dict_get dict_set app]; [reflexivity|].
  case_bool_decide; [discriminate|]. intros Hd. rewrite IH by exact Hd.
  reflexivity.
Qed.

Lemma alter_inserted {A} (f : A -> A) (key : string) (x : A)
    (m : gmap string A) :
  alter f key (<[key := x]> m) = <[key := f x]> m.
Proof.
  apply map_eq. intros k. rewrite lookup_alter.
  destruct (decide (key = k)) as [->|Hne].
  - rewrite !lookup_insert_eq. reflexivity.
  - rewrite !lookup_insert_ne by exact Hne. reflexivity.
Qed.

Lemma alter_present {A} (f : A -> A) (key : string) (x : A)
    (m : gmap string A) :
  m !! key = Some x -> alter f key m = <[key := f x]> m.
Proof.
  intros Hx. rewrite <- (insert_id m key x Hx) at 1. rewrite alter_inserted.
  reflexivity.
Qed.

Lemma startswith_cons (x c : Ascii.ascii) (s prefix : string) :
  startswith (String x s) (String c prefix)
  = if Ascii.eqb c x then startswith s prefix else false.
Proof. reflexivity. Qed.

(** The two tests that decide whether a case belongs to a suite agree when
    the key of the suite has no dot. *)
Lemma prefix_is_split_head (fn key : string) :
  dot_free key = true ->
  startswith fn (key +:+ ".") = true -> split_dot_head fn = key.
Proof.
  revert fn. induction key as [|c key IH]; intros fn Hfree Hpre.
  - change ("" +:+ ".") with (String (Ascii.ascii_of_nat 46) "") in Hpre.
    destruct fn as [|x fn]; [discriminate|].
    rewrite startswith_cons in Hpre. cbn [split_dot_head].
    rewrite Ascii.eqb_sym.
    destruct (Ascii.eqb (Ascii.ascii_of_nat 46) x); [reflexivity | discriminate].
  - change (String c key +:+ ".") with (String c (key +:+ ".")) in Hpre.
    destruct fn as [|x fn]; [discriminate|].
    rewrite startswith_cons in Hpre. cbn [dot_free] in Hfree.
    destruct (Ascii.eqb c x) eqn:Hcx; [|discriminate].
    apply Ascii.eqb_eq in Hcx. subst x.
    destruct (Ascii.eqb c (Ascii.ascii_of_nat 46)) eqn:Hdot; [discriminate|].
    cbn [split_dot_head]. rewrite Hdot. f_equal. apply IH; assumption.
Qed.

(** [_add_case_metadata] on a free name, in closed form. *)
Lemma add_case_metadata_eq (metadata : TestCaseMetadata) (reg : Registry) :
  dict_get (_all_cases reg) (full_name metadata) = None ->
  _add_case_metadata metadata reg
  = (match _all_suites reg !! split_dot_head (full_name metadata) with
     | Some test_suite =>
         mkRegistry
           (<[split_dot_head (full_name metadata) :=
                with_cases test_suite
                  (cases test_suite ++ [full_name metadata])]>
              (_all_suites reg))
           (_all_cases reg
              ++ [(full_name metadata,
                   attach_case (split_dot_head (full_name metadata)) metadata)])
     | None =>
         mkRegistry (_all_suites reg)
           (_all_cases reg ++ [(full_name metadata, metadata)])
     end, None).
Proof.
  intros Hfree. unfold _add_case_metadata. rewrite Hfree.
  cbn [_all_suites _all_cases]. rewrite (dict_set_fresh _ _ _ Hfree).
  destruct (_all_suites reg !! split_dot_head (full_name metadata))
    as [test_suite|] eqn:Hs; [|reflexivity].
  unfold _add_case_to_suite. cbn [_all_suites _all_cases].
  rewrite dict_get_app, Hfree. cbn [dict_get].
  rewrite bool_decide_eq_true_2 by reflexivity.
  rewrite (dict_set_app_r _ _ _ _ Hfree). cbn [dict_set].
  rewrite bool_decide_eq_true_2 by reflexivity.
  rewrite (alter_present _ _ _ _ Hs). reflexivity.
Qed.

Lemma backfill_fold (key : string) (suites : gmap string TestSuiteMetadata)
    (todo : list (string * TestCaseMetadata)) :
  forall (done : list (string * TestCaseMetadata)) (acc : TestSuiteMetadata),
    NoDup (map fst (done ++ todo)) ->
    (forall fn c, In (fn, c) todo -> full_name c = fn) ->
    fold_left
      (fun reg entry =>
         match dict_get (_all_cases reg) (fst entry) with
         | Some test_case =>
             if startswith (full_name test_case) (key +:+ ".")
             then _add_case_to_suite key (fst entry) reg
             else reg
         | None => reg
         end)
      todo (mkRegistry (<[key := acc]> suites) (done ++ todo))
    = mkRegistry
        (<[key := with_cases acc (cases acc ++ matching_names key todo)]> suites)
        (done ++ map (attach_matching key) todo).
Proof.
  induction todo as [|[fn c] todo IH]; intros done acc Hnd Hfn.
  - cbn [fold_left map matching_names List.filter]. unfold matching_names.
    cbn [map List.filter]. rewrite !app_nil_r.
    destruct acc; reflexivity.
  - cbn [fold_left fst _all_cases].
    assert (Hfree : dict_get done fn = None).
    { apply dict_get_None. intros Hin.
      rewrite map_app in Hnd. cbn [map fst] in Hnd.
      apply NoDup_app in Hnd as (_ & Hdis & _).
      apply (Hdis fn); [apply list_elem_of_In; exact Hin | left]. }
    rewrite dict_get_app, Hfree. cbn [dict_get].
    rewrite bool_decide_eq_true_2 by reflexivity.
    rewrite (Hfn fn c) by (left; reflexivity).
    assert (Hnd' : forall x : TestCaseMetadata,
               NoDup (map fst ((done ++ [(fn, x)]) ++ todo))).
    { intros x. rewrite <- app_assoc. cbn [app].
      rewrite map_app in Hnd |- *. exact Hnd. }
    assert (Hfn' : forall fn' c', In (fn', c') todo -> full_name c' = fn')
      by (intros fn' c' Hin; apply Hfn; right; exact Hin).
    unfold matching_names, attach_matching at 1. cbn [map fst snd List.filter].
    destruct (startswith fn (key +:+ ".")) eqn:Hpre.
    + unfold _add_case_to_suite. cbn [_all_suites _all_cases].
      rewrite dict_get_app, Hfree. cbn [dict_get].
      rewrite bool_decide_eq_true_2 by reflexivity.
      rewrite (dict_set_app_r _ _ _ _ Hfree). cbn [dict_set].
      rewrite bool_decide_eq_true_2 by reflexivity.
      rewrite alter_inserted.
      replace (done ++ (fn, _) :: todo)
        with ((done ++ [(fn, attach_case key c)]) ++ todo)
        by (rewrite <- app_assoc; reflexivity).
      fold (with_cases acc (cases acc ++ [fn])).
      rewrite (IH _ _ (Hnd' _) Hfn').
      cbn [cases with_cases]. unfold matching_names.
      rewrite <- !app_assoc. reflexivity.
    + replace (done ++ (fn, c) :: todo) with ((done ++ [(fn, c)]) ++ todo)
        by (rewrite <- app_assoc; reflexivity).
      rewrite (IH _ _ (Hnd' _) Hfn'). unfold matching_names.
      rewrite <- !app_assoc. reflexivity.
Qed.

(** [_add_suite_metadata] under a free key, in closed form. *)
Lemma add_suite_metadata_eq (metadata : TestSuiteMetadata) (key : string)
    (reg : Registry) :
  registry_wf reg ->
  suite_key metadata = Some key ->
  _all_suites reg !! key = None ->
  _add_suite_metadata metadata reg
  = (mkRegistry
       (<[key := with_cases metadata
                   (cases metadata ++ matching_names key (_all_cases reg))]>
          (_all_suites reg))
       (map (attach_matching key) (_all_cases reg)), None).
Proof.
  intros (Hnd & Hfn & _) Hkey Hfree. unfold _add_suite_metadata.
  rewrite Hkey, Hfree. cbn zeta. cbn [_all_cases].
  pose proof (backfill_fold key (_all_suites reg) (_all_cases reg) [] metadata
                Hnd Hfn) as Hfold.
  cbn [app] in Hfold. rewrite Hfold. reflexivity.
Qed.

Lemma attach_matching_keys (key : string)
    (d : list (string * TestCaseMetadata)) :
  map fst (map (attach_matching key) d) = map fst d.
Proof.
  induction d as [|[fn c] d IH]; [reflexivity|].
  cbn [map]. rewrite IH. unfold attach_matching. cbn [fst snd].
  destruct (startswith fn (key +:+ ".")); reflexivity.
Qed.

Lemma attach_matching_In (key fn : string) (c' : TestCaseMetadata)
    (d : list (string * TestCaseMetadata)) :
  In (fn, c') (map (attach_matching key) d) ->
  exists c, In (fn, c) d
            /\ c' = if startswith fn (key +:+ ".")
                    then attach_case key c else c.
Proof.
  intros Hin. apply in_map_iff in Hin as ([fn0 c0] & Heq & Hin).
  unfold attach_matching in Heq. cbn [fst snd] in Heq.
  destruct (startswith fn0 (key +:+ ".")) eqn:Hpre;
    injection Heq as <- <-; exists c0; rewrite Hpre; auto.
Qed.

Lemma matching_names_In (key fn : string)
    (d : list (string * TestCaseMetadata)) :
  In fn (matching_names key d)
  <-> In fn (map fst d) /\ startswith fn (key +:+ ".") = true.
Proof.
  unfold matching_names.
  exact (filter_In (fun fn => startswith fn (key +:+ ".")) fn (map fst d)).
Qed.

Lemma suite_key_with_cases (s : TestSuiteMetadata) (l : list string) :
  suite_key (with_cases s l) = suite_key s.
Proof. reflexivity. Qed.

Lemma is_Some_dict_get_In {A} (d : list (string * A)) (key : string) :
  is_Some (dict_get d key) <-> In key (map fst d).
Proof.
  split.
  - intros [v Hv]. apply dict_get_In in Hv.
    apply in_map_iff. exists (key, v). auto.
  - intros Hin. destruct (dict_get d key) eqn:E; [eauto|].
    apply dict_get_None in E. contradiction.
Qed.

(** X11: both registrations keep the registry sound.  If the registry has
    one entry per fully-qualified name, every case under its own name and
    every suite under its own key, and its two dictionaries agree (the
    suite a case refers to is registered and lists it, and every case a
    suite lists is registered), then the same holds after registering a
    suite descriptor with an empty case list or a case descriptor bound to
    no suite yet, whether the registration succeeds or raises. *)
Theorem registration_keeps_registry_sound (reg : Registry) :
  registry_wf reg -> registry_consistent reg ->
  (forall metadata : TestSuiteMetadata,
     cases metadata = [] ->
     registry_wf (_add_suite_metadata metadata reg).1
     /\ registry_consistent (_add_suite_metadata metadata reg).1)
  /\ (forall metadata : TestCaseMetadata,
        suite metadata = None ->
        registry_wf (_add_case_metadata metadata reg).1
        /\ registry_consistent (_add_case_metadata metadata reg).1).
Proof.
  intros Hwf Hcons.
  pose proof Hwf as (Hnd & Hfn & Hsk). pose proof Hcons as (H1 & H2).
  split.
  - intros metadata Hempty.
    destruct (suite_key metadata) as [key|] eqn:Hkey;
      [|unfold _add_suite_metadata; rewrite Hkey; auto].
    destruct (_all_suites reg !! key) as [exist|] eqn:Hfree;
      [unfold _add_suite_metadata; rewrite Hkey, Hfree; auto|].
    rewrite (add_suite_metadata_eq _ _ _ Hwf Hkey Hfree). cbn [fst].
    rewrite Hempty. cbn [app]. split.
    + split; [|split]; cbn [_all_suites _all_cases].
      * rewrite attach_matching_keys. exact Hnd.
      * intros fn c' Hin.
        apply attach_matching_In in Hin as (c & Hin & ->).
        destruct (startswith fn (key +:+ ".")); cbn; eauto.
      * intros k s Hs. apply lookup_insert_Some in Hs as [[<- <-] | [_ Hs]];
          [exact Hkey | eauto].
    + split; cbn [_all_suites _all_cases].
      * intros fn c' k Hin Hsuite.
        apply attach_matching_In in Hin as (c & Hin & ->).
        destruct (startswith fn (key +:+ ".")) eqn:Hpre.
        -- cbn in Hsuite. injection Hsuite as <-.
           eexists. rewrite lookup_insert_eq. split; [reflexivity|].
           cbn [cases with_cases]. apply matching_names_In. split; [|exact Hpre].
           apply in_map_iff. exists (fn, c). auto.
        -- destruct (H1 fn c k Hin Hsuite) as (s & Hs & Hl).
           exists s. split; [|exact Hl].
           rewrite lookup_insert_ne; [exact Hs | congruence].
      * intros k s fn Hs Hl.
        apply is_Some_dict_get_In. rewrite attach_matching_keys.
        apply lookup_insert_Some in Hs as [[<- <-] | [_ Hs]].
        -- cbn [cases with_cases] in Hl. apply matching_names_In in Hl. tauto.
        -- apply is_Some_dict_get_In. eauto.
  - intros metadata Hnosuite.
    destruct (dict_get (_all_cases reg) (full_name metadata)) as [exist|] eqn:Hfree;
      [unfold _add_case_metadata; rewrite Hfree; auto|].
    rewrite (add_case_metadata_eq _ _ Hfree). cbn [fst].
    set (fn := full_name metadata). set (k := split_dot_head fn).
    assert (Hnd' : NoDup (map fst (_all_cases reg) ++ [fn])).
    { apply NoDup_app. split; [exact Hnd|]. split; [|repeat constructor; set_solver].
      intros x Hx Hx'. apply list_elem_of_In in Hx.
      apply list_elem_of_singleton in Hx'. subst x.
      apply dict_get_None in Hfree. contradiction. }
    destruct (_all_suites reg !! k) as [s|] eqn:Hs.
    + split.
      * split; [|split]; cbn [_all_suites _all_cases].
        -- rewrite map_app. exact Hnd'.
        -- intros fn' c' Hin. apply in_app_or in Hin as [Hin | [[= <- <-] | []]];
             [eauto | reflexivity].
        -- intros k' s' Hs'.
           apply lookup_insert_Some in Hs' as [[<- <-] | [_ Hs']]; [|eauto].
           rewrite suite_key_with_cases. eauto.
      * split; cbn [_all_suites _all_cases].
        -- intros fn' c' k' Hin Hsuite.
           apply in_app_or in Hin as [Hin | [[= <- <-] | []]].
           ++ destruct (H1 fn' c' k' Hin Hsuite) as (s0 & Hs0 & Hl).
              destruct (decide (k = k')) as [<-|Hne].
              ** eexists. rewrite lookup_insert_eq. split; [reflexivity|].
                 cbn [cases with_cases]. apply in_or_app. left. congruence.
              ** exists s0. rewrite lookup_insert_ne by exact Hne. auto.
           ++ cbn in Hsuite. injection Hsuite as <-.
              eexists. rewrite lookup_insert_eq. split; [reflexivity|].
              cbn [cases with_cases]. apply in_or_app. right. left. reflexivity.
        -- intros k' s' fn' Hs' Hl.
           apply is_Some_dict_get_In. rewrite map_app. apply in_or_app.
           apply lookup_insert_Some in Hs' as [[<- <-] | [_ Hs']].
           ++ cbn [cases with_cases] in Hl.
              apply in_app_or in Hl as [Hl | [<- | []]].
              ** left. apply is_Some_dict_get_In. eauto.
              ** right. left. reflexivity.
           ++ left. apply is_Some_dict_get_In. eauto.
    + split.
      * split; [|split]; cbn [_all_suites _all_cases].
        -- rewrite map_app. exact Hnd'.
        -- intros fn' c' Hin. apply in_app_or in Hin as [Hin | [[= <- <-] | []]];
             [eauto | reflexivity].
        -- exact Hsk.
      * split; cbn [_all_suites _all_cases].
        -- intros fn' c' k' Hin Hsuite.
           apply in_app_or in Hin as [Hin | [[= <- <-] | []]]; [eauto|].
           congruence.
        -- intros k' s' fn' Hs' Hl.
           apply is_Some_dict_get_In. rewrite map_app. apply in_or_app. left.
           apply is_Some_dict_get_In. eauto.
Qed.

(** X12: a case registered under a free fully-qualified name is added at
    the end of the case dictionary, and nothing is raised.  When the suite
    named by the part of the name before the first dot is registered, the
    case is bound to that suite and appended to its list of cases;
    otherwise it is stored as it is, bound to no suite, and the suite
    dictionary is left alone. *)
Theorem case_registration_attaches_or_holds (metadata : TestCaseMetadata)
    (reg : Registry) :
  dict_get (_all_cases reg) (full_name metadata) = None ->
  let out := _add_case_metadata metadata reg in
  let class_name := split_dot_head (full_name metadata) in
  out.2 = None
  /\ (forall test_suite,
        _all_suites reg !! class_name = Some test_suite ->
        _all_cases out.1
        = _all_cases reg
            ++ [(full_name metadata, attach_case class_name metadata)]
        /\ _all_suites out.1
           = <[class_name :=
                 with_cases test_suite
                   (cases test_suite ++ [full_name metadata])]>
               (_all_suites reg))
  /\ (_all_suites reg !! class_name = None ->
      _all_cases out.1 = _all_cases reg ++ [(full_name metadata, metadata)]
      /\ _all_suites out.1 = _all_suites reg).
Proof.
  intros Hfree out class_name. subst out.
  rewrite (add_case_metadata_eq _ _ Hfree). fold class_name.
  destruct (_all_suites reg !! class_name) as [s|].
  - split; [reflexivity|]. split; [|discriminate].
    intros test_suite [= <-]. split; reflexivity.
  - split; [reflexivity|]. split; [discriminate|]. intros _. split; reflexivity.
Qed.

(** X13: a suite registered under a free key collects the cases that wait
    for it: it is stored with its list of cases extended by the
    fully-qualified names that start with its key and a dot, in their order
    of registration; exactly those cases are bound to it; the other cases
    and the other suites are untouched, and nothing is raised. *)
Theorem suite_registration_collects_cases (metadata : TestSuiteMetadata)
    (key : string) (reg : Registry) :
  registry_wf reg ->
  suite_key metadata = Some key ->
  _all_suites reg !! key = None ->
  let out := _add_suite_metadata metadata reg in
  out.2 = None
  /\ _all_suites out.1 !! key
     = Some (with_cases metadata
               (cases metadata
                  ++ List.filter (fun fn => startswith fn (key +:+ "."))
                       (map fst (_all_cases reg))))
  /\ (forall other, other <> key ->
        _all_suites out.1 !! other = _all_suites reg !! other)
  /\ map fst (_all_cases out.1) = map fst (_all_cases reg)
  /\ (forall fn c,
        In (fn, c) (_all_cases out.1) ->
        exists c0, In (fn, c0) (_all_cases reg)
                   /\ c = if startswith fn (key +:+ ".")
                          then attach_case key c0 else c0).
Proof.
  intros Hwf Hkey Hfree out. subst out.
  rewrite (add_suite_metadata_eq _ _ _ Hwf Hkey Hfree).
  cbn [fst snd _all_suites _all_cases]. split; [reflexivity|].
  split; [apply lookup_insert_eq|]. split; [|split].
  - intros other Hne. apply lookup_insert_ne. congruence.
  - apply attach_matching_keys.
  - intros fn c. apply attach_matching_In.
Qed.

(** X14: for a suite key without a dot, the order of registration does not
    matter: registering a case whose fully-qualified name starts with the
    key and a dot before the suite, or after it, leaves the same registry,
    and neither order raises. *)
Theorem registration_order_is_irrelevant (suite_metadata : TestSuiteMetadata)
    (case_metadata : TestCaseMetadata) (key : string) (reg : Registry) :
  registry_wf reg ->
  suite_key suite_metadata = Some key ->
  dot_free key = true ->
  startswith (full_name case_metadata) (key +:+ ".") = true ->
  _all_suites reg !! key = None ->
  dict_get (_all_cases reg) (full_name case_metadata) = None ->
  let case_first :=
    _add_suite_metadata suite_metadata
      (_add_case_metadata case_metadata reg).1 in
  let suite_first :=
    _add_case_metadata case_metadata
      (_add_suite_metadata suite_metadata reg).1 in
  case_first = suite_first /\ case_first.2 = None
  /\ (_add_case_metadata case_metadata reg).2 = None
  /\ (_add_suite_metadata suite_metadata reg).2 = None.
Proof.
  intros Hwf Hkey Hdot Hpre Hfree Hcfree case_first suite_first.
  subst case_first suite_first.
  pose proof Hwf as (Hnd & Hfn & Hsk).
  pose proof (prefix_is_split_head _ _ Hdot Hpre) as Hhead.
  set (fn := full_name case_metadata) in *.
  (* the case first *)
  rewrite (add_case_metadata_eq _ _ Hcfree). fold fn. rewrite Hhead, Hfree.
  cbn [fst snd].
  assert (Hwf1 : registry_wf
                   (mkRegistry (_all_suites reg)
                      (_all_cases reg ++ [(fn, case_metadata)]))).
  { split; [|split]; cbn [_all_suites _all_cases].
    - rewrite map_app. apply NoDup_app. split; [exact Hnd|].
      split; [|repeat constructor; set_solver].
      intros x Hx Hx'. apply list_elem_of_In in Hx.
      apply list_elem_of_singleton in Hx'. cbn in Hx'. subst x.
      apply dict_get_None in Hcfree. contradiction.
    - intros fn' c' Hin. apply in_app_or in Hin as [Hin | [[= <- <-] | []]];
        [eauto | reflexivity].
    - exact Hsk. }
  rewrite (add_suite_metadata_eq _ _ _ Hwf1 Hkey Hfree).
  (* the suite first *)
  rewrite (add_suite_metadata_eq _ _ _ Hwf Hkey Hfree). cbn [fst snd].
  assert (Hcfree' : dict_get (map (attach_matching key) (_all_cases reg))
                      (full_name case_metadata) = None).
  { apply dict_get_None. rewrite attach_matching_keys.
    apply dict_get_None. exact Hcfree. }
  rewrite (add_case_metadata_eq case_metadata
             (mkRegistry _ (map (attach_matching key) (_all_cases reg)))
             Hcfree'). fold fn.
  cbn [_all_suites _all_cases]. rewrite Hhead, lookup_insert_eq.
  split; [|auto]. f_equal. f_equal.
  - rewrite insert_insert_eq. f_equal.
    cbn [cases with_cases]. unfold matching_names.
    rewrite map_app, List.filter_app. cbn [map fst List.filter]. rewrite Hpre.
    rewrite <- app_assoc. reflexivity.
  - rewrite map_app. cbn [map]. unfold attach_matching at 2.
    cbn [fst snd]. rewrite Hpre. reflexivity.
Qed.

Lemma decorate_suite_spec (self : TestSuiteMetadata) (class_name : string) :
  let key :=
    if str_truthy (suite_name self) then suite_name self else class_name in
  suite_name (decorate_suite self class_name) = key
  /\ test_class (decorate_suite self class_name) = Some class_name
  /\ cases (decorate_suite self class_name) = cases self
  /\ suite_key (decorate_suite self class_name) = Some key.
Proof.
  unfold decorate_suite, suite_key. cbn [suite_name].
  destruct (str_truthy (suite_name self)) eqn:Htruthy; cbn.
  - rewrite Htruthy. auto.
  - destruct (str_truthy class_name); auto.
Qed.

(** X15: the suite decorator records the decorated class on the descriptor
    and registers the descriptor under its explicit name, or under the name
    of the class when it has none, which then becomes its name.  For a
    descriptor that the registry does not hold yet: with a free key the
    call raises nothing and the registry holds the descriptor itself under
    the key, with the cases that were waiting for it; with a key that is
    taken the call raises the duplicate error and the registry is left as
    it was.  For a named descriptor that the registry already holds, the
    call raises the duplicate error as well, but the class has been
    recorded before the check: the registry differs from before in that
    one field of the stored descriptor. *)
Theorem suite_decorator_names_the_suite (self : TestSuiteMetadata)
    (class_name : string) (reg : Registry) :
  registry_wf reg ->
  let key :=
    if str_truthy (suite_name self) then suite_name self else class_name in
  let out := TestSuiteMetadata_call self None class_name reg in
  suite_name out.1 = key
  /\ test_class out.1 = Some class_name
  /\ (_all_suites reg !! key = None ->
      out.2.2 = None
      /\ _all_suites out.2.1 !! key = Some out.1
      /\ cases out.1 = cases self ++ matching_names key (_all_cases reg))
  /\ (is_Some (_all_suites reg !! key) ->
      out = (decorate_suite self class_name, (reg, Some (duplicate_error key))))
  /\ (forall stored_key,
        _all_suites reg !! stored_key = Some self ->
        str_truthy (suite_name self) = true ->
        let again :=
          TestSuiteMetadata_call self (Some stored_key) class_name reg in
        again.2.2 = Some (duplicate_error stored_key)
        /\ _all_suites again.2.1
           = <[stored_key := decorate_suite self class_name]> (_all_suites reg)
        /\ _all_cases again.2.1 = _all_cases reg
        /\ again.1 = decorate_suite self class_name
        /\ test_class again.1 = Some class_name).
Proof.
  intros Hwf key out.
  destruct (decorate_suite_spec self class_name)
    as (Hname & Hclass & Hcases & Hkey).
  cbn zeta in Hname, Hkey. fold key in Hname, Hkey.
  assert (Hfree : _all_suites reg !! key = None ->
            out = (with_cases (decorate_suite self class_name)
                     (cases self ++ matching_names key (_all_cases reg)),
                   (mkRegistry
                      (<[key := with_cases (decorate_suite self class_name)
                                  (cases self
                                   ++ matching_names key (_all_cases reg))]>
                         (_all_suites reg))
                      (map (attach_matching key) (_all_cases reg)), None))).
  { intros Hnone. subst out. unfold TestSuiteMetadata_call. cbn zeta.
    rewrite (add_suite_metadata_eq _ _ _ Hwf Hkey Hnone), Hkey, Hcases.
    cbn [_all_suites]. rewrite lookup_insert_eq. reflexivity. }
  assert (Htaken : is_Some (_all_suites reg !! key) ->
            out = (decorate_suite self class_name,
                   (reg, Some (duplicate_error key)))).
  { intros [exist Hexist]. subst out.
    unfold TestSuiteMetadata_call, _add_suite_metadata. cbn zeta.
    rewrite Hkey, Hexist. reflexivity. }
  split; [|split; [|split; [|split; [exact Htaken|]]]].
  - destruct (_all_suites reg !! key) eqn:Hlook.
    + rewrite (Htaken ltac:(eauto)). exact Hname.
    + rewrite (Hfree eq_refl). exact Hname.
  - destruct (_all_suites reg !! key) eqn:Hlook.
    + rewrite (Htaken ltac:(eauto)). exact Hclass.
    + rewrite (Hfree eq_refl). exact Hclass.
  - intros Hnone. rewrite (Hfree Hnone). cbn [fst snd _all_suites].
    rewrite lookup_insert_eq. auto.
  - intros stored_key Hstored Htruthy again. subst again.
    destruct Hwf as (_ & _ & Hkeys).
    pose proof (Hkeys _ _ Hstored) as Hself.
    assert (Hsame : key = stored_key).
    { unfold suite_key in Hself. rewrite Htruthy in Hself.
      subst key. rewrite Htruthy. congruence. }
    unfold TestSuiteMetadata_call, _add_suite_metadata. cbn zeta.
    rewrite Hkey, Hsame. cbn [_all_suites]. rewrite lookup_insert_eq.
    cbn [fst snd _all_suites _all_cases]. auto.
Qed.

(** X17: a registered case answers for its requirement by delegation: once
    a suite (key without dot) and a case whose fully-qualified name starts
    with that key and a dot are both registered, in either order, the case
    found in the registry is bound to the suite, and the lookup of its
    requirement gives its own requirement when it has one and the
    requirement of the suite otherwise. *)
Theorem registered_case_delegates_requirement
    (suite_metadata : TestSuiteMetadata) (case_metadata : TestCaseMetadata)
    (key : string) (reg : Registry) :
  registry_wf reg ->
  suite_key suite_metadata = Some key ->
  dot_free key = true ->
  startswith (full_name case_metadata) (key +:+ ".") = true ->
  _all_suites reg !! key = None ->
  dict_get (_all_cases reg) (full_name case_metadata) = None ->
  let final :=
    (_add_suite_metadata suite_metadata
       (_add_case_metadata case_metadata reg).1).1 in
  exists stored,
    dict_get (_all_cases final) (full_name case_metadata) = Some stored
    /\ suite stored = Some key
    /\ getattr_requirement (_all_suites final) stored
       = Some (match requirement case_metadata with
               | Some own => own
               | None => suite_requirement suite_metadata
               end).
Proof.
  intros Hwf Hkey Hdot Hpre Hfree Hcfree final. subst final.
  pose proof Hwf as (Hnd & Hfn & Hsk).
  pose proof (prefix_is_split_head _ _ Hdot Hpre) as Hhead.
  rewrite (add_case_metadata_eq _ _ Hcfree), Hhead, Hfree. cbn [fst].
  assert (Hwf1 : registry_wf
                   (mkRegistry (_all_suites reg)
                      (_all_cases reg
                         ++ [(full_name case_metadata, case_metadata)]))).
  { split; [|split]; cbn [_all_suites _all_cases].
    - rewrite map_app. apply NoDup_app. split; [exact Hnd|].
      split; [|repeat constructor; set_solver].
      intros x Hx Hx'. apply list_elem_of_In in Hx.
      apply list_elem_of_singleton in Hx'. cbn in Hx'. subst x.
      apply dict_get_None in Hcfree. contradiction.
    - intros fn' c' Hin. apply in_app_or in Hin as [Hin | [[= <- <-] | []]];
        [eauto | reflexivity].
    - exact Hsk. }
  rewrite (add_suite_metadata_eq _ _ _ Hwf1 Hkey Hfree).
  cbn [fst _all_suites _all_cases].
  exists (attach_case key case_metadata).
  rewrite map_app, dict_get_app.
  assert (Hnone : dict_get (map (attach_matching key) (_all_cases reg))
                    (full_name case_metadata) = None).
  { apply dict_get_None. rewrite attach_matching_keys.
    apply dict_get_None. exact Hcfree. }
  rewrite Hnone. cbn [map]. unfold attach_matching at 1. cbn [fst snd].
  rewrite Hpre. cbn [dict_get]. rewrite bool_decide_eq_true_2 by reflexivity.
  split; [reflexivity|]. split; [reflexivity|].
  unfold getattr_requirement. cbn [requirement suite attach_case].
  destruct (requirement case_metadata); [reflexivity|].
  rewrite lookup_insert_eq. reflexivity.
Qed.

(** ** More on the requirement check *)

Lemma os_type_loop_result (requirement_os_type : SetSpace OsType)
    (node_list : list Node) :
  forall check_result,
    result check_result = true ->
    result (os_type_loop requirement_os_type node_list check_result).1
    = all_nodes_pass requirement_os_type node_list.
Proof.
  induction node_list as [|node rest IH]; intros check_result Hok;
    [exact Hok|].
  cbn [os_type_loop all_nodes_pass forallb]. unfold merge at 1 2. cbn [result].
  rewrite Hok. cbn [andb].
  destruct (result (os_type_check _ _)) eqn:Hnode; cbn [negb andb fst];
    [|reflexivity].
  specialize (IH (merge check_result
                    (os_type_check requirement_os_type
                       (mkSetSpace true (os_mro node))) "os_type")).
  destruct (os_type_loop _ rest _) as [cr checked]. cbn [fst] in *.
  apply IH. cbn. rewrite Hok, Hnode. reflexivity.
Qed.

(** X16: check_environment returns True exactly when the environment meets
    the environment requirement and, if the requirement names operating
    systems and the environment is Connected, every node meets the
    operating-system requirement.  For an environment that is not
    Connected, or a requirement without operating systems, no node is
    looked at. *)
Theorem check_environment_verdict (suites : gmap string TestSuiteMetadata)
    (self : TestResult) (env : Environment) (save_reason : bool)
    (out : CheckOutcome) :
  check_environment suites self env save_reason = Some out ->
  exists requirement requirement_environment,
    getattr_requirement suites (metadata (runtime_data self))
    = Some requirement
    /\ req_environment requirement = Some requirement_environment
    /\ chk_return out
       = result (environment_check requirement_environment (capability env))
         && match os_type requirement with
            | Some requirement_os_type =>
                if SetSpace_truthy requirement_os_type
                   && bool_decide (env_status env = Connected)
                then all_nodes_pass requirement_os_type (nodes env)
                else true
            | None => true
            end
    /\ (env_status env <> Connected \/ os_type requirement = None ->
        chk_nodes out = []).
Proof.
  unfold check_environment.
  destruct (getattr_requirement suites _) as [requirement|] eqn:Hreq;
    [|discriminate].
  destruct (req_environment requirement) as [requirement_environment|] eqn:Henv;
    [|discriminate].
  intros Hcheck. exists requirement, requirement_environment.
  split; [reflexivity|]. split; [exact Henv|]. revert Hcheck.
  set (first_result := environment_check requirement_environment
                         (capability env)) in *.
  destruct (os_type requirement) as [requirement_os_type|].
  - destruct (result first_result) eqn:Hfirst; cbn [andb].
    + destruct (SetSpace_truthy requirement_os_type
                && bool_decide (env_status env = Connected)) eqn:Hgo.
      * pose proof (os_type_loop_result requirement_os_type (nodes env)
                      first_result Hfirst) as Hres.
        destruct (os_type_loop _ _ first_result) as [cr checked].
        cbn [fst] in Hres. intros [= <-]. cbn [chk_return chk_nodes].
        split; [exact Hres|]. intros [Hnc | Hnone]; [|discriminate].
        apply andb_prop in Hgo as [_ Hc].
        apply bool_decide_eq_true in Hc. contradiction.
      * intros [= <-]. cbn [chk_return chk_nodes]. auto.
    + intros [= <-]. cbn [chk_return chk_nodes]. auto.
  - intros [= <-]. cbn [chk_return chk_nodes]. rewrite andb_true_r. auto.
Qed.

(** ** Variables of a runbook *)

Lemma wrap_name_eq (x : string) :
  wrap_name x = String char_dollar (String char_open (x +:+ ")")).
Proof. reflexivity. Qed.

Lemma append_cons (c : Ascii.ascii) (s t : string) :
  String c s +:+ t = String c (s +:+ t).
Proof. reflexivity. Qed.

Lemma append_nil_l (t : string) : EmptyString +:+ t = t.
Proof. reflexivity. Qed.

Lemma str_drop_last_close (x : string) : str_drop_last (x +:+ ")") = x.
Proof.
  induction x as [|c x IH]; [reflexivity|].
  rewrite append_cons. cbn [str_drop_last].
  rewrite IH. destruct x; reflexivity.
Qed.

Lemma variable_name_of_wrap (x : string) : variable_name_of (wrap_name x) = x.
Proof.
  unfold variable_name_of. rewrite wrap_name_eq. cbn [str_drop].
  apply str_drop_last_close.
Qed.

#[local] Instance wrap_name_inj : Inj (=) (=) wrap_name.
Proof.
  intros x y H. rewrite <- (variable_name_of_wrap x), <- (variable_name_of_wrap y).
  now rewrite H.
Qed.

Lemma close_at_slice (s : string) (n : nat) :
  close_at s = Some n -> exists x, str_slice_to s (S n) = x +:+ ")".
Proof.
  revert n. induction s as [|c s IH]; intros n H; [discriminate|].
  cbn [close_at] in H.
  destruct (Ascii.eqb c char_close) eqn:Hc.
  - apply Ascii.eqb_eq in Hc. subst c. injection H as <-.
    exists EmptyString. cbn [str_slice_to]. destruct s; reflexivity.
  - destruct (Ascii.eqb c char_newline); [discriminate|].
    destruct (close_at s) as [j|] eqn:Hj; [|discriminate].
    injection H as <-.
    destruct (IH j eq_refl) as [x Hx].
    exists (String c x). cbn [str_slice_to] in *. rewrite Hx. reflexivity.
Qed.

Lemma match_length_slice (s : string) (n : nat) :
  match_length s = Some n -> exists x, str_slice_to s n = wrap_name x.
Proof.
  destruct s as [|d [|o [|first rest]]]; try discriminate.
  cbn [match_length].
  destruct (Ascii.eqb d char_dollar) eqn:Hd; [|discriminate].
  destruct (Ascii.eqb o char_open) eqn:Ho; [|discriminate].
  destruct (Ascii.eqb first char_newline); [discriminate|].
  cbn [andb negb].
  destruct (close_at rest) as [j|] eqn:Hj; [|discriminate].
  intros H. injection H as <-.
  apply Ascii.eqb_eq in Hd, Ho. subst d o.
  destruct (close_at_slice _ _ Hj) as [x Hx].
  exists (String first x).
  replace (j + 4)%nat with (S (S (S (S j)))) by lia.
  rewrite wrap_name_eq. cbn [str_slice_to] in *. rewrite Hx. reflexivity.
Qed.

Lemma findall_from_wrapped (s : string) (skip : nat) (m : string) :
  In m (findall_from s skip) -> exists x, m = wrap_name x.
Proof.
  revert skip. induction s as [|c s IH]; intros skip H; [destruct H|].
  cbn [findall_from] in H. destruct skip as [|skip]; [|eauto].
  destruct (match_length (String c s)) as [n|] eqn:Hn; [|eauto].
  destruct H as [<-|H]; [|eauto].
  eapply match_length_slice; eassumption.
Qed.

Lemma findall_wrapped (s m : string) :
  In m (findall s) -> exists x, m = wrap_name x.
Proof. apply findall_from_wrapped. Qed.

(** The substitution calls its function on the matches that [findall]
    lists, and on nothing else. *)
Lemma sub_from_succeeds (repl : string -> option string) (s : string)
    (skip : nat) :
  (forall m, In m (findall_from s skip) -> is_Some (repl m)) ->
  is_Some (sub_from repl s skip).
Proof.
  revert skip. induction s as [|c s IH]; intros skip H; [eexists; reflexivity|].
  cbn [sub_from findall_from] in *. destruct skip as [|skip]; [|auto].
  destruct (match_length (String c s)) as [n|].
  - destruct (H _ (or_introl eq_refl)) as [r ->].
    destruct (IH (n - 1)%nat) as [t ->]; [intros; apply H; now right|].
    eexists; reflexivity.
  - destruct (IH 0%nat H) as [t ->]. eexists; reflexivity.
Qed.

Lemma replace_variables_list (lower : string -> string)
    (py_str : PyData -> string) (items : list PyData)
    (variables : gmap string VariableEntry) :
  _replace_variables lower py_str (PList items) variables =
  let '(items, variables, raised) :=
    replace_in_list lower py_str items variables in
  (PList items, variables, raised).
Proof. reflexivity. Qed.

Lemma replace_variables_dict (lower : string -> string)
    (py_str : PyData -> string) (entries : list (string * PyData))
    (variables : gmap string VariableEntry) :
  _replace_variables lower py_str (PDict entries) variables =
  let '(entries, variables, raised) :=
    replace_in_dict lower py_str entries variables in
  (PDict entries, variables, raised).
Proof. reflexivity. Qed.

(** Induction on runbook data, with the hypothesis for every item of a list
    and every value of a dictionary. *)
Section PyDataInduction.

Variable P : PyData -> Prop.
Hypothesis Hstr : forall s, P (PStr s).
Hypothesis Hint : forall z, P (PInt z).
Hypothesis Hbool : forall b, P (PBool b).
Hypothesis Hnone : P PNone.
Hypothesis Hlist : forall items, Forall P items -> P (PList items).
Hypothesis Hdict :
  forall entries, Forall (fun entry => P entry.2) entries -> P (PDict entries).

Fixpoint PyData_nested_ind (input : PyData) : P input :=
  match input with
  | PStr s => Hstr s
  | PInt z => Hint z
  | PBool b => Hbool b
  | PNone => Hnone
  | PList items =>
      Hlist items
        ((fix go (items : list PyData) : Forall P items :=
            match items with
            | [] => @List.Forall_nil _ _
            | item :: rest =>
                @List.Forall_cons _ _ item rest (PyData_nested_ind item) (go rest)
            end) items)
  | PDict entries =>
      Hdict entries
        ((fix go (entries : list (string * PyData))
            : Forall (fun entry => P entry.2) entries :=
            match entries with
            | [] => @List.Forall_nil _ _
            | (key, value) :: rest =>
                @List.Forall_cons _ (fun entry => P entry.2) (key, value) rest
                  (PyData_nested_ind value) (go rest)
            end) entries)
  end.

End PyDataInduction.

Lemma only_marks_refl (variables : gmap string VariableEntry) :
  only_marks variables variables.
Proof. intros k. destruct (variables !! k); auto. Qed.

Lemma only_marks_trans (a b c : gmap string VariableEntry) :
  only_marks a b -> only_marks b c -> only_marks a c.
Proof.
  intros Hab Hbc k. specialize (Hab k). specialize (Hbc k).
  destruct (a !! k), (b !! k), (c !! k); try tauto.
  destruct Hab as [Hd Hu], Hbc as [Hd' Hu']. split; [congruence|auto].
Qed.

Lemma only_marks_set_used (variables : gmap string VariableEntry)
    (key : string) (entry : VariableEntry) :
  variables !! key = Some entry ->
  only_marks variables (<[key := set_used entry]> variables).
Proof.
  intros H k. destruct (decide (k = key)) as [->|Hne].
  - rewrite H, lookup_insert_eq. auto.
  - rewrite lookup_insert_ne by congruence. destruct (variables !! k); auto.
Qed.

Lemma only_marks_None (a b : gmap string VariableEntry) (key : string) :
  only_marks a b -> b !! key = None -> a !! key = None.
Proof.
  intros H Hb. specialize (H key). rewrite Hb in H.
  destruct (a !! key); [destruct H|reflexivity].
Qed.

Lemma only_marks_is_Some (a b : gmap string VariableEntry) (key : string) :
  only_marks a b -> is_Some (a !! key) <-> is_Some (b !! key).
Proof.
  intros H. specialize (H key).
  destruct (a !! key), (b !! key); try tauto;
    split; intros [? ?]; eauto; discriminate.
Qed.

Lemma mark_if_set_used (condition : bool) (entry : VariableEntry) :
  mark_if condition (set_used entry) = set_used entry.
Proof. destruct condition; reflexivity. Qed.

Section VariableProperties.

Variable lower : string -> string.
Variable py_str : PyData -> string.

Lemma mark_matches_spec (matches : list string) :
  forall variables variables' raised,
    mark_matches lower matches variables = (variables', raised) ->
    only_marks variables variables' /\
    match raised with
    | Some e =>
        exists m, In m matches /\ e = cannot_find_variable m
                  /\ variables !! lower m = None
    | None => forall m, In m matches -> is_Some (variables' !! lower m)
    end.
Proof.
  induction matches as [|m rest IH]; intros variables variables' raised H.
  - injection H as <- <-. split; [apply only_marks_refl|intros ? []].
  - cbn [mark_matches] in H.
    destruct (variables !! lower m) as [entry|] eqn:Hm.
    + destruct (IH _ _ _ H) as [Hmarks Hrest].
      pose proof (only_marks_set_used _ _ _ Hm) as Hstep.
      split; [eapply only_marks_trans; eassumption|].
      destruct raised as [e|].
      * destruct Hrest as (m' & Hin & -> & Hnone).
        exists m'. split; [now right|]. split; [reflexivity|].
        eapply only_marks_None; eassumption.
      * intros m' [<-|Hin]; [|auto].
        apply (only_marks_is_Some _ _ (lower m) Hmarks).
        rewrite lookup_insert_eq. eauto.
    + injection H as <- <-. split; [apply only_marks_refl|].
      exists m. split; [now left|]. auto.
Qed.

Lemma mark_matches_lookup (matches : list string) :
  forall variables variables',
    mark_matches lower matches variables = (variables', None) ->
    forall key,
      variables' !! key =
      mark_if (bool_decide (key ∈ map lower matches)) <$> variables !! key.
Proof.
  induction matches as [|m rest IH]; intros variables variables' H key.
  - injection H as <-. cbn. destruct (variables !! key); reflexivity.
  - cbn [mark_matches] in H.
    destruct (variables !! lower m) as [entry|] eqn:Hm; [|discriminate].
    rewrite (IH _ _ H key). cbn [map].
    destruct (decide (key = lower m)) as [->|Hne].
    + rewrite lookup_insert_eq, Hm. cbn. rewrite mark_if_set_used.
      rewrite bool_decide_eq_true_2 by (apply elem_of_cons; now left).
      reflexivity.
    + rewrite lookup_insert_ne by congruence.
      destruct (variables !! key); [|reflexivity]. cbn. f_equal. f_equal.
      apply bool_decide_ext. rewrite elem_of_cons. intuition congruence.
Qed.

Lemma mark_matches_raised (matches : list string) :
  forall variables,
    (mark_matches lower matches variables).2 =
    cannot_find_variable
      <$> head (List.filter
                  (fun m => negb (bool_decide (is_Some (variables !! lower m))))
                  matches).
Proof.
  induction matches as [|m rest IH]; intros variables; [reflexivity|].
  cbn [mark_matches List.filter].
  destruct (variables !! lower m) as [entry|] eqn:Hm.
  - rewrite bool_decide_eq_true_2 by eauto. cbn [negb]. rewrite IH.
    f_equal. f_equal. apply List.filter_ext. intros m'. f_equal.
    apply bool_decide_ext. symmetry.
    apply only_marks_is_Some, only_marks_set_used, Hm.
  - rewrite bool_decide_eq_false_2 by (intros [? ?]; discriminate).
    reflexivity.
Qed.

(** The outcome of [_replace_variables] on a string that is not, as a
    whole, the name of a variable. *)
Lemma replace_string_marks (s : string)
    (variables : gmap string VariableEntry) :
  variables !! lower s = None ->
  exists output,
    _replace_variables lower py_str (PStr s) variables =
    (output, (mark_matches lower (findall s) variables).1,
     (mark_matches lower (findall s) variables).2).
Proof.
  intros Hwhole. cbn [_replace_variables]. rewrite Hwhole.
  destruct (findall s) as [|m rest] eqn:Hfind; [eexists; reflexivity|].
  destruct (mark_matches lower (m :: rest) variables)
    as [variables' raised] eqn:Hmark.
  destruct raised as [e|]; [eexists; reflexivity|].
  destruct (mark_matches_spec _ _ _ _ Hmark) as [_ Hall].
  destruct (sub_from_succeeds
              (fun matched => (fun entry => py_str (data entry))
                                <$> variables' !! lower matched) s 0) as [t Ht].
  - intros m' Hin. apply fmap_is_Some, Hall.
    fold (findall s) in Hin. now rewrite Hfind in Hin.
  - unfold pattern_sub. rewrite Ht. eexists; reflexivity.
Qed.

Definition replace_sound (input : PyData) : Prop :=
  forall variables output variables' raised,
    _replace_variables lower py_str input variables
    = (output, variables', raised) ->
    only_marks variables variables' /\
    forall e, raised = Some e ->
      exists x, e = cannot_find_variable (wrap_name x)
                /\ variables !! lower (wrap_name x) = None.

Lemma replace_sound_string (s : string) : replace_sound (PStr s).
Proof.
  intros variables output variables' raised H.
  destruct (variables !! lower s) as [entry|] eqn:Hwhole.
  - cbn [_replace_variables] in H. rewrite Hwhole in H.
    injection H as <- <- <-.
    split; [now apply only_marks_set_used|discriminate].
  - destruct (replace_string_marks s variables Hwhole) as [output' Heq].
    destruct (mark_matches lower (findall s) variables)
      as [variables1 raised1] eqn:Hmark.
    cbn [fst snd] in Heq. rewrite Heq in H. injection H as <- <- <-.
    destruct (mark_matches_spec _ _ _ _ Hmark) as [Hmarks Hraised].
    split; [exact Hmarks|].
    intros e ->. destruct Hraised as (m & Hin & -> & Hnone).
    destruct (findall_wrapped _ _ Hin) as [x ->]. eauto.
Qed.

Lemma replace_sound_list (items : list PyData) :
  Forall replace_sound items ->
  forall variables output variables' raised,
    replace_in_list lower py_str items variables
    = (output, variables', raised) ->
    only_marks variables variables' /\
    forall e, raised = Some e ->
      exists x, e = cannot_find_variable (wrap_name x)
                /\ variables !! lower (wrap_name x) = None.
Proof.
  induction 1 as [|item rest Hitem _ IH];
    intros variables output variables' raised H.
  - injection H as <- <- <-. split; [apply only_marks_refl|discriminate].
  - cbn [replace_in_list] in H.
    destruct (_replace_variables lower py_str item variables)
      as [[item' variables1] raised1] eqn:H1.
    destruct (Hitem _ _ _ _ H1) as [Hm1 He1].
    destruct raised1 as [e1|].
    + injection H as <- <- <-. split; [exact Hm1|exact He1].
    + destruct (replace_in_list lower py_str rest variables1)
        as [[rest' variables2] raised2] eqn:H2.
      injection H as <- <- <-.
      destruct (IH _ _ _ _ H2) as [Hm2 He2].
      split; [eapply only_marks_trans; eassumption|].
      intros e He. destruct (He2 e He) as (x & -> & Hnone).
      exists x. split; [reflexivity|]. eapply only_marks_None; eassumption.
Qed.

Lemma replace_sound_dict (entries : list (string * PyData)) :
  Forall (fun entry => replace_sound entry.2) entries ->
  forall variables output variables' raised,
    replace_in_dict lower py_str entries variables
    = (output, variables', raised) ->
    only_marks variables variables' /\
    forall e, raised = Some e ->
      exists x, e = cannot_find_variable (wrap_name x)
                /\ variables !! lower (wrap_name x) = None.
Proof.
  induction 1 as [|[key value] rest Hitem _ IH];
    intros variables output variables' raised H.
  - injection H as <- <- <-. split; [apply only_marks_refl|discriminate].
  - cbn [replace_in_dict] in H. cbn [snd] in Hitem.
    destruct (_replace_variables lower py_str value variables)
      as [[value' variables1] raised1] eqn:H1.
    destruct (Hitem _ _ _ _ H1) as [Hm1 He1].
    destruct raised1 as [e1|].
    + injection H as <- <- <-. split; [exact Hm1|exact He1].
    + destruct (replace_in_dict lower py_str rest variables1)
        as [[rest' variables2] raised2] eqn:H2.
      injection H as <- <- <-.
      destruct (IH _ _ _ _ H2) as [Hm2 He2].
      split; [eapply only_marks_trans; eassumption|].
      intros e He. destruct (He2 e He) as (x & -> & Hnone).
      exists x. split; [reflexivity|]. eapply only_marks_None; eassumption.
Qed.

Lemma replace_variables_sound (input : PyData) : replace_sound input.
Proof.
  induction input as [s|z|b| |items IH|entries IH] using PyData_nested_ind.
  - apply replace_sound_string.
  - intros ? ? ? ? H. injection H as <- <- <-.
    split; [apply only_marks_refl|discriminate].
  - intros ? ? ? ? H. injection H as <- <- <-.
    split; [apply only_marks_refl|discriminate].
  - intros ? ? ? ? H. injection H as <- <- <-.
    split; [apply only_marks_refl|discriminate].
  - intros variables output variables' raised Heq.
    rewrite replace_variables_list in Heq.
    destruct (replace_in_list lower py_str items variables)
      as [[items' variables1] raised1] eqn:Hloop.
    injection Heq as <- <- <-.
    eapply replace_sound_list; eassumption.
  - intros variables output variables' raised Heq.
    rewrite replace_variables_dict in Heq.
    destruct (replace_in_dict lower py_str entries variables)
      as [[entries' variables1] raised1] eqn:Hloop.
    injection Heq as <- <- <-.
    eapply replace_sound_dict; eassumption.
Qed.

End VariableProperties.

(** ** What [replace_variables] and the loaders guarantee *)

Section VariableTheorems.

Variable lower : string -> string.
Variable py_str : PyData -> string.
Context {SecretPattern : Type}.
Variable patterns : gmap string SecretPattern.

Lemma kmap_not_whole (s : string) (variables : gmap string VariableEntry) :
  (forall key, is_Some (variables !! key) -> lower s <> wrap_name key) ->
  (kmap wrap_name variables : gmap string VariableEntry) !! lower s = None.
Proof.
  intros H. apply lookup_kmap_None; [apply _|].
  intros key Hkey. destruct (variables !! key) eqn:Hv; [|reflexivity].
  exfalso. apply (H key); eauto.
Qed.

Lemma wrapped_lookup (variables : gmap string VariableEntry) (m : string) :
  (forall x, lower (wrap_name x) = wrap_name (lower x)) ->
  (exists x, m = wrap_name x) ->
  (kmap wrap_name variables : gmap string VariableEntry) !! lower m
  = variables !! lower (variable_name_of m).
Proof.
  intros Hlower [x ->].
  rewrite Hlower, variable_name_of_wrap. apply lookup_kmap, _.
Qed.

Lemma undefined_variables_eq (s : string)
    (variables : gmap string VariableEntry) :
  (forall x, lower (wrap_name x) = wrap_name (lower x)) ->
  _get_undefined_variables lower s variables =
  List.filter
    (fun m => negb (bool_decide
                      (is_Some ((kmap wrap_name variables
                                   : gmap string VariableEntry) !! lower m))))
    (findall s).
Proof.
  intros Hlower. unfold _get_undefined_variables.
  apply List.filter_ext_in. intros m Hin. f_equal.
  apply bool_decide_ext.
  rewrite (wrapped_lookup variables m Hlower (findall_wrapped _ _ Hin)).
  reflexivity.
Qed.

Lemma references_wrapped (s : string) :
  (forall x, lower (wrap_name x) = wrap_name (lower x)) ->
  map lower (findall s) = map wrap_name (references lower s).
Proof.
  intros Hlower. unfold references. rewrite List.map_map.
  apply List.map_ext_in. intros m Hin.
  destruct (findall_wrapped _ _ Hin) as [x ->].
  now rewrite Hlower, variable_name_of_wrap.
Qed.

(** X18: whatever the data, and whether it raises or not,
    [replace_variables] leaves every variable in place with its value: it
    adds none and removes none, and the only thing it changes is the mark
    [is_used], which it sets and never withdraws. *)
Theorem replace_only_sets_used_marks (input : PyData)
    (variables : gmap string VariableEntry) :
  only_marks variables (replace_variables lower py_str input variables).1.2.
Proof.
  unfold replace_variables.
  destruct (_replace_variables lower py_str input (kmap wrap_name variables))
    as [[output new_variables] raised] eqn:H.
  destruct (replace_variables_sound lower py_str input _ _ _ _ H) as [Hm _].
  intros key. cbn [fst snd]. rewrite map_lookup_imap.
  specialize (Hm (wrap_name key)). rewrite lookup_kmap in Hm by apply _.
  destruct (variables !! key); cbn; [|exact I].
  destruct (new_variables !! wrap_name key); exact Hm.
Qed.

(** X19: on any data, nested lists and dictionaries included, the only
    exception [replace_variables] raises is the [LisaException] that names
    a referenced variable which is not defined; the look-up inside the
    substitution never fails with a [KeyError]. *)
Theorem replace_raises_only_for_undefined (input : PyData)
    (variables : gmap string VariableEntry) (e : PyException) :
  (forall x, lower (wrap_name x) = wrap_name (lower x)) ->
  (replace_variables lower py_str input variables).2 = Some e ->
  exists x,
    e = cannot_find_variable (wrap_name x)
    /\ variables !! lower x = None
    /\ isinstance e LisaException = true.
Proof.
  intros Hlower. unfold replace_variables.
  destruct (_replace_variables lower py_str input (kmap wrap_name variables))
    as [[output new_variables] raised] eqn:H.
  cbn [snd]. intros ->.
  destruct (replace_variables_sound lower py_str input _ _ _ _ H) as [_ He].
  destruct (He e eq_refl) as (x & -> & Hnone).
  exists x. split; [reflexivity|]. split; [|reflexivity].
  rewrite Hlower, lookup_kmap in Hnone by apply _. exact Hnone.
Qed.

Lemma replace_string_raised (s : string)
    (variables : gmap string VariableEntry) :
  (forall x, lower (wrap_name x) = wrap_name (lower x)) ->
  (kmap wrap_name variables : gmap string VariableEntry) !! lower s = None ->
  (replace_variables lower py_str (PStr s) variables).2 =
  cannot_find_variable <$> head (_get_undefined_variables lower s variables).
Proof.
  intros Hlower Hwhole. unfold replace_variables.
  destruct (replace_string_marks lower py_str s _ Hwhole) as [output ->].
  cbn [snd]. rewrite mark_matches_raised.
  now rewrite undefined_variables_eq.
Qed.

(** X20: the check that [_load_from_runbook] makes before it replaces is
    sufficient: a string in which [_get_undefined_variables] finds nothing
    undefined is replaced without an exception. *)
Theorem undefined_check_guards_replace (s : string)
    (variables : gmap string VariableEntry) :
  (forall x, lower (wrap_name x) = wrap_name (lower x)) ->
  _get_undefined_variables lower s variables = [] ->
  (replace_variables lower py_str (PStr s) variables).2 = None.
Proof.
  intros Hlower Hundefined.
  destruct ((kmap wrap_name variables : gmap string VariableEntry) !! lower s)
    as [entry|] eqn:Hwhole.
  - unfold replace_variables. cbn [_replace_variables]. rewrite Hwhole.
    reflexivity.
  - rewrite replace_string_raised by assumption.
    now rewrite Hundefined.
Qed.

(** X21: for a string that is not, as a whole, the reference to a defined
    variable, [replace_variables] raises exactly when
    [_get_undefined_variables] reports something, and the exception names
    the first variable of that report. *)
Theorem replace_raises_for_first_undefined (s : string)
    (variables : gmap string VariableEntry) :
  (forall x, lower (wrap_name x) = wrap_name (lower x)) ->
  (forall key, is_Some (variables !! key) -> lower s <> wrap_name key) ->
  (replace_variables lower py_str (PStr s) variables).2 =
  cannot_find_variable <$> head (_get_undefined_variables lower s variables).
Proof.
  intros Hlower Hwhole.
  apply replace_string_raised; [assumption|].
  now apply kmap_not_whole.
Qed.

(** X22: a successful replacement in a string that is not, as a whole, the
    reference to a defined variable marks as used exactly the variables the
    string refers to; every other entry is left as it was. *)
Theorem replace_marks_what_it_reads (s : string)
    (variables : gmap string VariableEntry) (key : string) :
  (forall x, lower (wrap_name x) = wrap_name (lower x)) ->
  (forall key, is_Some (variables !! key) -> lower s <> wrap_name key) ->
  (replace_variables lower py_str (PStr s) variables).2 = None ->
  (replace_variables lower py_str (PStr s) variables).1.2 !! key =
  mark_if (bool_decide (key ∈ references lower s)) <$> variables !! key.
Proof.
  intros Hlower Hwhole. apply kmap_not_whole in Hwhole.
  unfold replace_variables.
  destruct (replace_string_marks lower py_str s _ Hwhole) as [output ->].
  cbn [fst snd].
  destruct (mark_matches lower (findall s) (kmap wrap_name variables))
    as [new_variables raised] eqn:Hmark.
  cbn [fst snd]. intros ->.
  rewrite map_lookup_imap.
  rewrite (mark_matches_lookup lower _ _ _ Hmark (wrap_name key)).
  rewrite lookup_kmap by apply _.
  destruct (variables !! key) as [entry|]; [|reflexivity].
  cbn. f_equal. f_equal. apply bool_decide_ext.
  rewrite references_wrapped by assumption.
  change (map wrap_name (references lower s))
    with (wrap_name <$> references lower s).
  apply list_elem_of_fmap_inj, _.
Qed.

(** *** The loaders *)

Lemma add_variable_without_mask (key : string) (value : PyData)
    (current_variables : gmap string VariableEntry) (is_secret : bool)
    (secrets : list (PyData * option SecretPattern)) :
  _add_variable lower patterns key value current_variables is_secret
    EmptyString secrets =
  (<[lower key := mkVariableEntry value false]> current_variables,
   if is_secret then secrets ++ [(value, None)] else secrets,
   None).
Proof. destruct is_secret; reflexivity. Qed.

Lemma add_all_cons (def : VariableDef) (defs : list VariableDef)
    (results : gmap string VariableEntry) :
  add_all lower (def :: defs) results =
  add_all lower defs
    (<[lower def.1.2 := mkVariableEntry (PStr def.2) false]> results).
Proof. reflexivity. Qed.

Lemma secrets_of_cons (def : VariableDef) (defs : list VariableDef)
    (secrets : list (PyData * option SecretPattern)) :
  (if def.1.1 then secrets ++ [(PStr def.2, None)] else secrets)
    ++ secrets_of defs
  = secrets ++ secrets_of (def :: defs).
Proof.
  unfold secrets_of. cbn [List.filter].
  destruct def.1.1; [|reflexivity].
  now rewrite <- app_assoc.
Qed.

Lemma add_all_keeps (defs : list VariableDef) :
  forall (results : gmap string VariableEntry) (key : string),
    Forall (fun def : VariableDef => lower def.1.2 <> key) defs ->
    add_all lower defs results !! key = results !! key.
Proof.
  induction defs as [|def defs IH]; intros results key H; [reflexivity|].
  apply Forall_cons in H as [Hdef Hdefs].
  rewrite add_all_cons, IH by assumption.
  now apply lookup_insert_ne.
Qed.

Lemma add_all_last (before after : list VariableDef) (def : VariableDef)
    (results : gmap string VariableEntry) :
  Forall (fun def' : VariableDef => lower def'.1.2 <> lower def.1.2) after ->
  add_all lower (before ++ def :: after) results !! lower def.1.2
  = Some (mkVariableEntry (PStr def.2) false).
Proof.
  intros H.
  replace (add_all lower (before ++ def :: after) results)
    with (add_all lower (def :: after) (add_all lower before results))
    by (symmetry; apply foldl_app).
  rewrite add_all_cons, add_all_keeps by assumption.
  apply lookup_insert_eq.
Qed.

Lemma add_all_defined (defs : list VariableDef) :
  forall (results : gmap string VariableEntry) (key : string),
    is_Some (add_all lower defs results !! key) <->
    is_Some (results !! key)
    \/ exists def, In def defs /\ lower def.1.2 = key.
Proof.
  induction defs as [|def defs IH]; intros results key.
  - cbn. split; [auto|]. intros [H|(? & [] & _)]. exact H.
  - rewrite add_all_cons, IH. rewrite lookup_insert_is_Some. cbn [In].
    split.
    + intros [[<-|[_ H]]|(d & Hin & Hd)]; eauto 6.
    + intros [H|(d & [<-|Hin] & Hd)]; eauto 6.
      destruct (decide (lower def.1.2 = key)); eauto.
Qed.

Lemma load_pairs_loop_closed (raw_pairs : list string) :
  forall (results : gmap string VariableEntry)
         (secrets : list (PyData * option SecretPattern)),
    Forall (fun raw_pair => is_Some (parse_pair lower raw_pair)) raw_pairs ->
    load_pairs_loop lower patterns raw_pairs results secrets =
    (add_all lower (omap (parse_pair lower) raw_pairs) results,
     secrets ++ secrets_of (omap (parse_pair lower) raw_pairs),
     None).
Proof.
  induction raw_pairs as [|raw_pair rest IH]; intros results secrets H.
  - cbn. now rewrite app_nil_r.
  - apply Forall_cons in H as [[def Hdef] Hrest].
    cbn [load_pairs_loop omap list_omap]. rewrite Hdef.
    unfold parse_pair in Hdef.
    destruct (split_colon _) as [[key value]|]; [|discriminate].
    injection Hdef as <-.
    rewrite add_variable_without_mask, IH by assumption.
    rewrite add_all_cons. cbn [fst snd].
    now rewrite <- secrets_of_cons.
Qed.

Lemma load_pairs_loop_raised (raw_pairs : list string) :
  forall (results : gmap string VariableEntry)
         (secrets : list (PyData * option SecretPattern)),
    (load_pairs_loop lower patterns raw_pairs results secrets).2 =
    if forallb (fun raw_pair =>
                  bool_decide (is_Some (parse_pair lower raw_pair))) raw_pairs
    then None else Some unpack_error.
Proof.
  induction raw_pairs as [|raw_pair rest IH]; intros results secrets;
    [reflexivity|].
  cbn [load_pairs_loop forallb].
  destruct (parse_pair lower raw_pair) as [def|] eqn:Hdef.
  - rewrite bool_decide_eq_true_2 by eauto. unfold parse_pair in Hdef.
    destruct (split_colon _) as [[key value]|]; [|discriminate].
    rewrite add_variable_without_mask. cbn [andb]. apply IH.
  - rewrite bool_decide_eq_false_2 by (intros [? ?]; discriminate).
    unfold parse_pair in Hdef.
    destruct (split_colon _) as [[key value]|]; [discriminate|].
    reflexivity.
Qed.

Lemma load_env_loop_closed (environ : list (string * string)) :
  forall (results : gmap string VariableEntry)
         (secrets : list (PyData * option SecretPattern)),
    load_env_loop lower patterns environ results secrets =
    (add_all lower (omap env_variable environ) results,
     secrets ++ secrets_of (omap env_variable environ),
     None).
Proof.
  induction environ as [|[env_name value] rest IH]; intros results secrets.
  - cbn. now rewrite app_nil_r.
  - cbn [load_env_loop omap list_omap].
    destruct (startswith env_name "LISA_") eqn:E1;
      [|destruct (startswith env_name "S_LISA_") eqn:E2].
    + assert (Hdef : env_variable (env_name, value)
                     = Some (false, str_drop 5 env_name, value))
        by (unfold env_variable; cbn [fst snd]; now rewrite E1).
      rewrite Hdef, add_variable_without_mask, IH, add_all_cons.
      now rewrite <- secrets_of_cons.
    + assert (Hdef : env_variable (env_name, value)
                     = Some (true, str_drop 7 env_name, value))
        by (unfold env_variable; cbn [fst snd]; now rewrite E1, E2).
      rewrite Hdef, add_variable_without_mask, IH, add_all_cons.
      now rewrite <- secrets_of_cons.
    + assert (Hdef : env_variable (env_name, value) = None)
        by (unfold env_variable; cbn [fst snd]; now rewrite E1, E2).
      rewrite Hdef. apply IH.
Qed.

(** X23: among the pairs of the command line the last one that names a
    variable decides its value, and names are compared without regard to
    case: after a load that meets no malformed pair, the variable is filed
    under its lower-case name with the value of that pair, not yet marked as
    used. *)
Theorem load_from_pairs_last_pair_wins (before after : list string)
    (raw_pair : string) (def : VariableDef)
    (secrets : list (PyData * option SecretPattern)) :
  Forall (fun raw => is_Some (parse_pair lower raw)) (before ++ after) ->
  parse_pair lower raw_pair = Some def ->
  Forall (fun raw => forall def', parse_pair lower raw = Some def' ->
                                  lower def'.1.2 <> lower def.1.2) after ->
  let loaded :=
    _load_from_pairs lower patterns (Some (before ++ raw_pair :: after))
      secrets in
  loaded.2 = None
  /\ loaded.1.1 !! lower def.1.2 = Some (mkVariableEntry (PStr def.2) false).
Proof.
  intros Hall Hdef Hafter loaded. subst loaded.
  apply Forall_app in Hall as [Hbefore Hafter'].
  unfold _load_from_pairs. rewrite load_pairs_loop_closed.
  2:{ apply Forall_app. split; [assumption|].
      apply Forall_cons. split; [eauto|assumption]. }
  cbn [fst snd]. split; [reflexivity|].
  rewrite omap_app. cbn [omap list_omap]. rewrite Hdef.
  apply add_all_last.
  clear -Hafter. induction after as [|raw rest IH]; [constructor|].
  apply Forall_cons in Hafter as [Hraw Hrest].
  cbn [omap list_omap].
  destruct (parse_pair lower raw) as [def'|] eqn:Hparse; [|auto].
  apply Forall_cons. split; [auto|]. auto.
Qed.

(** X24: [_load_from_pairs] raises exactly when one of the pairs, its
    prefix [s:] apart, has no colon; the exception is then the [ValueError]
    of the unpacking, wherever the pair stands in the list. *)
Theorem load_from_pairs_needs_colon (raw_pairs : list string)
    (secrets : list (PyData * option SecretPattern)) :
  (_load_from_pairs lower patterns (Some raw_pairs) secrets).2 =
  if forallb (fun raw_pair =>
                bool_decide (is_Some (parse_pair lower raw_pair))) raw_pairs
  then None else Some unpack_error.
Proof. apply load_pairs_loop_raised. Qed.

(** X25: [_load_from_env] never raises, and it defines a variable exactly
    for the names of the environment that start with [LISA_] or [S_LISA_]:
    the name of the variable is the rest of the name, in lower case; every
    other name of the environment is ignored. *)
Theorem load_from_env_reads_prefixed_names
    (environ : list (string * string))
    (secrets : list (PyData * option SecretPattern)) (key : string) :
  let loaded := _load_from_env lower patterns environ secrets in
  loaded.2 = None
  /\ (is_Some (loaded.1.1 !! key) <->
      exists item def,
        In item environ /\ env_variable item = Some def
        /\ lower def.1.2 = key).
Proof.
  intros loaded. subst loaded. unfold _load_from_env.
  rewrite load_env_loop_closed. cbn [fst snd]. split; [reflexivity|].
  rewrite add_all_defined. rewrite lookup_empty. split.
  - intros [[? H]|(def & Hin & Hkey)]; [discriminate|].
    apply list_elem_of_In, list_elem_of_omap in Hin as (item & Hitem & Hdef).
    exists item, def. split; [now apply list_elem_of_In|]. auto.
  - intros (item & def & Hin & Hdef & Hkey). right. exists def.
    split; [|exact Hkey].
    apply list_elem_of_In, list_elem_of_omap. exists item.
    split; [now apply list_elem_of_In|exact Hdef].
Qed.

(** X26: the secrets a load from pairs registers are the values of the
    pairs with the prefix [s:], in the order of the list, each without a
    mask; and the same values are filed as variables like any other. *)
Theorem load_from_pairs_registers_secrets (raw_pairs : list string)
    (secrets : list (PyData * option SecretPattern)) :
  Forall (fun raw => is_Some (parse_pair lower raw)) raw_pairs ->
  (_load_from_pairs lower patterns (Some raw_pairs) secrets).1.2 =
  secrets ++ secrets_of (omap (parse_pair lower) raw_pairs).
Proof.
  intros H. unfold _load_from_pairs.
  now rewrite load_pairs_loop_closed.
Qed.

End VariableTheorems.

(** ** The agent tool *)

Section WaagentTheorems.

Context {Machine : Type}.
Variable run : string -> string -> Machine -> ExecutableResult * Machine.
Variable version_matches : string -> list string.

(** X27: [get_version] runs one, two or three commands: the candidates in
    their order, starting with the command the tool has; the command the
    tool keeps is the last one it ran. *)
Theorem get_version_tries_candidates_in_order (_command : string)
    (node : Machine) :
  let outcome := get_version run version_matches _command node in
  exists n,
    (1 <= n <= 3)%nat
    /\ outcome.1.2 = take n (waagent_candidates _command)
    /\ last outcome.1.2 = Some outcome.1.1.2.
Proof.
  intros outcome. subst outcome. unfold get_version.
  destruct (run _command "-version" node) as [result1 node1].
  destruct (Z.eqb (exit_code result1) 0) eqn:E1; cbn [negb].
  - rewrite E1. exists 1%nat. cbn. split; [lia|]. split; reflexivity.
  - destruct (run "/usr/sbin/waagent" "-version" node1) as [result2 node2].
    destruct (Z.eqb (exit_code result2) 0) eqn:E2; cbn [negb].
    + exists 2%nat. cbn. split; [lia|]. split; reflexivity.
    + destruct (run "python3 /usr/sbin/waagent" "-version" node2)
        as [result3 node3].
      exists 3%nat. cbn. split; [lia|]. split; reflexivity.
Qed.

(** X28: on a node whose answers do not depend on what was run before,
    once [get_version] has ended on a command that exits with 0, a further
    call runs that command alone, keeps it, and returns the same
    version. *)
Theorem get_version_keeps_working_command (_command : string)
    (node : Machine) :
  (forall command parameters node1 node2,
      (run command parameters node1).1 = (run command parameters node2).1) ->
  let outcome := get_version run version_matches _command node in
  exit_code (run outcome.1.1.2 "-version" outcome.2).1 = 0 ->
  get_version run version_matches outcome.1.1.2 outcome.2 =
  (outcome.1.1.1, outcome.1.1.2, [outcome.1.1.2],
   (run outcome.1.1.2 "-version" outcome.2).2).
Proof.
  intros Hstable outcome. subst outcome.
  assert (Hworks : forall command node0 node1,
             exit_code (run command "-version" node1).1 = 0 ->
             get_version run version_matches command node1 =
             (match version_matches (stdout (run command "-version" node0).1) with
              | version :: _ => version
              | [] => EmptyString
              end, command, [command], (run command "-version" node1).2)).
  { intros command node0 node1 Hexit. unfold get_version.
    rewrite (Hstable command "-version" node0 node1).
    destruct (run command "-version" node1) as [result1 node1'].
    cbn [fst snd] in *. rewrite Hexit. cbn [Z.eqb negb].
    rewrite Hexit. reflexivity. }
  assert (Hlast : exists node0,
             (get_version run version_matches _command node).1.1.1 =
             match version_matches
                     (stdout (run (get_version run version_matches
                                     _command node).1.1.2
                                "-version" node0).1) with
             | version :: _ => version
             | [] => EmptyString
             end).
  { unfold get_version.
    destruct (run _command "-version" node) as [result1 node1] eqn:H1.
    destruct (Z.eqb (exit_code result1) 0) eqn:E1; cbn [negb].
    - rewrite E1. cbn [negb fst snd]. exists node. now rewrite H1.
    - destruct (run "/usr/sbin/waagent" "-version" node1)
        as [result2 node2] eqn:H2.
      destruct (Z.eqb (exit_code result2) 0) eqn:E2; cbn [negb fst snd].
      + exists node1. now rewrite H2.
      + destruct (run "python3 /usr/sbin/waagent" "-version" node2)
          as [result3 node3] eqn:H3.
        cbn [fst snd]. exists node2. now rewrite H3. }
  destruct Hlast as [node0 Hlast].
  intros Hexit. rewrite (Hworks _ node0 _ Hexit), <- Hlast. reflexivity.
Qed.

End WaagentTheorems.

(** * The further statements at work *)

Lemma before_case_exhausted_skips_case_witness :
  let out := run_one_case broken_before_case_suite
               (demo_environment [demo_ubuntu]) demo_kwargs true ""
               (demo_record "1" "hello" 1 false) demo_state in
  status out.1 = SKIPPED
  /\ message out.1 = "before_case: boom"
  /\ calls out.2
     = [CallBeforeCase "hello"; CallBeforeCase "hello"; CallAfterCase "hello"].
Proof.
  intros out.
  destruct (before_case_exhausted_skips_case broken_before_case_suite
              (demo_environment [demo_ubuntu]) demo_kwargs ""
              (demo_record "1" "hello" 1 false) demo_state)
    as (e & c & He & Hst & Hmsg & _ & _).
  - intros j _. discriminate.
  - injection He as <-. split; [exact Hst|]. split; [exact Hmsg | reflexivity].
Defined.

Lemma start_leaves_no_record_running_witness :
  let out := start demo_suite (demo_environment [demo_ubuntu])
               [demo_record "1" "broken" 0 false; demo_record "2" "later" 0 true]
               demo_state in
  map status out.1.2 = [FAILED; NOTRUN]
  /\ Forall (fun r => status r <> RUNNING) out.1.2.
Proof.
  intros out. split; [reflexivity|].
  refine (proj1 (start_leaves_no_record_running demo_suite
                   (demo_environment [demo_ubuntu])
                   [demo_record "1" "broken" 0 false;
                    demo_record "2" "later" 0 true] demo_state _)).
  repeat constructor; discriminate.
Defined.

Lemma start_with_stop_set_runs_one_case_witness :
  let out := start demo_suite (demo_environment [demo_ubuntu])
               [demo_record "1" "hello" 0 false;
                demo_record "2" "hello" 0 false] stopped_state in
  _should_stop stopped_state = true
  /\ map status out.1.2 = [PASSED; NOTRUN]
  /\ _should_stop out.2 = true
  /\ tail out.1.2 = [demo_record "2" "hello" 0 false].
Proof.
  intros out. split; [reflexivity|]. split; [reflexivity|].
  destruct (start_with_stop_set_runs_one_case demo_suite
              (demo_environment [demo_ubuntu]) (demo_record "1" "hello" 0 false)
              [demo_record "2" "hello" 0 false] stopped_state eq_refl)
    as (Hflag & Htail & _).
  split; [exact Hflag | exact Htail].
Defined.

Lemma waiting_registry_wf : registry_wf waiting_registry.
Proof.
  split; [|split].
  - cbn. repeat constructor. set_solver.
  - intros fn c [[= <- <-] | []]. reflexivity.
  - intros key s Hs. cbn in Hs. rewrite lookup_empty in Hs. discriminate.
Defined.

Lemma waiting_registry_consistent : registry_consistent waiting_registry.
Proof.
  split.
  - intros fn c key [[= <- <-] | []] Hs. discriminate.
  - intros key s fn Hs. cbn in Hs. rewrite lookup_empty in Hs. discriminate.
Defined.

Lemma registration_keeps_registry_sound_witness :
  registry_wf (_add_suite_metadata demo_suite_metadata waiting_registry).1
  /\ registry_consistent
       (_add_suite_metadata demo_suite_metadata waiting_registry).1
  /\ registry_wf
       (_add_case_metadata (fresh_case "Demo" "bye") waiting_registry).1.
Proof.
  destruct (registration_keeps_registry_sound waiting_registry
              waiting_registry_wf waiting_registry_consistent) as [Hs Hc].
  destruct (Hs demo_suite_metadata eq_refl) as [Hwf Hcons].
  destruct (Hc (fresh_case "Demo" "bye") eq_refl) as [Hwf' _].
  auto.
Defined.

Lemma case_registration_attaches_or_holds_witness :
  let held := _add_case_metadata (fresh_case "Demo" "bye") waiting_registry in
  let attached := _add_case_metadata (fresh_case "Demo" "bye") demo_registry in
  held.2 = None
  /\ map fst (_all_cases held.1) = ["Demo.hello"; "Demo.bye"]
  /\ _all_suites held.1 = _all_suites waiting_registry
  /\ (cases <$> _all_suites attached.1 !! "Demo") = Some ["Demo.bye"].
Proof.
  intros held attached.
  destruct (case_registration_attaches_or_holds (fresh_case "Demo" "bye")
              waiting_registry eq_refl) as (Hnone & _ & Hheld).
  destruct (Hheld eq_refl) as [Hcases Hsuites].
  destruct (case_registration_attaches_or_holds (fresh_case "Demo" "bye")
              demo_registry eq_refl) as (_ & Hatt & _).
  destruct (Hatt demo_suite_metadata eq_refl) as [_ Hsuites'].
  split; [exact Hnone|]. split; [subst held; rewrite Hcases; reflexivity|].
  split; [exact Hsuites|]. subst attached. rewrite Hsuites'. reflexivity.
Defined.

Lemma suite_registration_collects_cases_witness :
  let out := _add_suite_metadata demo_suite_metadata waiting_registry in
  out.2 = None
  /\ (cases <$> _all_suites out.1 !! "Demo") = Some ["Demo.hello"]
  /\ map (fun entry => suite entry.2) (_all_cases out.1) = [Some "Demo"].
Proof.
  intros out.
  destruct (suite_registration_collects_cases demo_suite_metadata "Demo"
              waiting_registry waiting_registry_wf eq_refl eq_refl)
    as (Hnone & Hsuite & _).
  split; [exact Hnone|]. split; [|reflexivity].
  subst out. rewrite Hsuite. reflexivity.
Defined.

Lemma registration_order_is_irrelevant_witness :
  _add_suite_metadata demo_suite_metadata
    (_add_case_metadata (fresh_case "Demo" "bye") waiting_registry).1
  = _add_case_metadata (fresh_case "Demo" "bye")
      (_add_suite_metadata demo_suite_metadata waiting_registry).1.
Proof.
  exact (proj1 (registration_order_is_irrelevant demo_suite_metadata
                  (fresh_case "Demo" "bye") "Demo" waiting_registry
                  waiting_registry_wf eq_refl eq_refl eq_refl eq_refl
                  eq_refl)).
Defined.

(** With a dot in the key of the suite the two orders differ: registered
    after the suite, the case looks for the suite named by the part before
    its first dot and stays bound to none. *)
Example dotted_suite_key_depends_on_order :
  let dotted :=
    mkSuiteMetadata "a.b" [] [] "demo" "functional" "" demo_requirement None in
  let c := fresh_case "a.b" "x" in
  let empty := mkRegistry ∅ [] in
  (cases <$> _all_suites
               (_add_suite_metadata dotted (_add_case_metadata c empty).1).1
             !! "a.b") = Some ["a.b.x"]
  /\ (cases <$> _all_suites
                  (_add_case_metadata c (_add_suite_metadata dotted empty).1).1
                !! "a.b") = Some [].
Proof. split; reflexivity. Qed.

Lemma demo_registry_wf : registry_wf demo_registry.
Proof.
  split; [|split].
  - cbn. repeat constructor. set_solver.
  - intros fn c [[= <- <-] | []]. reflexivity.
  - intros key s Hs. unfold demo_registry in Hs. cbn [_all_suites] in Hs.
    apply lookup_singleton_Some in Hs as [<- <-]. reflexivity.
Defined.

(** A descriptor without a name, decorated for the first time; and the
    descriptor that the registry holds as Demo, decorated again for another
    class. *)
Lemma suite_decorator_names_the_suite_witness :
  let unnamed :=
    mkSuiteMetadata "" [] [] "demo" "functional" "" demo_requirement None in
  let out := TestSuiteMetadata_call unnamed None "HelloWorld" waiting_registry in
  let again :=
    TestSuiteMetadata_call demo_suite_metadata (Some "Demo") "Other"
      demo_registry in
  (suite_name out.1 = "HelloWorld"
   /\ out.2.2 = None
   /\ _all_suites out.2.1 !! "HelloWorld" = Some out.1)
  /\ (again.2.2 = Some (duplicate_error "Demo")
      /\ (test_class <$> _all_suites again.2.1 !! "Demo")
         = Some (Some "Other")
      /\ (test_class <$> _all_suites demo_registry !! "Demo")
         = Some (Some "Demo")).
Proof.
  intros unnamed out again. split.
  - destruct (suite_decorator_names_the_suite unnamed "HelloWorld"
                waiting_registry waiting_registry_wf)
      as (Hname & _ & Hfree & _).
    destruct (Hfree eq_refl) as (Hnone & Hstored & _).
    split; [exact Hname|]. split; [exact Hnone | exact Hstored].
  - destruct (suite_decorator_names_the_suite demo_suite_metadata "Other"
                demo_registry demo_registry_wf)
      as (_ & _ & _ & _ & Hagain).
    destruct (Hagain "Demo" eq_refl eq_refl) as (Hraise & Hsuites & _).
    split; [exact Hraise|]. split; [|reflexivity].
    assert (H : _all_suites again.2.1
                = <[ "Demo" := decorate_suite demo_suite_metadata "Other" ]>
                    (_all_suites demo_registry)) by exact Hsuites.
    rewrite H, lookup_insert_eq. reflexivity.
Defined.

Lemma registered_case_delegates_requirement_witness :
  let final :=
    (_add_suite_metadata demo_suite_metadata
       (_add_case_metadata (fresh_case "Demo" "bye") waiting_registry).1).1 in
  exists stored,
    dict_get (_all_cases final) "Demo.bye" = Some stored
    /\ suite stored = Some "Demo"
    /\ getattr_requirement (_all_suites final) stored = Some demo_requirement.
Proof.
  exact (registered_case_delegates_requirement demo_suite_metadata
           (fresh_case "Demo" "bye") "Demo" waiting_registry
           waiting_registry_wf eq_refl eq_refl eq_refl eq_refl eq_refl).
Defined.

Lemma check_environment_verdict_witness :
  exists out,
    check_environment demo_suites (demo_record "1" "hello" 0 false)
      (demo_environment [demo_ubuntu; demo_windows]) false = Some out
    /\ chk_return out = false
    /\ all_nodes_pass (mkSetSpace true ["Linux"]) [demo_ubuntu; demo_windows]
       = false.
Proof.
  eexists. split; [reflexivity|].
  destruct (check_environment_verdict demo_suites
              (demo_record "1" "hello" 0 false)
              (demo_environment [demo_ubuntu; demo_windows]) false _ eq_refl)
    as (requirement & requirement_environment & Hreq & Henv & Hret & _).
  injection Hreq as <-. injection Henv as <-.
  split; [exact Hret | reflexivity].
Defined.

(** ** The statements on variables and on the agent tool at work *)

Lemma lower_ascii_close (x : string) :
  lower_ascii (x +:+ ")") = lower_ascii x +:+ ")".
Proof.
  induction x as [|c x IH]; [reflexivity|].
  rewrite append_cons. cbn [lower_ascii]. now rewrite IH.
Qed.

Lemma lower_ascii_wrap (x : string) :
  lower_ascii (wrap_name x) = wrap_name (lower_ascii x).
Proof.
  rewrite !wrap_name_eq. cbn [lower_ascii]. rewrite lower_ascii_close.
  reflexivity.
Qed.

Lemma demo_variables_not_whole (s : string) :
  lower_ascii s <> wrap_name "location" ->
  forall key, is_Some (demo_variables !! key) -> lower_ascii s <> wrap_name key.
Proof.
  intros Hs key [entry Hkey]. unfold demo_variables in Hkey.
  apply lookup_singleton_Some in Hkey as [<- _]. exact Hs.
Qed.

Lemma replace_raises_only_for_undefined_witness :
  (replace_variables lower_ascii demo_str
     (PDict [("region", PStr "$(Location)");
             ("names", PList [PStr "vm-$(Size)"; PStr "$(zone)"])])
     demo_variables).2
  = Some (cannot_find_variable "$(Size)")
  /\ exists x,
       cannot_find_variable "$(Size)" = cannot_find_variable (wrap_name x)
       /\ demo_variables !! lower_ascii x = None
       /\ isinstance (cannot_find_variable "$(Size)") LisaException = true.
Proof.
  split; [vm_compute; reflexivity|].
  apply (replace_raises_only_for_undefined lower_ascii demo_str
           (PDict [("region", PStr "$(Location)");
                   ("names", PList [PStr "vm-$(Size)"; PStr "$(zone)"])])
           demo_variables (cannot_find_variable "$(Size)") lower_ascii_wrap).
  vm_compute. reflexivity.
Defined.

Lemma undefined_check_guards_replace_witness :
  _get_undefined_variables lower_ascii "rg-$(Location)-$(LOCATION)"
    demo_variables = []
  /\ (replace_variables lower_ascii demo_str
        (PStr "rg-$(Location)-$(LOCATION)") demo_variables).2 = None.
Proof.
  split; [vm_compute; reflexivity|].
  apply (undefined_check_guards_replace lower_ascii demo_str
           "rg-$(Location)-$(LOCATION)" demo_variables lower_ascii_wrap).
  vm_compute. reflexivity.
Defined.

Lemma replace_raises_for_first_undefined_witness :
  _get_undefined_variables lower_ascii "$(location)/$(Size)/$(zone)"
    demo_variables = ["$(Size)"; "$(zone)"]
  /\ (replace_variables lower_ascii demo_str
        (PStr "$(location)/$(Size)/$(zone)") demo_variables).2
     = cannot_find_variable
         <$> head (_get_undefined_variables lower_ascii
                     "$(location)/$(Size)/$(zone)" demo_variables).
Proof.
  split; [vm_compute; reflexivity|].
  apply (replace_raises_for_first_undefined lower_ascii demo_str
           "$(location)/$(Size)/$(zone)" demo_variables lower_ascii_wrap).
  apply demo_variables_not_whole. vm_compute. discriminate.
Defined.

Lemma replace_marks_what_it_reads_witness :
  references lower_ascii "rg-$(Location)" = ["location"]
  /\ (replace_variables lower_ascii demo_str (PStr "rg-$(Location)")
        demo_variables).1.2 !! "location"
     = mark_if (bool_decide ("location" ∈ references lower_ascii "rg-$(Location)"))
         <$> demo_variables !! "location".
Proof.
  split; [vm_compute; reflexivity|].
  apply (replace_marks_what_it_reads lower_ascii demo_str "rg-$(Location)"
           demo_variables "location" lower_ascii_wrap).
  - apply demo_variables_not_whole. vm_compute. discriminate.
  - vm_compute. reflexivity.
Defined.

Lemma load_from_pairs_last_pair_wins_witness :
  let loaded :=
    _load_from_pairs lower_ascii no_patterns
      (Some (["Location:eastus"; "s:token:abc"]
               ++ "LOCATION:westus2" :: ["S:Token:xyz"])) [] in
  loaded.2 = None
  /\ loaded.1.1 !! "location" = Some (mkVariableEntry (PStr "westus2") false).
Proof.
  apply (load_from_pairs_last_pair_wins lower_ascii no_patterns
           ["Location:eastus"; "s:token:abc"] ["S:Token:xyz"]
           "LOCATION:westus2" (false, "LOCATION", "westus2") []).
  - constructor; [eexists; reflexivity|].
    constructor; [eexists; reflexivity|].
    constructor; [eexists; reflexivity|constructor].
  - reflexivity.
  - constructor; [|constructor].
    intros def' H. vm_compute in H. injection H as <-. discriminate.
Defined.

Lemma load_from_pairs_registers_secrets_witness :
  (_load_from_pairs lower_ascii no_patterns
     (Some ["Location:eastus"; "S:token:abc"; "s:Key:k1"]) []).1.2
  = [] ++ secrets_of
            (omap (parse_pair lower_ascii)
               ["Location:eastus"; "S:token:abc"; "s:Key:k1"]).
Proof.
  apply (load_from_pairs_registers_secrets lower_ascii no_patterns
           ["Location:eastus"; "S:token:abc"; "s:Key:k1"] []).
  constructor; [eexists; reflexivity|].
  constructor; [eexists; reflexivity|].
  constructor; [eexists; reflexivity|constructor].
Defined.

Lemma get_version_keeps_working_command_witness :
  let outcome := get_version demo_run demo_version_matches "waagent" 0%nat in
  outcome = ("2.2.45", "/usr/sbin/waagent",
             ["waagent"; "/usr/sbin/waagent"], 2%nat)
  /\ get_version demo_run demo_version_matches outcome.1.1.2 outcome.2
     = (outcome.1.1.1, outcome.1.1.2, [outcome.1.1.2],
        (demo_run outcome.1.1.2 "-version" outcome.2).2).
Proof.
  intros outcome. split; [reflexivity|].
  apply (get_version_keeps_working_command demo_run demo_version_matches
           "waagent" 0%nat).
  - intros command parameters node1 node2. reflexivity.
  - reflexivity.
Defined.
